(** * Directory cleanup and inventory: a shallow embedding

    The development follows [directory_cleanup_and_inventory.py]:

    - [Str] and [Posixpath] embed the operations of Python's [str] and
      [os.path] that the program calls, on strings taken as sequences of
      bytes (UTF-8, so that the byte order is Python's code point order);
    - [should_clean_file] is the classifier;
    - [clean_directory] is the walk, as explicit state passing over the
      directory tree, the statistics and the list of records, and
      [clean_directory_run] is the walk with the exceptions that leave it;
    - [get_directory_structure] derives the directory records;
    - [main] is the entry point. *)

From Stdlib Require Import ZArith Ascii String DecimalString List Sorted Permutation Lia.
From stdpp Require Import base list gmap strings sorting.

Set Warnings "-register-all".

Local Open Scope Z_scope.

(** ** Python strings *)

Module Str.

(** [s.startswith(p)] *)
Definition startswith (s p : string) : bool := String.prefix p s.

(** [s.endswith(p)] *)
Fixpoint endswith (s p : string) : bool :=
  String.eqb s p ||
  match s with
  | EmptyString => false
  | String _ s' => endswith s' p
  end.

(** [sub in s] *)
Fixpoint contains (s sub : string) : bool :=
  String.prefix sub s ||
  match s with
  | EmptyString => false
  | String _ s' => contains s' sub
  end.

(** [s.split(c)] for a separator of one character: never empty. *)
Fixpoint split (c : ascii) (s : string) : list string :=
  match s with
  | EmptyString => [EmptyString]
  | String a s' =>
      if Ascii.eqb a c then EmptyString :: split c s'
      else match split c s' with
           | [] => [String a EmptyString]
           | w :: ws => String a w :: ws
           end
  end.

(** [c.join(l)] *)
Fixpoint join (c : ascii) (l : list string) : string :=
  match l with
  | [] => EmptyString
  | [w] => w
  | w :: ws => w +:+ String c (join c ws)
  end.

(** [c * n] *)
Fixpoint repeat (c : ascii) (n : nat) : string :=
  match n with
  | O => EmptyString
  | S n' => String c (repeat c n')
  end.

(** [s == c * len(s)] *)
Fixpoint all_char (c : ascii) (s : string) : bool :=
  match s with
  | EmptyString => true
  | String a s' => Ascii.eqb a c && all_char c s'
  end.

(** [s.rstrip(c)] *)
Fixpoint rstrip (c : ascii) (s : string) : string :=
  match s with
  | EmptyString => EmptyString
  | String a s' =>
      match rstrip c s' with
      | EmptyString => if Ascii.eqb a c then EmptyString else String a EmptyString
      | r => String a r
      end
  end.

(** [(s[:i], s[i:])] for [i = s.rfind(c) + 1] *)
Fixpoint rpartition (c : ascii) (s : string) : string * string :=
  match s with
  | EmptyString => (EmptyString, EmptyString)
  | String a s' =>
      let (h, t) := rpartition c s' in
      if Ascii.eqb a c then (String a h, t)
      else match h with
           | EmptyString => (EmptyString, String a t)
           | _ => (String a h, t)
           end
  end.

(** [not s] *)
Definition is_empty (s : string) : bool :=
  match s with EmptyString => true | _ => false end.

End Str.

(** ** [os.path] on POSIX *)

Module Posixpath.

Definition sep : ascii := "/"%char.
Definition curdir : string := ".".
Definition pardir : string := "..".

Definition isabs (p : string) : bool := Str.startswith p "/".

(** [os.path.join(a, b)] *)
Definition join (a b : string) : string :=
  if Str.startswith b "/" then b
  else if Str.is_empty a || Str.endswith a "/" then a +:+ b
  else a +:+ String sep b.

(** [os.path.join] applied to all the strings of a list that is not empty *)
Definition join_all (l : list string) : string :=
  match l with
  | [] => EmptyString
  | a :: p => fold_left join p a
  end.

(** [os.path.basename(p)] *)
Definition basename (p : string) : string := snd (Str.rpartition sep p).

(** [os.path.dirname(p)] *)
Definition dirname (p : string) : string :=
  let head := fst (Str.rpartition sep p) in
  if negb (Str.is_empty head) && negb (Str.all_char sep head)
  then Str.rstrip sep head
  else head.

(** The number of leading slashes [normpath] keeps: two stay two, three or
    more become one. *)
Definition initial_slashes (path : string) : nat :=
  if Str.startswith path "/" then
    if Str.startswith path "//" && negb (Str.startswith path "///")
    then 2%nat else 1%nat
  else 0%nat.

(** One turn of the loop of [normpath] over the components; [new_comps] is
    the stack, its top at the end of the list. *)
Definition normpath_step (initial : nat) (new_comps : list string) (comp : string)
  : list string :=
  if String.eqb comp "" || String.eqb comp "." then new_comps
  else if negb (String.eqb comp "..")
          || (Nat.eqb initial 0 && bool_decide (new_comps = []))
          || bool_decide (last new_comps = Some "..")
  then new_comps ++ [comp]
  else removelast new_comps.

(** [os.path.normpath(path)] *)
Definition normpath (path : string) : string :=
  if Str.is_empty path then curdir
  else
    let initial := initial_slashes path in
    let comps := fold_left (normpath_step initial) (Str.split sep path) [] in
    let path := Str.repeat sep initial +:+ Str.join sep comps in
    if Str.is_empty path then curdir else path.

(** [os.path.abspath(path)], the working directory being [cwd] *)
Definition abspath (cwd path : string) : string :=
  normpath (if isabs path then path else join cwd path).

(** [os.path.commonprefix] of two lists of components: their longest
    common prefix. *)
Fixpoint commonprefix (s1 s2 : list string) : list string :=
  match s1, s2 with
  | c :: s1', d :: s2' => if String.eqb c d then c :: commonprefix s1' s2' else []
  | _, _ => []
  end.

(** [os.path.relpath(path, start)]: [None] is the [ValueError] raised for
    an empty [path]. *)
Definition relpath (cwd path start : string) : option string :=
  if Str.is_empty path then None
  else
    let nonempty := filter (fun x => negb (Str.is_empty x) = true) in
    let start_list := nonempty (Str.split sep (abspath cwd start)) in
    let path_list := nonempty (Str.split sep (abspath cwd path)) in
    let i := length (commonprefix start_list path_list) in
    let rel_list :=
      List.repeat pardir (length start_list - i) ++ drop i path_list in
    Some (if bool_decide (rel_list = []) then curdir else join_all rel_list).

End Posixpath.

(** ** The classifier *)

(** Files to clean up (macOS specific and general hidden files). *)
Definition CLEANUP_FILES : gset string :=
  list_to_set
    [ ".DS_Store"; ".localized"; ".AppleDouble"; ".LSOverride"; "Thumbs.db";
      ".com.apple.timemachine.supported"; ".DocumentRevisions-V100";
      ".Spotlight-V100"; ".TemporaryItems"; ".Trashes"; ".VolumeIcon.icns";
      ".fseventsd"; ".apdisk" ].

Definition should_clean_file (filename filepath : string) : bool :=
  if Str.startswith filename "." then true
  else if bool_decide (filename ∈ CLEANUP_FILES) then true
  else if Str.startswith filename "._" then true
  else if Str.contains filepath ".AppleDouble" then true
  else false.

(** The classifier with the membership test in [CLEANUP_FILES] taken out,
    the other three rules as they are. *)
Definition should_clean_file_without_denylist (filename filepath : string) : bool :=
  if Str.startswith filename "." then true
  else if Str.startswith filename "._" then true
  else if Str.contains filepath ".AppleDouble" then true
  else false.


(** ** Sorting

    [list.sort] and [sorted] are stable; so is this insertion sort, which
    puts an element before the first one whose key is not smaller. Keys are
    compared as Python compares [str]. *)

Fixpoint insert_on {A} (key : A -> string) (x : A) (l : list A) : list A :=
  match l with
  | [] => [x]
  | y :: l' =>
      if String.leb (key x) (key y) then x :: y :: l'
      else y :: insert_on key x l'
  end.

Definition sort_on {A} (key : A -> string) (l : list A) : list A :=
  foldr (insert_on key) [] l.

(** ** The file system and the run time

    What [os.walk], [os.stat], [os.path.getsize] and [os.remove] see. *)

(** A call that returns or raises; [Raise e] carries the text of the
    exception. *)
Inductive result (A : Type) : Type :=
| Ok (a : A)
| Raise (e : string).
Arguments Ok {A} a.
Arguments Raise {A} e.

Record stat_result := { st_size : Z; st_mtime : Z }.

(** An entry that [scandir] does not report as a directory: what [os.stat]
    gives for it when the walk comes to it, and whether [os.remove] succeeds
    ([None]) or raises. [os.stat] follows symbolic links: [link_target] is,
    for a symbolic link, the path of the file that the link resolves to,
    links followed to the end, written as the walk joins the path of that
    file; it is [None] for an entry that is no symbolic link. *)
Record file := {
  os_stat : result stat_result;
  os_remove_error : option string;
  link_target : option string
}.

(** [Dir None] is a directory that [os.walk] lists among [dirnames] and does
    not enter: [scandir] fails on it, or it is a symbolic link. *)
Inductive node :=
| File (f : file)
| Dir (listing : option (list (string * node))).

(** [os.path.getsize(path)] is [os.stat(path).st_size]. *)
Definition getsize (f : file) : result Z :=
  match os_stat f with
  | Ok st => Ok (st_size st)
  | Raise e => Raise e
  end.

(** The collaborators the walk calls and does not define: the working
    directory, which [os.path.relpath] reads and which is an absolute path,
    [humanize.naturalsize], and
    [datetime.fromtimestamp(t).strftime('%Y-%m-%d %H:%M:%S')], which raises
    on a time out of range. *)
Class Runtime := {
  getcwd : string;
  getcwd_isabs : Posixpath.isabs getcwd = true;
  naturalsize : Z -> string;
  strftime : Z -> result string
}.

Fixpoint height (n : node) : nat :=
  match n with
  | Dir (Some entries) => S (list_max (map (fun e => height (snd e)) entries))
  | _ => O
  end.

(** ** Statistics and records *)

Record FileStats := {
  total_files : Z;
  cleaned_files : Z;
  cleaned_size : Z;
  errors : list string
}.

(** [FileStats()] *)
Definition FileStats_init : FileStats :=
  {| total_files := 0; cleaned_files := 0; cleaned_size := 0; errors := [] |}.

Record file_info := {
  filename : string;
  relative_path : string;
  size : string;
  raw_size : Z;
  modified : string;
  directory : string
}.

(** What the loop of [clean_directory] mutates. *)
Record state := {
  stats : FileStats;
  file_data : list file_info
}.

Definition count_file (s : state) : state :=
  {| stats := {| total_files := total_files (stats s) + 1;
                 cleaned_files := cleaned_files (stats s);
                 cleaned_size := cleaned_size (stats s);
                 errors := errors (stats s) |};
     file_data := file_data s |}.

Definition add_cleaned_size (n : Z) (s : state) : state :=
  {| stats := {| total_files := total_files (stats s);
                 cleaned_files := cleaned_files (stats s);
                 cleaned_size := cleaned_size (stats s) + n;
                 errors := errors (stats s) |};
     file_data := file_data s |}.

Definition count_cleaned (s : state) : state :=
  {| stats := {| total_files := total_files (stats s);
                 cleaned_files := cleaned_files (stats s) + 1;
                 cleaned_size := cleaned_size (stats s);
                 errors := errors (stats s) |};
     file_data := file_data s |}.

Definition append_error (msg : string) (s : state) : state :=
  {| stats := {| total_files := total_files (stats s);
                 cleaned_files := cleaned_files (stats s);
                 cleaned_size := cleaned_size (stats s);
                 errors := errors (stats s) ++ [msg] |};
     file_data := file_data s |}.

Definition append_record (r : file_info) (s : state) : state :=
  {| stats := stats s; file_data := file_data s ++ [r] |}.

(** [f"Error processing {full_path}: {e}"] *)
Definition error_msg (full_path e : string) : string :=
  "Error processing " +:+ full_path +:+ ": " +:+ e.

(** ** The walk *)

Abbreviation listing := (list (string * node)).

(** The names [scandir] reports as not being directories, with what they
    name, in its order. *)
Definition nondirs (entries : listing) : list (string * file) :=
  omap (fun e => match snd e with
                 | File f => Some (fst e, f)
                 | Dir _ => None
                 end) entries.

(** The names [scandir] reports as directories. *)
Definition dirs (entries : listing) : list (string * option listing) :=
  omap (fun e => match snd e with
                 | Dir l => Some (fst e, l)
                 | File _ => None
                 end) entries.

Definition file_entry (e : string * file) : string * node := (fst e, File (snd e)).
Definition dir_entry (e : string * option listing) : string * node := (fst e, Dir (snd e)).

(** [d.startswith('.')] *)
Definition hidden {A} (e : string * A) : bool := Str.startswith (fst e) ".".

Section Walk.
Context `{Runtime}.

(** The body of the loop over [filenames] as it goes when the [print] of
    its handler returns: the new state, and whether the file has been
    removed from its directory. The exceptions of [os.stat],
    [os.path.getsize], [os.remove], [os.path.relpath] and of the formatting
    of the time are caught in the loop; [visit_file_run] below is the body
    with the [print] of the handler, which can raise in turn. *)
Definition visit_file (root_path dirpath : string) (name : string) (f : file)
    (s : state) : bool * state :=
  let full_path := Posixpath.join dirpath name in
  let s := count_file s in
  if should_clean_file name full_path then
    let s := match getsize f with
             | Ok file_size => add_cleaned_size file_size s
             | Raise _ => s
             end in
    match os_remove_error f with
    | None => (true, count_cleaned s)
    | Some e => (false, append_error (error_msg full_path e) s)
    end
  else
    match os_stat f with
    | Raise e => (false, append_error (error_msg full_path e) s)
    | Ok file_stats =>
        match Posixpath.relpath getcwd full_path root_path with
        | None => (false, append_error (error_msg full_path "no path specified") s)
        | Some rel_path =>
            match strftime (st_mtime file_stats) with
            | Raise e => (false, append_error (error_msg full_path e) s)
            | Ok mtime =>
                (false,
                 append_record
                   {| filename := name;
                      relative_path := rel_path;
                      size := naturalsize (st_size file_stats);
                      raw_size := st_size file_stats;
                      modified := mtime;
                      directory := Posixpath.dirname rel_path |} s)
            end
        end
    end.

(** [for filename in filenames]: the files left in the directory and the
    new state. *)
Fixpoint visit_files (root_path dirpath : string) (files : list (string * file))
    (s : state) : list (string * file) * state :=
  match files with
  | [] => ([], s)
  | e :: rest =>
      let (removed, s1) := visit_file root_path dirpath (fst e) (snd e) s in
      let (kept, s2) := visit_files root_path dirpath rest s1 in
      (if removed then kept else e :: kept, s2)
  end.

(** [os.walk] going down into the directories left in [dirnames], one
    after the other; [walk_into] is the walk of one directory. *)
Fixpoint walk_subdirs (walk_into : string -> listing -> state -> listing * state)
    (top : string) (subdirs : list (string * option listing)) (s : state)
    : list (string * option listing) * state :=
  match subdirs with
  | [] => ([], s)
  | (d, None) :: rest =>
      let (rest', s1) := walk_subdirs walk_into top rest s in
      ((d, None) :: rest', s1)
  | (d, Some entries) :: rest =>
      let (entries', s1) := walk_into (Posixpath.join top d) entries s in
      let (rest', s2) := walk_subdirs walk_into top rest s1 in
      ((d, Some entries') :: rest', s2)
  end.

(** [os.walk(top, topdown=True)] with the body of the loop of
    [clean_directory] run at each directory, on a directory whose entries
    are [entries]: the entries afterwards and the new state. [fuel] bounds
    the depth; [clean_directory] gives the height of the tree. *)
Fixpoint walk (fuel : nat) (root_path top : string) (entries : listing) (s : state)
    : listing * state :=
  match fuel with
  | O => (entries, s)
  | S fuel' =>
      let sorted_dirnames := sort_on fst (dirs entries) in
      let dirnames := List.filter (fun d => negb (hidden d)) sorted_dirnames in
      let pruned := List.filter hidden sorted_dirnames in
      let filenames := sort_on fst (nondirs entries) in
      let (kept, s1) := visit_files root_path top filenames s in
      let (walked, s2) := walk_subdirs (walk fuel' root_path) top dirnames s1 in
      (map file_entry kept ++ map dir_entry walked ++ map dir_entry pruned, s2)
  end.

End Walk.

(** ** What the walk visits

    The files the walk comes to, in its order, as a list: each with the
    names of the directories from the root down to its own ([v_chain]). The
    state after the walk is the state after [visit_file] on each of them
    ([walk_visits] below). *)

Record visit := {
  v_chain : list string;
  v_name : string;
  v_file : file
}.

(** [top] of [os.walk] after going down [chain] from [root_path]. *)
Definition descend (root_path : string) (chain : list string) : string :=
  fold_left Posixpath.join chain root_path.

Fixpoint visited (fuel : nat) (chain : list string) (entries : listing) : list visit :=
  match fuel with
  | O => []
  | S fuel' =>
      map (fun e => {| v_chain := chain; v_name := fst e; v_file := snd e |})
          (sort_on fst (nondirs entries))
      ++ flat_map (fun d => match snd d with
                            | Some sub => visited fuel' (chain ++ [fst d]) sub
                            | None => []
                            end)
           (List.filter (fun d => negb (hidden d)) (sort_on fst (dirs entries)))
  end.

Definition visit_all `{Runtime} (root_path : string) (vs : list visit) (s : state) : state :=
  fold_left (fun s v => snd (visit_file root_path (descend root_path (v_chain v))
                               (v_name v) (v_file v) s)) vs s.

(** The classifier on a visit of the walk from [root_path]. *)
Definition junk (root_path : string) (v : visit) : bool :=
  should_clean_file (v_name v)
    (Posixpath.join (descend root_path (v_chain v)) (v_name v)).

(** The visit removes its file: the file is junk and [os.remove] succeeds. *)
Definition removed (root_path : string) (v : visit) : bool :=
  junk root_path v && bool_decide (os_remove_error (v_file v) = None).

(** ** The tree that the walk leaves

    [os.remove] on the target of a symbolic link leaves the link dangling:
    from then on [os.stat] on the link raises. *)

(** The path that the loop joins for the file of a visit. *)
Definition full_path_of (root_path : string) (v : visit) : string :=
  Posixpath.join (descend root_path (v_chain v)) (v_name v).

(** The paths of the files that the walk of a root removes, in its order:
    those on which [os.remove] succeeds, as [walk_run] collects them
    ([walk_run_returns] below). *)
Definition removed_paths (root_path : string) (entries : listing) : list string :=
  map (full_path_of root_path)
      (List.filter (removed root_path)
         (visited (height (Dir (Some entries))) [] entries)).

(** The text of the [FileNotFoundError] of [os.stat]. *)
Definition no_such_file (full_path : string) : string :=
  "[Errno 2] No such file or directory: '" +:+ full_path +:+ "'".

(** The entry at [full_path] once the files at [gone] are removed: a
    symbolic link to one of them dangles, anything else is as it was.
    [os.remove] on a dangling link removes the link as before. *)
Definition settle_file (gone : list string) (full_path : string) (f : file) : file :=
  match link_target f with
  | Some target =>
      if bool_decide (target ∈ gone)
      then {| os_stat := Raise (no_such_file full_path);
              os_remove_error := os_remove_error f;
              link_target := link_target f |}
      else f
  | None => f
  end.

(** The same on everything at and below [path], hidden directories
    included. *)
Fixpoint settle (gone : list string) (path : string) (n : node) : node :=
  match n with
  | File f => File (settle_file gone path f)
  | Dir None => Dir None
  | Dir (Some entries) =>
      Dir (Some (map (fun e => (fst e, settle gone (Posixpath.join path (fst e)) (snd e)))
                     entries))
  end.

Definition settle_entries (gone : list string) (path : string) (entries : listing)
    : listing :=
  map (fun e => (fst e, settle gone (Posixpath.join path (fst e)) (snd e))) entries.

(** The same on the file of a visit. *)
Definition settle_visit (gone : list string) (root_path : string) (v : visit) : visit :=
  {| v_chain := v_chain v;
     v_name := v_name v;
     v_file := settle_file gone (full_path_of root_path v) (v_file v) |}.


(** [clean_directory(root_path, stats)] when [root_path] names [root] on
    disk ([None]: nothing) and it returns: what [root_path] names
    afterwards, as a walk that starts then finds it, the list returned and
    the statistics. [os.walk] ignores the error of a [scandir] that fails,
    so a root that cannot be listed gives no directory at all. The
    exceptions that leave the function instead are those of
    [clean_directory_run] below. *)
Definition clean_directory `{Runtime} (root_path : string) (root : option node)
    (st : FileStats) : option node * list file_info * FileStats :=
  let s := {| stats := st; file_data := [] |} in
  let (root', s') :=
    match root with
    | Some (Dir (Some entries)) =>
        let (entries', s') :=
          walk (height (Dir (Some entries))) root_path root_path entries s in
        let gone := removed_paths root_path entries in
        (Some (Dir (Some (settle_entries gone root_path entries'))), s')
    | _ => (root, s)
    end in
  (root', sort_on relative_path (file_data s'), stats s').



(** ** The directory structure *)

Record dir_info := {
  directory_path : string;
  depth : Z;
  parent_directory : string;
  directory_name : string
}.

(** The body of [for part in rel_path.split(os.sep)]. *)
Definition add_level (acc : string * gset string) (part : string)
    : string * gset string :=
  let (current_path, directories) := acc in
  let current_path :=
    if negb (Str.is_empty current_path) then Posixpath.join current_path part
    else part in
  (current_path, directories ∪ {[ Posixpath.dirname current_path ]}).

(** The body of [for file_info in file_data]. *)
Definition add_levels (directories : gset string) (fi : file_info) : gset string :=
  snd (fold_left add_level (Str.split Posixpath.sep (relative_path fi))
         (EmptyString, directories)).

(** The record of one directory. *)
Definition make_dir_info (dir_path : string) : dir_info :=
  {| directory_path := dir_path;
     depth := if negb (Str.is_empty dir_path)
              then Z.of_nat (length (Str.split Posixpath.sep dir_path)) else 0;
     parent_directory := if negb (Str.is_empty dir_path)
                         then Posixpath.dirname dir_path else EmptyString;
     directory_name := if negb (Str.is_empty dir_path)
                       then Posixpath.basename dir_path else EmptyString |}.

Definition get_directory_structure (file_data : list file_info) : list dir_info :=
  let directories := fold_left add_levels file_data (∅ : gset string) in
  let directories := directories ∖ {[ EmptyString ]} in
  let dir_list := sort_on id (elements directories) in
  map make_dir_info dir_list.

(** The files under a directory that the walk comes to: those of the
    directory itself and those under its subdirectories that are listed and
    not hidden. Read off the tree alone, without the order of the walk. *)
Fixpoint files_in_reach (n : node) : nat :=
  match n with
  | Dir (Some entries) =>
      sum_list_with
        (fun e => match snd e with
                  | File _ => 1%nat
                  | Dir _ => if Str.startswith (fst e) "." then 0%nat
                             else files_in_reach (snd e)
                  end) entries
  | _ => 0%nat
  end.

(** A root that [os.walk] can list. *)
Definition walkable (root : option node) : bool :=
  match root with
  | Some (Dir (Some _)) => true
  | _ => false
  end.

(** A run time to evaluate the program with: sizes and times rendered by
    tags, a time before the epoch refused. *)
Definition example_runtime : Runtime :=
  {| getcwd := "/home/user";
     getcwd_isabs := eq_refl;
     naturalsize := fun n => if Z.ltb n 1000 then "Bytes" else "kB or more";
     strftime := fun t => if Z.ltb t 0 then Raise "year out of range"
                          else Ok "1970-01-01 00:00:00 or later" |}.

(** ** Path segments *)

(** No separator in [s]. *)
Fixpoint no_sep (s : string) : bool :=
  match s with
  | EmptyString => true
  | String a s' => negb (Ascii.eqb a Posixpath.sep) && no_sep s'
  end.

(** A path segment: a name that is not empty and holds no separator. *)
Definition segment (s : string) : bool := negb (Str.is_empty s) && no_sep s.

(** Every one of [ws] is a segment. *)
Abbreviation segments ws := (Forall (fun w => segment w = true) ws).

(** [segs] joined by the separator. *)
Abbreviation path_of segs := (Str.join Posixpath.sep segs).

(** A relative path in normal form, as [os.path.relpath] returns them: no
    segment of it is empty. *)
Definition normalized (p : string) : bool :=
  forallb (fun x => negb (Str.is_empty x)) (Str.split Posixpath.sep p).

(** The proper path-segment prefixes of [rel_path]: its first [k] segments
    joined, for every [k] from 1 to the number of segments less one, so that
    the last segment, the file name, is in none and the empty path is not
    one of them. *)
Definition proper_prefixes (rel_path : string) : list string :=
  let segs := Str.split Posixpath.sep rel_path in
  map (fun k => path_of (take k segs)) (seq 1 (length segs - 1)).

(** The record of [make_dir_info] on a path that is not empty: the
    conditionals on [dir_path] decided. *)
Definition make_dir_info_nonempty (dir_path : string) : dir_info :=
  {| directory_path := dir_path;
     depth := Z.of_nat (length (Str.split Posixpath.sep dir_path));
     parent_directory := Posixpath.dirname dir_path;
     directory_name := Posixpath.basename dir_path |}.

(** A record of a file of 10 bytes at [rel_path], to evaluate the derivation
    with. *)
Definition example_record (rel_path : string) : file_info :=
  {| filename := Posixpath.basename rel_path;
     relative_path := rel_path;
     size := "10 Bytes";
     raw_size := 10;
     modified := "2024-01-01 00:00:00";
     directory := Posixpath.dirname rel_path |}.

(** ** Trees as a file system has them *)

(** A name that [scandir] can report: not empty, without a separator, and
    neither [.] nor [..]. *)
Definition wf_name (n : string) : bool :=
  segment n && negb (String.eqb n Posixpath.curdir)
  && negb (String.eqb n Posixpath.pardir).

(** No name twice in a directory, every name one that [scandir] can report,
    and so on below. *)
Fixpoint wf_node (n : node) : bool :=
  match n with
  | Dir (Some entries) =>
      bool_decide (NoDup (map fst entries))
      && forallb (fun e => wf_name (fst e) && wf_node (snd e)) entries
  | _ => true
  end.

Definition wf_root (root : option node) : bool :=
  match root with
  | Some n => wf_node n
  | None => true
  end.

(** ** The record of a visit *)

(** The names from the root down to the file of a visit, the name of the
    file last. *)
Definition key (v : visit) : list string := v_chain v ++ [v_name v].

(** The record that [visit_file] appends for a visit, if it appends one. *)
Definition record_for `{Runtime} (root_path : string) (v : visit) : option file_info :=
  let full_path := Posixpath.join (descend root_path (v_chain v)) (v_name v) in
  if should_clean_file (v_name v) full_path then None
  else
    match os_stat (v_file v) with
    | Raise _ => None
    | Ok file_stats =>
        match Posixpath.relpath getcwd full_path root_path with
        | None => None
        | Some rel_path =>
            match strftime (st_mtime file_stats) with
            | Raise _ => None
            | Ok mtime =>
                Some {| filename := v_name v;
                        relative_path := rel_path;
                        size := naturalsize (st_size file_stats);
                        raw_size := st_size file_stats;
                        modified := mtime;
                        directory := Posixpath.dirname rel_path |}
            end
        end
    end.

(** A tree to evaluate the walk with: junk files next to files that stay, a
    hidden directory and a directory that cannot be listed. *)
Definition example_file (n : Z) : node :=
  File {| os_stat := Ok {| st_size := n; st_mtime := 1700000000 |};
          os_remove_error := None;
          link_target := None |}.

Definition example_tree : node :=
  Dir (Some
    [ ("c", Dir (Some [("._shadow", example_file 3)]));
      ("a", Dir (Some [(".DS_Store", example_file 7);
                       ("b", Dir (Some [("report.txt", example_file 10)]))]));
      ("notes.txt", example_file 1);
      (".git", Dir (Some [("config", example_file 2)]));
      ("locked", Dir None);
      ("Thumbs.db", example_file 4) ]).


(** ** Notions the proofs are stated with *)

(** [x] before [y], or at the same place, in the order of [sort_on key]. *)
Definition key_le {A} (key : A -> string) (x y : A) : Prop :=
  String.leb (key x) (key y) = true.

(** The files counted and not yet in one of the three buckets. *)
Definition unaccounted (s : state) : Z :=
  total_files (stats s) - cleaned_files (stats s)
  - Z.of_nat (length (file_data s)) - Z.of_nat (length (errors (stats s))).

(** The files in reach of one subdirectory, as [files_in_reach] counts
    them at its parent. *)
Definition reach_below (d : string * option listing) : nat :=
  if hidden d then 0%nat else files_in_reach (Dir (snd d)).

(** A path that is the join of segments; the empty path is the one of no
    segment. *)
Definition clean_path (p : string) : Prop :=
  exists ws, segments ws /\ p = path_of ws.

(** What [abspath] hands to [normpath], the working directory being
    [cwd]. *)
Definition abs_arg (cwd p : string) : string :=
  if Posixpath.isabs p then p else Posixpath.join cwd p.

(** The stack of [normpath] on an absolute path. *)
Definition stack (q : string) : list string :=
  fold_left (Posixpath.normpath_step 1) (Str.split Posixpath.sep q) [].

(** Every one of [ns] is a name that [scandir] can report. *)
Abbreviation wf_names ns := (Forall (fun n => wf_name n = true) ns).

(** The key of a visit below [chain]: [chain] and at least one name more. *)
Definition below (chain : list string) (v : visit) : Prop :=
  exists rest, rest <> [] /\ key v = chain ++ rest.

(** What holds of the visits of a well-formed directory at [chain]. *)
Definition good_visits (chain : list string) (vs : list visit) : Prop :=
  Forall (fun v => wf_names (key v)) vs /\
  NoDup (map key vs) /\
  Forall (below chain) vs.


(** The visits below the subdirectories, at a given fuel. *)
Definition visits_below (fuel : nat) (chain : list string)
    (subdirs : list (string * option listing)) : list visit :=
  flat_map (fun d => match snd d with
                     | Some sub => visited fuel (chain ++ [fst d]) sub
                     | None => []
                     end) subdirs.


(** The bytes that a visit adds to [cleaned_size]: the size of a junk file
    when it can be read, whether or not the file is then removed. *)
Definition size_added (root_path : string) (v : visit) : Z :=
  if junk root_path v then
    match getsize (v_file v) with
    | Ok file_size => file_size
    | Raise _ => 0
    end
  else 0.

(** The bytes that a visit frees: the size of a junk file that is removed,
    0 when the size cannot be read. *)
Definition size_freed (root_path : string) (v : visit) : Z :=
  if junk root_path v then
    match os_remove_error (v_file v) with
    | None => match getsize (v_file v) with
              | Ok file_size => file_size
              | Raise _ => 0
              end
    | Some _ => 0
    end
  else 0.

(** ** More of the program

    What follows are the notions and the functions that the further
    properties, after those of the claims, are stated with. *)

(** The classifier with the rule on the resource fork files ([._]) taken
    out, the other three rules as they are. *)
Definition should_clean_file_without_resource_fork_rule (filename filepath : string)
    : bool :=
  if Str.startswith filename "." then true
  else if bool_decide (filename ∈ CLEANUP_FILES) then true
  else if Str.contains filepath ".AppleDouble" then true
  else false.

(** The segments a current path of the inner loop of
    [get_directory_structure] stands for, when it is the path of [ne]
    followed by the part [w]: an empty last part leaves a separator at the
    end and no segment. *)
Definition eff (ne : list string) (w : string) : list string :=
  if Str.is_empty w then ne else ne ++ [w].

(** With the path of segments under a directory, [D] holds the path of the
    directory. *)
Definition parent_closed (D : gset string) : Prop :=
  forall ws w, ws <> [] -> segments (ws ++ [w]) ->
               path_of (ws ++ [w]) ∈ D -> path_of ws ∈ D.

(** [D] holds the path of every proper prefix of [l] that is not empty. *)
Definition prefixes_in (l : list string) (D : gset string) : Prop :=
  forall pre rest, pre <> [] -> rest <> [] -> l = pre ++ rest -> path_of pre ∈ D.

(** The message that [visit_file] appends to [errors] for a visit, if it
    appends one. *)
Definition error_for `{Runtime} (root_path : string) (v : visit) : option string :=
  let full_path := Posixpath.join (descend root_path (v_chain v)) (v_name v) in
  if should_clean_file (v_name v) full_path then
    match os_remove_error (v_file v) with
    | None => None
    | Some e => Some (error_msg full_path e)
    end
  else
    match os_stat (v_file v) with
    | Raise e => Some (error_msg full_path e)
    | Ok file_stats =>
        match Posixpath.relpath getcwd full_path root_path with
        | None => Some (error_msg full_path "no path specified")
        | Some _ =>
            match strftime (st_mtime file_stats) with
            | Raise e => Some (error_msg full_path e)
            | Ok _ => None
            end
        end
    end.

(** The statistics of a run added to those before it. *)
Definition FileStats_add (st d : FileStats) : FileStats :=
  {| total_files := total_files st + total_files d;
     cleaned_files := cleaned_files st + cleaned_files d;
     cleaned_size := cleaned_size st + cleaned_size d;
     errors := errors st ++ errors d |}.

(** What [walk_leaves] says, at given fuels: the visits of a walk of the
    entries that a walk leaves are the visits of that walk that did not
    remove their file. *)
Definition leaves_at `{Runtime} (root_path : string) (fuel fuel2 : nat) : Prop :=
  forall chain entries s,
    (height (Dir (Some entries)) <= fuel)%nat ->
    let r := walk fuel root_path (descend root_path chain) entries s in
    (height (Dir (Some (fst r))) <= fuel2)%nat ->
    visited fuel2 chain (fst r)
    = List.filter (fun v => negb (removed root_path v)) (visited fuel chain entries).

(** ** The names of the inventories *)

Definition is_digit (a : ascii) : bool :=
  Nat.leb 48 (nat_of_ascii a) && Nat.leb (nat_of_ascii a) 57.

Definition is_upper (a : ascii) : bool :=
  Nat.leb 65 (nat_of_ascii a) && Nat.leb (nat_of_ascii a) 90.

Definition is_lower (a : ascii) : bool :=
  Nat.leb 97 (nat_of_ascii a) && Nat.leb (nat_of_ascii a) 122.

(** A byte that continues a character of UTF-8 begun before it. *)
Definition is_continuation (a : ascii) : bool :=
  Nat.leb 128 (nat_of_ascii a) && Nat.leb (nat_of_ascii a) 191.

(** [re.sub(r'[^a-zA-Z0-9]', '_', s)]: every character that is not a letter
    or a digit of ASCII becomes one underscore. On the bytes of UTF-8, a
    character out of ASCII is its first byte, which gives the underscore,
    and the bytes that continue it, which give nothing. *)
Fixpoint sub_non_alnum (s : string) : string :=
  match s with
  | EmptyString => EmptyString
  | String a s' =>
      if is_digit a || is_upper a || is_lower a then String a (sub_non_alnum s')
      else if is_continuation a then sub_non_alnum s'
      else String "_" (sub_non_alnum s')
  end.

(** [s.lower()] on a string of ASCII. *)
Fixpoint lower (s : string) : string :=
  match s with
  | EmptyString => EmptyString
  | String a s' =>
      String (if is_upper a then ascii_of_nat (nat_of_ascii a + 32) else a) (lower s')
  end.

(** [normalize_path_to_filename(path, prefix)], [timestamp] being what
    [datetime.now().strftime('%Y%m%d_%H%M%S')] returns. *)
Definition normalize_path_to_filename (timestamp path prefix : string) : string :=
  let base_name := Posixpath.basename (Str.rstrip Posixpath.sep path) in
  let normalized := lower (sub_non_alnum base_name) in
  prefix +:+ "_" +:+ normalized +:+ "_" +:+ timestamp +:+ ".csv".

(** The paths of the two inventories, as [main] builds them: [files_csv]
    and [dirs_csv], the two timestamps being those of the two calls. *)
Definition csv_paths (output_directory root_directory timestamp1 timestamp2 : string)
    : string * string :=
  let files_filename :=
    normalize_path_to_filename timestamp1 root_directory "inventory_files" in
  let dirs_filename :=
    normalize_path_to_filename timestamp2 root_directory "inventory_dirs" in
  (Posixpath.join output_directory files_filename,
   Posixpath.join output_directory dirs_filename).

(** A lower-case letter, a digit or the underscore. *)
Definition plain_char (a : ascii) : bool :=
  is_lower a || is_digit a || Ascii.eqb a "_".

Fixpoint all_chars (P : ascii -> bool) (s : string) : bool :=
  match s with
  | EmptyString => true
  | String a s' => P a && all_chars P s'
  end.

(** ** The same tree, listed in another order

    Two trees with the same files and directories under the same names,
    [scandir] giving the entries of each directory in any order. *)
Inductive same_tree : node -> node -> Prop :=
| same_file f : same_tree (File f) (File f)
| same_unlisted : same_tree (Dir None) (Dir None)
| same_listed entries entries' l :
    Forall2 (fun e e' => fst e = fst e' /\ same_tree (snd e) (snd e')) entries l ->
    Permutation l entries' ->
    same_tree (Dir (Some entries)) (Dir (Some entries')).

Definition same_entry (e e' : string * node) : Prop :=
  fst e = fst e' /\ same_tree (snd e) (snd e').

Definition same_dir (d d' : string * option listing) : Prop :=
  fst d = fst d' /\ same_tree (Dir (snd d)) (Dir (snd d')).

(** What [same_tree_visits] says, at given fuels for the two trees. *)
Definition same_visits_at (fuel fuel' : nat) : Prop :=
  forall chain entries entries',
    same_tree (Dir (Some entries)) (Dir (Some entries')) ->
    wf_node (Dir (Some entries)) = true ->
    (height (Dir (Some entries)) <= fuel)%nat ->
    (height (Dir (Some entries')) <= fuel')%nat ->
    visited fuel chain entries = visited fuel' chain entries'.

(** ** The console *)

(** [print(m)]: [None] when it returns, the text of the exception when it
    raises, which it does on a message that the encoding of the console
    cannot take ([UnicodeEncodeError], as on the name of a file whose bytes
    are no UTF-8) and when the stream is closed. *)
Class Console := {
  print : string -> option string
}.

(** The line feed of [f"\n..."]. *)
Definition newline : ascii := "010"%char.

(** [print] on each message in turn, up to the first that raises. *)
Fixpoint print_all `{C : Console} (messages : list string) : option string :=
  match messages with
  | [] => None
  | m :: rest =>
      match print m with
      | Some e => Some e
      | None => print_all rest
      end
  end.

(** A console that takes every message. *)
Definition accepting_console : Console := {| print := fun _ => None |}.

(** A console that encodes strictly: [print] raises on a message that holds
    the byte 255, which is in no text of UTF-8 and stands here for a byte
    of a name that could not be decoded. *)
Definition strict_console : Console :=
  {| print := fun m =>
       if Str.contains m (String "255"%char EmptyString)
       then Some "'utf-8' codec can't encode character: surrogates not allowed"
       else None |}.

(** ** The walk and the exceptions that leave it

    [visit_file], [walk] and [clean_directory] above are the loop as it
    goes when the [print] of its handler returns. What follows is the loop
    with the exceptions that nothing in it catches: the one of that
    [print], which runs before the message is logged, the one of the
    [print] before the loop, and the [ValueError] of [os.walk] on a path
    that holds a NUL. An exception that leaves the loop ends it: no file is
    visited after that. *)

(** The walk under way: the state of the loop, the paths of the files
    removed so far, and the exception that has left the loop, if one
    has. *)
Record progress := {
  loop_state : state;
  removed_so_far : list string;
  escaped : option string
}.

(** How [clean_directory] ends: it returns the list, or an exception leaves
    it; either way with what the root names by then and the statistics. *)
Inductive ending :=
| Returned (root' : option node) (file_data : list file_info) (stats : FileStats)
| Raised (e : string) (root' : option node) (stats : FileStats).

(** [os.walk] hands the path to [scandir], which raises [ValueError] on a
    path that holds a NUL; [os.walk] catches [OSError] alone. *)
Definition has_nul (path : string) : bool :=
  Str.contains path (String "000"%char EmptyString).

Section Run.
Context `{Runtime} `{C : Console}.

(** The clause [except Exception as e]: the message is printed, then
    logged; the exception of a [print] that raises leaves the loop. *)
Definition handler (full_path e : string) (s : state) : bool * state * option string :=
  let error_msg := error_msg full_path e in
  match print (String newline error_msg) with
  | Some raised => (false, s, Some raised)
  | None => (false, append_error error_msg s, None)
  end.

(** The body of the loop over [filenames]: whether the file has been
    removed, the new state, and the exception that leaves the body, if one
    does. *)
Definition visit_file_run (root_path dirpath : string) (name : string) (f : file)
    (s : state) : bool * state * option string :=
  let full_path := Posixpath.join dirpath name in
  let s := count_file s in
  if should_clean_file name full_path then
    let s := match getsize f with
             | Ok file_size => add_cleaned_size file_size s
             | Raise _ => s
             end in
    match os_remove_error f with
    | None => (true, count_cleaned s, None)
    | Some e => handler full_path e s
    end
  else
    match os_stat f with
    | Raise e => handler full_path e s
    | Ok file_stats =>
        match Posixpath.relpath getcwd full_path root_path with
        | None => handler full_path "no path specified" s
        | Some rel_path =>
            match strftime (st_mtime file_stats) with
            | Raise e => handler full_path e s
            | Ok mtime =>
                (false,
                 append_record
                   {| filename := name;
                      relative_path := rel_path;
                      size := naturalsize (st_size file_stats);
                      raw_size := st_size file_stats;
                      modified := mtime;
                      directory := Posixpath.dirname rel_path |} s,
                 None)
            end
        end
    end.

(** [for filename in filenames], up to the file at which an exception
    leaves the loop; the files after it are left as they are. *)
Fixpoint visit_files_run (root_path dirpath : string) (files : list (string * file))
    (p : progress) : list (string * file) * progress :=
  match files with
  | [] => ([], p)
  | e :: rest =>
      match escaped p with
      | Some _ => (files, p)
      | None =>
          let '(removed, s1, raised) :=
            visit_file_run root_path dirpath (fst e) (snd e) (loop_state p) in
          let p1 :=
            {| loop_state := s1;
               removed_so_far :=
                 if removed
                 then removed_so_far p ++ [Posixpath.join dirpath (fst e)]
                 else removed_so_far p;
               escaped := raised |} in
          let (kept, p2) := visit_files_run root_path dirpath rest p1 in
          (if removed then kept else e :: kept, p2)
      end
  end.

Fixpoint walk_subdirs_run
    (walk_into : string -> listing -> progress -> listing * progress)
    (top : string) (subdirs : list (string * option listing)) (p : progress)
    : list (string * option listing) * progress :=
  match subdirs with
  | [] => ([], p)
  | (d, None) :: rest =>
      let (rest', p1) := walk_subdirs_run walk_into top rest p in
      ((d, None) :: rest', p1)
  | (d, Some entries) :: rest =>
      let (entries', p1) := walk_into (Posixpath.join top d) entries p in
      let (rest', p2) := walk_subdirs_run walk_into top rest p1 in
      ((d, Some entries') :: rest', p2)
  end.

(** [walk] with the exceptions: a directory come to after an exception has
    left the loop is left as it is. *)
Fixpoint walk_run (fuel : nat) (root_path top : string) (entries : listing)
    (p : progress) : listing * progress :=
  match fuel with
  | O => (entries, p)
  | S fuel' =>
      match escaped p with
      | Some _ => (entries, p)
      | None =>
          let sorted_dirnames := sort_on fst (dirs entries) in
          let dirnames := List.filter (fun d => negb (hidden d)) sorted_dirnames in
          let pruned := List.filter hidden sorted_dirnames in
          let filenames := sort_on fst (nondirs entries) in
          let (kept, p1) := visit_files_run root_path top filenames p in
          let (walked, p2) := walk_subdirs_run (walk_run fuel' root_path) top dirnames p1 in
          (map file_entry kept ++ map dir_entry walked ++ map dir_entry pruned, p2)
      end
  end.

(** [clean_directory(root_path, stats)] with the exceptions that leave
    it. *)
Definition clean_directory_run (root_path : string) (root : option node)
    (st : FileStats) : ending :=
  match print (String newline "Scanning and cleaning directory...") with
  | Some e => Raised e root st
  | None =>
      if has_nul root_path then Raised "embedded null byte" root st
      else
        match root with
        | Some (Dir (Some entries)) =>
            let (entries', p) :=
              walk_run (height (Dir (Some entries))) root_path root_path entries
                {| loop_state := {| stats := st; file_data := [] |};
                   removed_so_far := [];
                   escaped := None |} in
            let root' :=
              Some (Dir (Some (settle_entries (removed_so_far p) root_path entries'))) in
            match escaped p with
            | Some e => Raised e root' (stats (loop_state p))
            | None =>
                Returned root' (sort_on relative_path (file_data (loop_state p)))
                  (stats (loop_state p))
            end
        | _ => Returned root [] st
        end
  end.

(** The visit logs an error whose message [print] refuses. *)
Definition blocked (root_path : string) (v : visit) : bool :=
  match error_for root_path v with
  | Some error_msg =>
      match print (String newline error_msg) with
      | Some _ => true
      | None => false
      end
  | None => false
  end.

(** [print] takes the message of every error of the walk of [root]. *)
Definition errors_printed (root_path : string) (root : option node) : bool :=
  match root with
  | Some (Dir (Some entries)) =>
      forallb (fun v => negb (blocked root_path v))
              (visited (height (Dir (Some entries))) [] entries)
  | _ => true
  end.

End Run.

(** What [walk_run_returns] says, at a given fuel: when no exception has
    left the walk by its end, it has gone as [walk] goes, and the files
    removed are those of the visits that remove their file. *)
Definition returns_at `{Runtime} `{C : Console} (root_path : string) (fuel : nat) : Prop :=
  forall chain entries p,
    escaped p = None ->
    let r := walk_run fuel root_path (descend root_path chain) entries p in
    escaped (snd r) = None ->
    r = (fst (walk fuel root_path (descend root_path chain) entries (loop_state p)),
         {| loop_state :=
              snd (walk fuel root_path (descend root_path chain) entries (loop_state p));
            removed_so_far :=
              removed_so_far p
              ++ map (full_path_of root_path)
                   (List.filter (removed root_path) (visited fuel chain entries));
            escaped := None |}).

(** What [walk_run_printed] says, at a given fuel: no exception leaves a
    walk whose error messages are all printed. *)
Definition printed_at `{Runtime} `{C : Console} (root_path : string) (fuel : nat) : Prop :=
  forall chain entries p,
    escaped p = None ->
    (forall v, In v (visited fuel chain entries) -> blocked root_path v = false) ->
    escaped (snd (walk_run fuel root_path (descend root_path chain) entries p)) = None.

(** ** The entry point *)

(** What [main] finds: the two directories of the configuration, what the
    first names on disk, what the two calls of
    [datetime.now().strftime('%Y%m%d_%H%M%S')] return, whether
    [os.makedirs] on the directory of the inventories raises, and whether
    opening and writing each of the two inventories raises. The inventories
    are written outside the directory scanned. *)
Record world := {
  ROOT_DIRECTORY : string;
  OUTPUT_DIRECTORY : string;
  root : option node;
  timestamps : string * string;
  makedirs_error : option string;
  files_csv_error : option string;
  dirs_csv_error : option string
}.

(** How the process ends: [Finished] after the summary is printed, with the
    rows written to the two inventories and the statistics printed, exit
    status 0; [Uncaught e] on an exception nothing catches, exit status 1. *)
Inductive outcome :=
| Finished (files_csv : list file_info) (dirs_csv : list dir_info) (summary : FileStats)
| Uncaught (e : string).

Definition exit_status (o : outcome) : Z :=
  match o with
  | Finished _ _ _ => 0
  | Uncaught _ => 1
  end.

(** [save_to_csv(file_data, output_file)]: the exception that leaves it, if
    one does; the rows written are [file_data]. *)
Definition save_to_csv `{C : Console} (w : world) : option string :=
  match makedirs_error w with
  | Some e => Some e
  | None =>
      match print (String newline "Saving inventory to CSV...") with
      | Some e => Some e
      | None => files_csv_error w
      end
  end.

(** [save_directory_structure(dir_data, output_file)], likewise. *)
Definition save_directory_structure `{C : Console} (w : world) : option string :=
  match makedirs_error w with
  | Some e => Some e
  | None =>
      match print (String newline "Saving directory structure to CSV...") with
      | Some e => Some e
      | None => dirs_csv_error w
      end
  end.

(** [f"{n}"] on an integer. *)
Definition str_of_int (n : Z) : string := NilZero.string_of_int (Z.to_int n).

(** The messages of the summary, in the order in which [main] prints
    them. *)
Definition summary_messages `{Runtime} (stats : FileStats) (file_data : list file_info)
    (dir_data : list dir_info) (files_csv dirs_csv : string) : list string :=
  [ String newline "Cleanup and Inventory Summary:";
    "Total files processed: " +:+ str_of_int (total_files stats);
    "Files cleaned up: " +:+ str_of_int (cleaned_files stats);
    "Space freed: " +:+ naturalsize (cleaned_size stats);
    "Remaining files inventoried: " +:+ str_of_int (Z.of_nat (length file_data));
    "Directories inventoried: " +:+ str_of_int (Z.of_nat (length dir_data));
    String newline "Output files:";
    "- Files inventory: " +:+ files_csv;
    "- Directory structure: " +:+ dirs_csv ]
  ++ match errors stats with
     | [] => []
     | _ :: _ =>
         String newline
           ("Errors encountered (" +:+ str_of_int (Z.of_nat (length (errors stats)))
            +:+ "):")
         :: map (fun error => "- " +:+ error) (errors stats)
     end.

(** [main()]: what the root names afterwards and how the process ends. *)
Definition main `{Runtime} `{C : Console} (w : world) : option node * outcome :=
  match print ("Starting cleanup and inventory of: " +:+ ROOT_DIRECTORY w) with
  | Some e => (root w, Uncaught e)
  | None =>
      match clean_directory_run (ROOT_DIRECTORY w) (root w) FileStats_init with
      | Raised e root' _ => (root', Uncaught e)
      | Returned root' file_data stats =>
          let dir_data := get_directory_structure file_data in
          let (files_csv, dirs_csv) :=
            csv_paths (OUTPUT_DIRECTORY w) (ROOT_DIRECTORY w)
              (fst (timestamps w)) (snd (timestamps w)) in
          (root',
           match save_to_csv w with
           | Some e => Uncaught e
           | None =>
               match save_directory_structure w with
               | Some e => Uncaught e
               | None =>
                   match print_all (summary_messages stats file_data dir_data
                                      files_csv dirs_csv) with
                   | Some e => Uncaught e
                   | None => Finished file_data dir_data stats
                   end
               end
           end)
      end
  end.

(** A world to evaluate [main] with: [root] at [/data], the inventories
    written without an error. *)
Definition example_world (root : option node) : world :=
  {| ROOT_DIRECTORY := "/data";
     OUTPUT_DIRECTORY := "/out";
     root := root;
     timestamps := ("20240101_120000", "20240101_120001");
     makedirs_error := None;
     files_csv_error := None;
     dirs_csv_error := None |}.

(** A directory with a junk file that cannot be removed and a file that
    cannot be read, next to a file like any other. *)
Definition locked_tree : node :=
  Dir (Some
    [ (".DS_Store",
       File {| os_stat := Ok {| st_size := 5; st_mtime := 0 |};
               os_remove_error := Some "[Errno 13] Permission denied";
               link_target := None |});
      ("secret.txt",
       File {| os_stat := Raise "[Errno 13] Permission denied";
               os_remove_error := None;
               link_target := None |});
      ("notes.txt", example_file 1) ]).

(** A directory with a file that cannot be read, whose name holds a byte
    that is no UTF-8, before a file like any other. *)
Definition undecodable_tree : node :=
  Dir (Some
    [ (String "a" (String "255"%char ".txt"),
       File {| os_stat := Raise "[Errno 13] Permission denied";
               os_remove_error := None;
               link_target := None |});
      ("b.txt", example_file 2) ]).

(** * Properties *)

(** ** Strings *)

Section StrFacts.

Lemma str_app_cons (a : ascii) (s t : string) :
  String a s +:+ t = String a (s +:+ t).
Proof. reflexivity. Qed.

Lemma str_app_empty_l (s : string) : EmptyString +:+ s = s.
Proof. reflexivity. Qed.

Lemma str_app_empty_r (s : string) : s +:+ EmptyString = s.
Proof. induction s; rewrite ?str_app_cons, ?str_app_empty_l; congruence. Qed.

Lemma str_app_assoc (s t u : string) : (s +:+ t) +:+ u = s +:+ t +:+ u.
Proof. induction s; rewrite ?str_app_cons, ?str_app_empty_l; congruence. Qed.

Lemma prefix_app (p s : string) :
  String.prefix p s = true <-> exists post, s = p +:+ post.
Proof.
  revert s. induction p as [|a p IH]; intros s; simpl.
  - destruct s; split; eauto.
  - destruct s as [|b s]; simpl.
    + split; [discriminate | intros [post Hp]; discriminate].
    + destruct (ascii_dec a b) as [->|Hab].
      * rewrite IH. split; intros [post Hp]; exists post;
          rewrite ?str_app_cons in *; congruence.
      * split; [discriminate | intros [post Hp]; rewrite str_app_cons in Hp; congruence].
Qed.

Lemma contains_app (s sub : string) :
  Str.contains s sub = true <-> exists pre post, s = pre +:+ sub +:+ post.
Proof.
  induction s as [|a s IH]; cbn [Str.contains].
  - rewrite orb_false_r, prefix_app. split.
    + intros [post Hp]. exists EmptyString, post. exact Hp.
    + intros (pre & post & Hp). destruct pre; [eauto | discriminate].
  - rewrite orb_true_iff, prefix_app, IH. split.
    + intros [[post Hp] | (pre & post & Hp)].
      * exists EmptyString, post. exact Hp.
      * exists (String a pre), post. rewrite str_app_cons. congruence.
    + intros (pre & post & Hp). destruct pre as [|b pre].
      * left. eauto.
      * right. exists pre, post. rewrite str_app_cons in Hp. congruence.
Qed.

End StrFacts.

(** ** The classifier *)

Lemma CLEANUP_FILES_dot_or_thumbs (name : string) :
  name ∈ CLEANUP_FILES -> Str.startswith name "." = true \/ name = "Thumbs.db".
Proof.
  unfold CLEANUP_FILES. rewrite elem_of_list_to_set.
  rewrite !elem_of_cons, elem_of_nil.
  intros Hin. repeat (destruct Hin as [-> | Hin]; [ (left; reflexivity) || (right; reflexivity) |]).
  destruct Hin.
Qed.

(** C2, as stated, fails: [Thumbs.db] is in the list and does not start with
    a dot, so the membership test decides for it. *)
Lemma denylist_rule_not_dead :
  ~ (forall filename filepath,
       should_clean_file filename filepath
       = should_clean_file_without_denylist filename filepath).
Proof.
  intros Hall. specialize (Hall "Thumbs.db" "/photos/Thumbs.db").
  vm_compute in Hall. discriminate.
Qed.

(** C2, amended: [Thumbs.db] is the one name for which the membership test
    in the list matters; for every other file name and every full path the
    classifier answers the same with the test and without it. *)
Theorem denylist_rule_only_thumbs (filename filepath : string) :
  filename <> "Thumbs.db" ->
  should_clean_file filename filepath
  = should_clean_file_without_denylist filename filepath.
Proof.
  intros Hne. unfold should_clean_file, should_clean_file_without_denylist.
  destruct (Str.startswith filename ".") eqn:Hdot; [reflexivity|].
  case_bool_decide as Hin; [|reflexivity].
  destruct (CLEANUP_FILES_dot_or_thumbs _ Hin); congruence.
Qed.

(** The amended C2 at [.DS_Store]. *)
Lemma denylist_rule_only_thumbs_witness :
  ".DS_Store" <> "Thumbs.db" /\
  should_clean_file ".DS_Store" "/photos/.DS_Store"
  = should_clean_file_without_denylist ".DS_Store" "/photos/.DS_Store".
Proof.
  split; [discriminate|].
  apply (denylist_rule_only_thumbs ".DS_Store" "/photos/.DS_Store"). discriminate.
Defined.

(** C9: a full path in which [.AppleDouble] occurs anywhere, also inside a
    longer name, makes the file junk, whatever the file name. *)
Theorem appledouble_anywhere_is_junk (filename filepath pre post : string) :
  filepath = pre +:+ ".AppleDouble" +:+ post ->
  should_clean_file filename filepath = true.
Proof.
  intros Hpath. unfold should_clean_file.
  assert (Str.contains filepath ".AppleDouble" = true) as ->
    by (apply contains_app; eauto).
  repeat match goal with |- context [if ?b then _ else _] => destruct b end;
    reflexivity.
Qed.

(** C9 at a file below [backup.AppleDoubleOld]. *)
Lemma appledouble_anywhere_is_junk_witness :
  "/data/backup.AppleDoubleOld/notes.txt"
  = "/data/backup" +:+ ".AppleDouble" +:+ "Old/notes.txt" /\
  should_clean_file "notes.txt" "/data/backup.AppleDoubleOld/notes.txt" = true.
Proof.
  split; [reflexivity|].
  apply (appledouble_anywhere_is_junk "notes.txt" _ "/data/backup" "Old/notes.txt").
  reflexivity.
Defined.

(** ** Sorting *)

Section SortFacts.
Context {A : Type} (key : A -> string).


Lemma key_le_trans (x y z : A) : key_le key x y -> key_le key y z -> key_le key x z.
Proof.
  unfold key_le. intros Hxy Hyz. apply Is_true_true.
  apply Is_true_true in Hxy, Hyz.
  exact (transitivity (R := String.le) Hxy Hyz).
Qed.

Lemma key_le_total (x y : A) : key_le key x y \/ key_le key y x.
Proof.
  unfold key_le. destruct (String.leb_total (key x) (key y)); auto.
Qed.

Lemma insert_on_Permutation (x : A) (l : list A) :
  Permutation (insert_on key x l) (x :: l).
Proof.
  induction l as [|y l IH]; simpl; [reflexivity|].
  destruct (String.leb (key x) (key y)); [reflexivity|].
  rewrite IH. apply perm_swap.
Qed.

Lemma sort_on_Permutation (l : list A) : Permutation (sort_on key l) l.
Proof.
  induction l as [|x l IH]; simpl; [reflexivity|].
  rewrite insert_on_Permutation. now rewrite IH.
Qed.

Lemma sort_on_length (l : list A) : length (sort_on key l) = length l.
Proof. apply Permutation_length, sort_on_Permutation. Qed.

Lemma insert_on_sorted (x : A) (l : list A) :
  StronglySorted (key_le key) l -> StronglySorted (key_le key) (insert_on key x l).
Proof.
  induction 1 as [|y l Hl IH Hy]; simpl.
  - repeat constructor.
  - destruct (String.leb (key x) (key y)) eqn:Hxy.
    + constructor; [constructor; assumption|].
      constructor; [exact Hxy|].
      eapply Forall_impl; [exact Hy|]. intros z Hz. eapply key_le_trans; eassumption.
    + constructor; [exact IH|].
      rewrite insert_on_Permutation. constructor; [|exact Hy].
      destruct (key_le_total x y) as [Hle|Hle]; [unfold key_le in Hle; congruence | exact Hle].
Qed.

Lemma sort_on_sorted (l : list A) : StronglySorted (key_le key) (sort_on key l).
Proof.
  induction l as [|x l IH]; simpl; [constructor|].
  apply insert_on_sorted, IH.
Qed.

(** Sorting a sorted list leaves it as it is. *)
Lemma sort_on_sorted_id (l : list A) :
  StronglySorted (key_le key) l -> sort_on key l = l.
Proof.
  induction 1 as [|x l Hl IH Hx]; simpl; [reflexivity|].
  rewrite IH. destruct l as [|y l]; simpl; [reflexivity|].
  inversion Hx as [|? ? Hxy _]; subst. unfold key_le in Hxy. now rewrite Hxy.
Qed.

Lemma sort_on_idem (l : list A) : sort_on key (sort_on key l) = sort_on key l.
Proof. apply sort_on_sorted_id, sort_on_sorted. Qed.

End SortFacts.

(** ** The walk: what every step keeps *)

Section WalkRel.
Context `{Runtime}.

(** A relation between the state before and after that holds across one
    file holds across the whole walk. *)
Section Steps.
Variable R : state -> state -> Prop.
Hypothesis R_refl : forall s, R s s.
Hypothesis R_trans : forall s1 s2 s3, R s1 s2 -> R s2 s3 -> R s1 s3.
Hypothesis R_visit : forall root_path dirpath name f s,
  R s (snd (visit_file root_path dirpath name f s)).

Lemma visit_files_rel root_path dirpath files s :
  R s (snd (visit_files root_path dirpath files s)).
Proof.
  revert s. induction files as [|e rest IH]; intros s; simpl; [apply R_refl|].
  pose proof (R_visit root_path dirpath (fst e) (snd e) s) as Hv.
  destruct (visit_file root_path dirpath (fst e) (snd e) s) as [removed s1].
  pose proof (IH s1) as Hr.
  destruct (visit_files root_path dirpath rest s1) as [kept s2].
  simpl in *. eapply R_trans; eassumption.
Qed.

Lemma walk_subdirs_rel walk_into top subdirs s :
  (forall p entries s, R s (snd (walk_into p entries s))) ->
  R s (snd (walk_subdirs walk_into top subdirs s)).
Proof.
  intros Hinto. revert s.
  induction subdirs as [|[d [entries|]] rest IH]; intros s; simpl.
  - apply R_refl.
  - pose proof (Hinto (Posixpath.join top d) entries s) as Hd.
    destruct (walk_into (Posixpath.join top d) entries s) as [entries' s1].
    pose proof (IH s1) as Hr.
    destruct (walk_subdirs walk_into top rest s1) as [rest' s2].
    simpl in *. eapply R_trans; eassumption.
  - pose proof (IH s) as Hr.
    destruct (walk_subdirs walk_into top rest s) as [rest' s1]. exact Hr.
Qed.

Lemma walk_rel fuel root_path top entries s :
  R s (snd (walk fuel root_path top entries s)).
Proof.
  revert top entries s. induction fuel as [|fuel IH]; intros top entries s; simpl.
  - apply R_refl.
  - pose proof (visit_files_rel root_path top (sort_on fst (nondirs entries)) s) as Hf.
    destruct (visit_files root_path top (sort_on fst (nondirs entries)) s) as [kept s1].
    match goal with |- context [walk_subdirs ?w ?t ?l ?s] =>
      pose proof (walk_subdirs_rel w t l s (IH)) as Hd;
      destruct (walk_subdirs w t l s) as [walked s2]
    end.
    simpl in *. eapply R_trans; eassumption.
Qed.

End Steps.


Lemma visit_file_accounts root_path dirpath name f s :
  unaccounted (snd (visit_file root_path dirpath name f s)) = unaccounted s.
Proof.
  unfold visit_file.
  repeat match goal with
         | |- context [if ?b then _ else _] => destruct b
         | |- context [match ?x with _ => _ end] => destruct x
         end;
    unfold unaccounted; simpl; rewrite ?length_app; simpl; lia.
Qed.

Lemma walk_accounts fuel root_path top entries s :
  unaccounted (snd (walk fuel root_path top entries s)) = unaccounted s.
Proof.
  apply (walk_rel (fun s s' => unaccounted s' = unaccounted s)).
  - reflexivity.
  - intros s1 s2 s3 H12 H23. congruence.
  - intros. apply visit_file_accounts.
Qed.

(** C5: after [clean_directory] on fresh statistics, every file counted in
    [total_files] is in exactly one of three buckets: deleted files, records
    returned, error entries. *)
Theorem total_is_cleaned_plus_records_plus_errors (root_path : string) (root : option node) :
  let '(_, result, st) := clean_directory root_path root FileStats_init in
  total_files st
  = cleaned_files st + Z.of_nat (length result) + Z.of_nat (length (errors st)).
Proof.
  unfold clean_directory.
  destruct root as [[f|[entries|]]|]; try reflexivity.
  pose proof (walk_accounts (height (Dir (Some entries))) root_path root_path entries
                {| stats := FileStats_init; file_data := [] |}) as Hacc.
  destruct (walk _ root_path root_path entries _) as [entries' s'].
  rewrite sort_on_length. unfold unaccounted in Hacc. simpl in Hacc. lia.
Qed.

End WalkRel.

(** ** The walk as a list of visits *)

Section WalkVisits.
Context `{Runtime}.

Lemma visit_all_app root_path vs1 vs2 s :
  visit_all root_path (vs1 ++ vs2) s = visit_all root_path vs2 (visit_all root_path vs1 s).
Proof. apply fold_left_app. Qed.

Lemma visit_files_visits root_path chain files s :
  snd (visit_files root_path (descend root_path chain) files s)
  = visit_all root_path
      (map (fun e => {| v_chain := chain; v_name := fst e; v_file := snd e |}) files) s.
Proof.
  revert s. induction files as [|e rest IH]; intros s; [reflexivity|].
  cbn [visit_files map]. unfold visit_all. cbn [fold_left v_chain v_name v_file].
  destruct (visit_file root_path (descend root_path chain) (fst e) (snd e) s)
    as [removed s1].
  specialize (IH s1).
  destruct (visit_files root_path (descend root_path chain) rest s1) as [kept s2].
  exact IH.
Qed.

Lemma descend_snoc root_path chain d :
  Posixpath.join (descend root_path chain) d = descend root_path (chain ++ [d]).
Proof. unfold descend. now rewrite fold_left_app. Qed.

Lemma walk_visits fuel root_path chain entries s :
  snd (walk fuel root_path (descend root_path chain) entries s)
  = visit_all root_path (visited fuel chain entries) s.
Proof.
  revert chain entries s.
  induction fuel as [|fuel IH]; intros chain entries s; [reflexivity|].
  cbn [walk visited].
  pose proof (visit_files_visits root_path chain (sort_on fst (nondirs entries)) s) as Hf.
  destruct (visit_files root_path (descend root_path chain)
              (sort_on fst (nondirs entries)) s) as [kept s1].
  rewrite visit_all_app. simpl in Hf. rewrite <- Hf. clear Hf.
  generalize (List.filter (fun d => negb (hidden d)) (sort_on fst (dirs entries))).
  intros subdirs. revert s1.
  induction subdirs as [|[d [sub|]] rest IHr]; intros s1.
  - reflexivity.
  - cbn [walk_subdirs flat_map snd fst]. rewrite visit_all_app.
    rewrite descend_snoc.
    pose proof (IH (chain ++ [d]) sub s1) as Hd.
    destruct (walk fuel root_path (descend root_path (chain ++ [d])) sub s1)
      as [sub' s2].
    simpl in Hd. rewrite <- Hd.
    specialize (IHr s2).
    destruct (walk_subdirs (walk fuel root_path) (descend root_path chain) rest s2)
      as [rest' s3].
    exact IHr.
  - cbn [walk_subdirs flat_map snd fst]. specialize (IHr s1).
    destruct (walk_subdirs (walk fuel root_path) (descend root_path chain) rest s1)
      as [rest' s3].
    exact IHr.
Qed.

End WalkVisits.

(** ** Every file in reach is counted *)

Section Reach.
Context `{Runtime}.

Lemma visit_file_total root_path dirpath name f s :
  total_files (stats (snd (visit_file root_path dirpath name f s)))
  = total_files (stats s) + 1.
Proof.
  unfold visit_file.
  repeat match goal with
         | |- context [if ?b then _ else _] => destruct b
         | |- context [match ?x with _ => _ end] => destruct x
         end; reflexivity.
Qed.

Lemma visit_all_total root_path vs s :
  total_files (stats (visit_all root_path vs s))
  = total_files (stats s) + Z.of_nat (length vs).
Proof.
  revert s. induction vs as [|v vs IH]; intros s.
  - simpl. lia.
  - unfold visit_all in *. cbn [fold_left length]. rewrite IH, visit_file_total. lia.
Qed.

Lemma height_entry (e : string * node) (entries : listing) :
  In e entries -> (height (snd e) < height (Dir (Some entries)))%nat.
Proof.
  intros Hin. cbn [height]. apply Nat.lt_succ_r.
  assert (Forall (fun k => (k <= list_max (map (fun e => height (snd e)) entries))%nat)
            (map (fun e => height (snd e)) entries)) as Hall
    by (now apply list_max_le).
  rewrite List.Forall_forall in Hall. apply Hall. now apply (in_map (fun e => height (snd e))).
Qed.

Lemma in_dirs (d : string * option listing) (entries : listing) :
  In d (dirs entries) <-> In (dir_entry d) entries.
Proof.
  unfold dirs. rewrite <- !list_elem_of_In, list_elem_of_omap. split.
  - intros ([name [f|l]] & Hin & Heq); simpl in Heq; [discriminate|].
    injection Heq as <-. exact Hin.
  - intros Hin. exists (dir_entry d). split; [exact Hin|]. now destruct d.
Qed.

Lemma in_nondirs (e : string * file) (entries : listing) :
  In e (nondirs entries) <-> In (file_entry e) entries.
Proof.
  unfold nondirs. rewrite <- !list_elem_of_In, list_elem_of_omap. split.
  - intros ([name [f|l]] & Hin & Heq); simpl in Heq; [|discriminate].
    injection Heq as <-. exact Hin.
  - intros Hin. exists (file_entry e). split; [exact Hin|]. now destruct e.
Qed.


Lemma files_in_reach_split (entries : listing) :
  files_in_reach (Dir (Some entries))
  = (length (nondirs entries) + sum_list_with reach_below (dirs entries))%nat.
Proof.
  cbn [files_in_reach]. unfold nondirs, dirs.
  induction entries as [|[name [f|l]] entries IH]; [reflexivity| |];
    cbn -[files_in_reach]; rewrite IH.
  - reflexivity.
  - unfold reach_below at 2, hidden, Str.startswith. cbn [fst snd].
    destruct (String.prefix "." name); lia.
Qed.

Lemma sum_reach_below_filter (l : list (string * option listing)) :
  sum_list_with reach_below (List.filter (fun d => negb (hidden d)) l)
  = sum_list_with reach_below l.
Proof.
  induction l as [|d l IH]; [reflexivity|]. cbn [List.filter sum_list_with].
  destruct (hidden d) eqn:Hd; cbn [negb sum_list_with]; rewrite IH.
  - replace (reach_below d) with 0%nat by (unfold reach_below; now rewrite Hd).
    reflexivity.
  - reflexivity.
Qed.

Lemma visited_length fuel chain entries :
  (height (Dir (Some entries)) <= fuel)%nat ->
  length (visited fuel chain entries) = files_in_reach (Dir (Some entries)).
Proof.
  revert chain entries.
  induction fuel as [|fuel IH]; intros chain entries Hfuel.
  - cbn [height] in Hfuel. lia.
  - cbn [visited]. rewrite length_app, length_map, sort_on_length.
    rewrite files_in_reach_split. f_equal.
    rewrite <- (sum_list_with_Permutation_proper reach_below _ _
                  (sort_on_Permutation fst (dirs entries))).
    rewrite <- sum_reach_below_filter.
    assert (forall d, In d (List.filter (fun d => negb (hidden d)) (sort_on fst (dirs entries)))
                      -> In d (dirs entries) /\ hidden d = false) as Hsub.
    { intros d Hd. apply filter_In in Hd as [Hd Hh]. split.
      - apply (Permutation_in _ (sort_on_Permutation fst (dirs entries))) in Hd. exact Hd.
      - now destruct (hidden d). }
    revert Hsub.
    generalize (List.filter (fun d => negb (hidden d)) (sort_on fst (dirs entries))).
    intros subdirs Hsub.
    induction subdirs as [|d rest IHr]; [reflexivity|].
    cbn [flat_map sum_list_with]. rewrite length_app, IHr
      by (intros d' Hd'; apply Hsub; now right).
    f_equal. destruct (Hsub d (or_introl eq_refl)) as [Hin Hh].
    unfold reach_below. rewrite Hh.
    destruct d as [name [sub|]]; cbn [snd fst]; [|reflexivity].
    apply IH. apply in_dirs, height_entry in Hin. cbn [dir_entry snd fst] in Hin. lia.
Qed.

End Reach.

(** ** The root and the outcome of the run *)

Section Root.
Context `{Runtime}.

Lemma clean_directory_total root_path entries st :
  total_files (snd (clean_directory root_path (Some (Dir (Some entries))) st))
  = total_files st + Z.of_nat (files_in_reach (Dir (Some entries))).
Proof.
  unfold clean_directory.
  pose proof (walk_visits (height (Dir (Some entries))) root_path [] entries
                {| stats := st; file_data := [] |}) as Hw.
  change (descend root_path []) with root_path in Hw.
  destruct (walk _ root_path root_path entries _) as [entries' s'].
  cbn [snd] in *. rewrite Hw, visit_all_total, visited_length by reflexivity.
  reflexivity.
Qed.

(** C3 on a junk file whose size is read and whose removal raises: the file
    stays on disk, is not counted in [cleaned_files] and is logged in
    [errors], and [cleaned_size] has its 5 bytes all the same. *)
Theorem cleaned_size_keeps_size_of_failed_removal :
  let locked := {| os_stat := Ok {| st_size := 5; st_mtime := 0 |};
                   os_remove_error := Some "[Errno 13] Permission denied";
                   link_target := None |} in
  let root := Some (Dir (Some [(".DS_Store", File locked)])) in
  clean_directory "/data" root FileStats_init
  = (root, [],
     {| total_files := 1; cleaned_files := 0; cleaned_size := 5;
        errors := ["Error processing /data/.DS_Store: [Errno 13] Permission denied"] |}).
Proof. reflexivity. Qed.

End Root.

(** ** Paths and their segments *)

Section PathFacts.

Abbreviation sep := Posixpath.sep.

Lemma split_nonempty (s : string) : Str.split sep s <> [].
Proof.
  destruct s as [|a s]; simpl; [discriminate|].
  destruct (Ascii.eqb a sep); [discriminate|].
  destruct (Str.split sep s); discriminate.
Qed.

Lemma split_cons_sep (s : string) :
  Str.split sep (String sep s) = EmptyString :: Str.split sep s.
Proof. reflexivity. Qed.

Lemma split_cons_other (a : ascii) (s : string) :
  Ascii.eqb a sep = false ->
  exists w ws, Str.split sep s = w :: ws /\
               Str.split sep (String a s) = String a w :: ws.
Proof.
  intros Ha. cbn [Str.split]. rewrite Ha.
  destruct (Str.split sep s) as [|w ws] eqn:Hs; [now apply split_nonempty in Hs|].
  eauto.
Qed.

(** The parts that [split] gives hold no separator. *)
Lemma split_no_sep (s : string) : Forall (fun w => no_sep w = true) (Str.split sep s).
Proof.
  induction s as [|a s IH]; [repeat constructor|].
  destruct (Ascii.eqb a sep) eqn:Ha.
  - apply Ascii.eqb_eq in Ha as ->. rewrite split_cons_sep. constructor; [reflexivity | exact IH].
  - destruct (split_cons_other a s Ha) as (w & ws & Hs & ->).
    rewrite Hs in IH. inversion IH as [|? ? Hw Hws]; subst.
    constructor; [|exact Hws]. cbn [no_sep]. now rewrite Ha, Hw.
Qed.

Lemma split_app_sep (s t : string) :
  Str.split sep (s +:+ String sep t) = Str.split sep s ++ Str.split sep t.
Proof.
  induction s as [|a s IH]; [reflexivity|].
  rewrite str_app_cons. destruct (Ascii.eqb a sep) eqn:Ha.
  - apply Ascii.eqb_eq in Ha as ->. rewrite !split_cons_sep, IH. reflexivity.
  - destruct (split_cons_other a s Ha) as (w & ws & Hs & ->).
    destruct (split_cons_other a (s +:+ String sep t) Ha) as (w' & ws' & Hs' & ->).
    rewrite IH, Hs in Hs'. injection Hs' as <- <-. reflexivity.
Qed.

Lemma split_one (s : string) : no_sep s = true -> Str.split sep s = [s].
Proof.
  induction s as [|a s IH]; [reflexivity|].
  cbn [no_sep]. intros [Ha Hs]%andb_true_iff. apply negb_true_iff in Ha.
  destruct (split_cons_other a s Ha) as (w & ws & Hw & ->).
  rewrite IH in Hw by exact Hs. now injection Hw as <- <-.
Qed.

Lemma path_of_cons (w : string) (ws : list string) :
  ws <> [] -> path_of (w :: ws) = w +:+ String sep (path_of ws).
Proof. destruct ws; [congruence | reflexivity]. Qed.

Lemma path_of_snoc (ws : list string) (w : string) :
  ws <> [] -> path_of (ws ++ [w]) = path_of ws +:+ String sep w.
Proof.
  induction ws as [|v ws IH]; [congruence|]. intros _.
  destruct ws as [|v' ws]; [reflexivity|].
  change ((v :: v' :: ws) ++ [w]) with (v :: ((v' :: ws) ++ [w])).
  rewrite path_of_cons by (simpl; discriminate).
  rewrite IH by discriminate.
  rewrite (path_of_cons v (v' :: ws)) by discriminate.
  now rewrite str_app_assoc, str_app_cons.
Qed.

(** Splitting a path made of parts that hold no separator gives the parts
    back. *)
Lemma split_path_of (ws : list string) :
  ws <> [] -> Forall (fun w => no_sep w = true) ws -> Str.split sep (path_of ws) = ws.
Proof.
  induction ws as [|w ws IH]; [congruence|]. intros _ Hall.
  inversion Hall as [|? ? Hw Hws]; subst.
  destruct ws as [|v ws]; [now apply split_one|].
  rewrite path_of_cons by discriminate.
  rewrite split_app_sep, IH by (assumption || discriminate).
  now rewrite split_one.
Qed.

Lemma segment_no_sep (w : string) : segment w = true -> no_sep w = true.
Proof. unfold segment. now intros [_ ?]%andb_true_iff. Qed.

Lemma segment_nonempty (w : string) : segment w = true -> w <> EmptyString.
Proof. unfold segment. intros [Hne _]%andb_true_iff ->. discriminate. Qed.

Lemma segments_no_sep (ws : list string) :
  Forall (fun w => segment w = true) ws -> Forall (fun w => no_sep w = true) ws.
Proof. intros Hall. eapply Forall_impl; [exact Hall | apply segment_no_sep]. Qed.

Lemma path_of_empty (ws : list string) :
  Forall (fun w => segment w = true) ws -> path_of ws = EmptyString -> ws = [].
Proof.
  intros Hall Hp. destruct ws as [|w ws]; [reflexivity|].
  inversion Hall as [|? ? Hw _]; subst. apply segment_nonempty in Hw.
  destruct ws; [contradiction|].
  rewrite path_of_cons in Hp by discriminate.
  destruct w; [contradiction | discriminate].
Qed.

(** Paths of segments are equal only when their segments are. *)
Lemma path_of_inj (ws1 ws2 : list string) :
  Forall (fun w => segment w = true) ws1 ->
  Forall (fun w => segment w = true) ws2 ->
  path_of ws1 = path_of ws2 -> ws1 = ws2.
Proof.
  intros H1 H2 Heq.
  destruct ws1 as [|w1 ws1].
  - symmetry. apply path_of_empty; [exact H2 | now rewrite <- Heq].
  - destruct ws2 as [|w2 ws2].
    + apply path_of_empty; [exact H1 | exact Heq].
    + rewrite <- (split_path_of (w1 :: ws1)), <- (split_path_of (w2 :: ws2))
        by (discriminate || now apply segments_no_sep).
      now rewrite Heq.
Qed.

Lemma rpartition_no_sep (t : string) :
  no_sep t = true -> Str.rpartition sep t = (EmptyString, t).
Proof.
  induction t as [|a t IH]; [reflexivity|].
  cbn [no_sep Str.rpartition]. intros [Ha Ht]%andb_true_iff.
  apply negb_true_iff in Ha. rewrite IH, Ha by exact Ht. reflexivity.
Qed.

Lemma rpartition_app_sep (s t : string) :
  no_sep t = true ->
  Str.rpartition sep (s +:+ String sep t) = (s +:+ String sep EmptyString, t).
Proof.
  intros Ht. induction s as [|a s IH].
  - rewrite !str_app_empty_l. cbn [Str.rpartition]. rewrite rpartition_no_sep by exact Ht.
    reflexivity.
  - rewrite !str_app_cons. cbn [Str.rpartition]. rewrite IH.
    destruct (Ascii.eqb a sep); [reflexivity|]. now destruct s.
Qed.

Lemma startswith_sep_no_sep (t : string) :
  no_sep t = true -> Str.startswith t "/" = false.
Proof.
  destruct t as [|a t]; [reflexivity|].
  cbn [no_sep]. intros [Ha _]%andb_true_iff. apply negb_true_iff, Ascii.eqb_neq in Ha.
  unfold Str.startswith. cbn [String.prefix].
  destruct (ascii_dec "/" a) as [<-|]; [now contradiction Ha | reflexivity].
Qed.

Lemma endswith_sep_app (s t : string) :
  t <> EmptyString -> Str.endswith (s +:+ t) "/" = Str.endswith t "/".
Proof.
  intros Ht. induction s as [|a s IH]; [reflexivity|].
  rewrite str_app_cons. cbn [Str.endswith]. rewrite IH.
  replace (String.eqb (String a (s +:+ t)) "/") with false; [reflexivity|].
  symmetry. apply String.eqb_neq. intros Heq. injection Heq as _ Heq.
  destruct s; [now rewrite str_app_empty_l in Heq | discriminate].
Qed.

Lemma endswith_sep_no_sep (t : string) :
  no_sep t = true -> Str.endswith t "/" = false.
Proof.
  induction t as [|a t IH]; [reflexivity|].
  cbn [no_sep Str.endswith]. intros [Ha Ht]%andb_true_iff. rewrite IH by exact Ht.
  apply negb_true_iff, Ascii.eqb_neq in Ha. rewrite orb_false_r.
  apply String.eqb_neq. intros Heq. injection Heq as -> _. now apply Ha.
Qed.

Lemma endswith_sep_snoc (s : string) :
  Str.endswith (s +:+ String sep EmptyString) "/" = true.
Proof.
  induction s as [|a s IH]; [reflexivity|].
  rewrite str_app_cons. cbn [Str.endswith]. rewrite IH. apply orb_true_r.
Qed.

Lemma rstrip_id (s : string) :
  Str.endswith s "/" = false -> Str.rstrip sep s = s.
Proof.
  induction s as [|a s IH]; [reflexivity|].
  cbn [Str.endswith Str.rstrip]. intros [Heq Hs]%orb_false_iff.
  rewrite IH by exact Hs. destruct s as [|b s]; [|reflexivity].
  destruct (Ascii.eqb a sep) eqn:Ha; [|reflexivity].
  apply Ascii.eqb_eq in Ha as ->. discriminate.
Qed.

Lemma rstrip_snoc_sep (s : string) :
  Str.rstrip sep (s +:+ String sep EmptyString) = Str.rstrip sep s.
Proof.
  induction s as [|a s IH]; [reflexivity|].
  rewrite str_app_cons. cbn [Str.rstrip]. now rewrite IH.
Qed.

(** A path of segments starts with a character that is not the separator
    and does not end with the separator. *)
Lemma path_of_head (ws : list string) :
  ws <> [] -> Forall (fun w => segment w = true) ws ->
  exists a s, path_of ws = String a s /\ Ascii.eqb a sep = false.
Proof.
  intros Hne Hall. destruct ws as [|w ws]; [congruence|].
  inversion Hall as [|? ? Hw _]; subst.
  unfold segment in Hw. apply andb_true_iff in Hw as [Hw1 Hw2].
  destruct w as [|a w]; [discriminate|].
  cbn [no_sep] in Hw2. apply andb_true_iff in Hw2 as [Ha _]. apply negb_true_iff in Ha.
  destruct ws; [now eauto|]. rewrite path_of_cons by discriminate.
  rewrite str_app_cons. eauto.
Qed.

Lemma path_of_not_endswith_sep (ws : list string) :
  Forall (fun w => segment w = true) ws -> Str.endswith (path_of ws) "/" = false.
Proof.
  induction ws as [|w ws IH] using rev_ind; [reflexivity|].
  intros Hall. apply Forall_app in Hall as [Hws Hw].
  inversion Hw as [|? ? Hseg _]; subst.
  destruct ws as [|v ws]; [apply endswith_sep_no_sep, segment_no_sep, Hseg|].
  rewrite path_of_snoc by discriminate.
  change (String sep w) with (String sep EmptyString +:+ w). rewrite <- str_app_assoc.
  rewrite endswith_sep_app by (now apply segment_nonempty).
  apply endswith_sep_no_sep, segment_no_sep, Hseg.
Qed.

(** [os.path.join] on a path of segments and one more part. *)
Lemma join_path_of (ws : list string) (w : string) :
  Forall (fun w => segment w = true) ws -> no_sep w = true ->
  Posixpath.join (path_of ws) w = path_of (ws ++ [w]).
Proof.
  intros Hall Hw. unfold Posixpath.join.
  rewrite startswith_sep_no_sep by exact Hw.
  rewrite path_of_not_endswith_sep, orb_false_r by exact Hall.
  destruct ws as [|v ws]; [reflexivity|].
  destruct (path_of_head (v :: ws)) as (a & s & Hp & _); [discriminate | exact Hall |].
  rewrite path_of_snoc by discriminate. rewrite Hp. reflexivity.
Qed.

(** [os.path.basename] and [os.path.dirname] of a path of segments. *)
Lemma basename_path_of (ws : list string) (w : string) :
  no_sep w = true -> Posixpath.basename (path_of (ws ++ [w])) = w.
Proof.
  intros Hw. unfold Posixpath.basename.
  destruct ws as [|v ws]; [now rewrite rpartition_no_sep|].
  rewrite path_of_snoc by discriminate. now rewrite rpartition_app_sep.
Qed.

Lemma dirname_path_of (ws : list string) (w : string) :
  Forall (fun w => segment w = true) ws -> no_sep w = true ->
  Posixpath.dirname (path_of (ws ++ [w])) = path_of ws.
Proof.
  intros Hall Hw. unfold Posixpath.dirname.
  destruct ws as [|v ws]; [now rewrite rpartition_no_sep|].
  rewrite path_of_snoc by discriminate. rewrite rpartition_app_sep by exact Hw.
  cbn [fst].
  destruct (path_of_head (v :: ws)) as (a & s & Hp & Ha); [discriminate | exact Hall |].
  rewrite Hp at 1 2. rewrite str_app_cons. cbn [Str.is_empty Str.all_char negb andb].
  rewrite Ha. cbn [negb andb].
  rewrite rstrip_snoc_sep. apply rstrip_id, path_of_not_endswith_sep, Hall.
Qed.

End PathFacts.

(** ** The directory structure *)

Section Hierarchy.

Abbreviation sep := Posixpath.sep.


Lemma segments_snoc_inv (ws : list string) (w : string) :
  segments (ws ++ [w]) -> segments ws /\ segment w = true.
Proof.
  intros Hall. apply Forall_app in Hall as [Hws Hw].
  inversion Hw; subst. auto.
Qed.

Lemma segments_snoc (ws : list string) (w : string) :
  segments ws -> segment w = true -> segments (ws ++ [w]).
Proof.
  intros Hws Hw. apply Forall_app. split; [exact Hws|].
  constructor; [exact Hw | constructor].
Qed.

Lemma no_sep_segment (w : string) :
  no_sep w = true -> w <> EmptyString -> segment w = true.
Proof. intros Hw Hne. unfold segment. rewrite Hw. now destruct w. Qed.

(** One turn of the inner loop: wherever the loop stands, the new current
    path is a path of segments followed by the part, and the directory added
    is that path of segments. *)
Lemma add_level_clean (ne : list string) (w p : string) (D : gset string) :
  segments ne -> no_sep w = true -> no_sep p = true ->
  exists ne', segments ne' /\
    add_level (path_of (ne ++ [w]), D) p
    = (path_of (ne' ++ [p]), D ∪ {[ path_of ne' ]}).
Proof.
  intros Hne Hw Hp. unfold add_level.
  destruct (Str.is_empty (path_of (ne ++ [w]))) eqn:Hcur; cbn [negb].
  - exists []. split; [constructor|].
    assert (Posixpath.dirname p = EmptyString) as ->
      by (apply (dirname_path_of [] p); [constructor | exact Hp]).
    reflexivity.
  - destruct w as [|a w].
    + destruct ne as [|v ne]; [discriminate|].
      exists (v :: ne). split; [exact Hne|].
      rewrite (path_of_snoc (v :: ne) EmptyString) by discriminate.
      unfold Posixpath.join. rewrite startswith_sep_no_sep by exact Hp.
      rewrite endswith_sep_snoc, orb_true_r.
      rewrite str_app_assoc, str_app_cons, str_app_empty_l.
      rewrite <- path_of_snoc by discriminate.
      now rewrite dirname_path_of.
    + assert (segments (ne ++ [String a w])) as Hall.
      { apply Forall_app. split; [exact Hne|]. constructor; [|constructor].
        now apply no_sep_segment. }
      exists (ne ++ [String a w]). split; [exact Hall|].
      rewrite join_path_of by assumption. now rewrite dirname_path_of.
Qed.

Lemma add_level_fold_clean (parts : list string) (ne : list string) (w : string)
    (D : gset string) :
  Forall (fun p => no_sep p = true) parts -> segments ne -> no_sep w = true ->
  (forall d, d ∈ D -> clean_path d) ->
  forall d, d ∈ snd (fold_left add_level parts (path_of (ne ++ [w]), D)) -> clean_path d.
Proof.
  revert ne w D. induction parts as [|p parts IH]; intros ne w D Hparts Hne Hw HD.
  - exact HD.
  - inversion Hparts as [|? ? Hp Hrest]; subst. cbn [fold_left].
    destruct (add_level_clean ne w p D Hne Hw Hp) as (ne' & Hne' & ->).
    apply IH; try assumption.
    intros d [Hd | ->%elem_of_singleton]%elem_of_union; [now apply HD|].
    now exists ne'.
Qed.

Lemma add_levels_clean (D : gset string) (fi : file_info) :
  (forall d, d ∈ D -> clean_path d) ->
  forall d, d ∈ add_levels D fi -> clean_path d.
Proof.
  intros HD. unfold add_levels.
  apply (add_level_fold_clean _ [] EmptyString); try (constructor || assumption).
  apply split_no_sep.
Qed.

Lemma directories_clean (file_data : list file_info) (D : gset string) :
  (forall d, d ∈ D -> clean_path d) ->
  forall d, d ∈ fold_left add_levels file_data D -> clean_path d.
Proof.
  revert D. induction file_data as [|fi file_data IH]; intros D HD; [exact HD|].
  cbn [fold_left]. apply IH. now apply add_levels_clean.
Qed.

(** The records are those of the directories collected, the empty path left
    out. *)
Lemma in_get_directory_structure (file_data : list file_info) (r : dir_info) :
  In r (get_directory_structure file_data) <->
  exists p, r = make_dir_info p /\ p <> EmptyString /\
            p ∈ fold_left add_levels file_data (∅ : gset string).
Proof.
  unfold get_directory_structure. rewrite in_map_iff. split.
  - intros (p & <- & Hin). exists p. split; [reflexivity|].
    apply (Permutation_in _ (sort_on_Permutation id _)) in Hin.
    apply list_elem_of_In, elem_of_elements, elem_of_difference in Hin as [Hin Hne].
    split; [|exact Hin]. intros ->. apply Hne. now apply elem_of_singleton.
  - intros (p & -> & Hne & Hin). exists p. split; [reflexivity|].
    apply (Permutation_in _ (Permutation_sym (sort_on_Permutation id _))).
    apply list_elem_of_In, elem_of_elements, elem_of_difference. split; [exact Hin|].
    intros ->%elem_of_singleton. now apply Hne.
Qed.

(** The path of every record is a path of at least one segment. *)
Lemma record_path_segments (file_data : list file_info) (r : dir_info) :
  In r (get_directory_structure file_data) ->
  exists ws w, segments ws /\ segment w = true /\
               r = make_dir_info (path_of (ws ++ [w])).
Proof.
  intros (p & -> & Hne & Hin)%in_get_directory_structure.
  apply directories_clean in Hin as (ws & Hws & ->); [|intros d Hd; now apply elem_of_empty in Hd].
  destruct ws as [|w ws _] using rev_ind; [now contradiction Hne|].
  apply segments_snoc_inv in Hws as [Hws Hw]. eauto.
Qed.

Lemma path_of_snoc_nonempty (ws : list string) (w : string) :
  segments ws -> segment w = true -> Str.is_empty (path_of (ws ++ [w])) = false.
Proof.
  intros Hws Hw.
  destruct (path_of_head (ws ++ [w])) as (a & s & -> & _); [now destruct ws | | reflexivity].
  apply Forall_app. split; [exact Hws | now repeat constructor].
Qed.

End Hierarchy.

Section HierarchyRecords.

(** C8: the depth of a record is the number of segments of its path, none
    of them empty, and [os.path.join] of its parent and its name gives its
    path back; at depth 1 the parent is empty and the path is the name,
    deeper the path is the parent, a separator and the name. *)
Theorem directory_record_depth_and_parent (file_data : list file_info) (r : dir_info) :
  In r (get_directory_structure file_data) ->
  depth r = Z.of_nat (length (Str.split Posixpath.sep (directory_path r))) /\
  Forall (fun w => segment w = true) (Str.split Posixpath.sep (directory_path r)) /\
  Posixpath.join (parent_directory r) (directory_name r) = directory_path r /\
  (depth r = 1 -> parent_directory r = EmptyString) /\
  directory_path r
  = (if Z.eqb (depth r) 1 then directory_name r
     else parent_directory r +:+ String Posixpath.sep (directory_name r)).
Proof.
  intros (ws & w & Hws & Hw & ->)%record_path_segments.
  assert (Forall (fun w => segment w = true) (ws ++ [w])) as Hall
    by (apply Forall_app; split; [exact Hws | now repeat constructor]).
  pose proof (segment_no_sep w Hw) as Hw'.
  unfold make_dir_info. rewrite path_of_snoc_nonempty by assumption.
  cbn [negb directory_path depth parent_directory directory_name].
  rewrite split_path_of by first [ now destruct ws | now apply segments_no_sep ].
  rewrite dirname_path_of, basename_path_of by assumption.
  split; [reflexivity|]. split; [exact Hall|].
  split; [now apply join_path_of|].
  rewrite length_app. cbn [length].
  destruct ws as [|v ws].
  - split; reflexivity.
  - split.
    + cbn [length]. lia.
    + replace (Z.of_nat (length (v :: ws) + 1) =? 1) with false
        by (symmetry; apply Z.eqb_neq; cbn [length]; lia).
      now apply path_of_snoc.
Qed.

(** C10: no record is the one of the root: the path of a record is not
    empty, its depth is at least 1 and its name is not empty, so that the
    record is the one the branches for a path that is not empty build. *)
Theorem directory_record_never_root (file_data : list file_info) (r : dir_info) :
  In r (get_directory_structure file_data) ->
  directory_path r <> EmptyString /\
  1 <= depth r /\
  directory_name r <> EmptyString /\
  r = make_dir_info_nonempty (directory_path r).
Proof.
  intros (ws & w & Hws & Hw & ->)%record_path_segments.
  pose proof (segment_no_sep w Hw) as Hw'.
  pose proof (path_of_snoc_nonempty ws w Hws Hw) as Hne.
  unfold make_dir_info, make_dir_info_nonempty. rewrite Hne.
  cbn [negb directory_path depth parent_directory directory_name].
  split; [intros Heq; now rewrite Heq in Hne|].
  split.
  - pose proof (split_nonempty (path_of (ws ++ [w]))) as Hs.
    destruct (Str.split Posixpath.sep (path_of (ws ++ [w]))); [congruence|].
    cbn [length]. lia.
  - split; [|reflexivity].
    rewrite basename_path_of by exact Hw'. now apply segment_nonempty.
Qed.

End HierarchyRecords.

(** C8 at the record of [a/b]. *)
Lemma directory_record_depth_and_parent_witness :
  let r := {| directory_path := "a/b"; depth := 2;
              parent_directory := "a"; directory_name := "b" |} in
  In r (get_directory_structure [example_record "a/b/report.txt"]) /\
  Posixpath.join (parent_directory r) (directory_name r) = directory_path r.
Proof.
  assert (In {| directory_path := "a/b"; depth := 2;
                parent_directory := "a"; directory_name := "b" |}
            (get_directory_structure [example_record "a/b/report.txt"])) as Hin
    by (vm_compute; right; left; reflexivity).
  split; [exact Hin|].
  destruct (directory_record_depth_and_parent _ _ Hin) as (_ & _ & Hjoin & _).
  exact Hjoin.
Defined.

(** C10 at the record of [a]. *)
Lemma directory_record_never_root_witness :
  let r := {| directory_path := "a"; depth := 1;
              parent_directory := ""; directory_name := "a" |} in
  In r (get_directory_structure [example_record "a/b/report.txt"]) /\
  directory_path r <> EmptyString /\ 1 <= depth r /\ directory_name r <> EmptyString.
Proof.
  assert (In {| directory_path := "a"; depth := 1;
                parent_directory := ""; directory_name := "a" |}
            (get_directory_structure [example_record "a/b/report.txt"])) as Hin
    by (vm_compute; left; reflexivity).
  split; [exact Hin|].
  destruct (directory_record_never_root _ _ Hin) as (H1 & H2 & H3 & _).
  auto.
Defined.

(** ** The directories of normalized paths *)

Section Prefixes.

Lemma normalized_segments (p : string) :
  normalized p = true -> segments (Str.split Posixpath.sep p).
Proof.
  unfold normalized. rewrite forallb_forall. intros Hne.
  pose proof (split_no_sep p) as Hns. rewrite List.Forall_forall in *.
  intros w Hw. unfold segment. now rewrite Hne, Hns.
Qed.

(** One turn of the inner loop when every part so far is a segment. *)
Lemma add_level_segments (pre : list string) (p : string) (D : gset string) :
  segments pre -> segment p = true ->
  add_level (path_of pre, D) p = (path_of (pre ++ [p]), D ∪ {[ path_of pre ]}).
Proof.
  intros Hpre Hp. pose proof (segment_no_sep p Hp) as Hp'.
  unfold add_level. destruct pre as [|v pre].
  - cbn [Str.join Str.is_empty negb].
    assert (Posixpath.dirname p = EmptyString) as ->
      by (apply (dirname_path_of [] p); [constructor | exact Hp']).
    reflexivity.
  - destruct (path_of_head (v :: pre)) as (a & s & Hhead & _);
      [discriminate | exact Hpre |].
    assert (Str.is_empty (path_of (v :: pre)) = false) as -> by now rewrite Hhead.
    cbn [negb]. rewrite join_path_of by assumption. now rewrite dirname_path_of.
Qed.

Lemma add_level_fold_segments (parts pre : list string) (D : gset string) (d : string) :
  segments pre -> segments parts ->
  d ∈ snd (fold_left add_level parts (path_of pre, D)) <->
  d ∈ D \/ exists j, (j < length parts)%nat /\ d = path_of (pre ++ take j parts).
Proof.
  revert pre D. induction parts as [|p parts IH]; intros pre D Hpre Hparts.
  - cbn [fold_left snd length]. split; [now left | intros [Hd | (j & Hj & _)]; [exact Hd | lia]].
  - inversion Hparts as [|? ? Hp Hrest]; subst. cbn [fold_left].
    rewrite add_level_segments by assumption.
    rewrite IH by first [ assumption | now apply segments_snoc ].
    rewrite elem_of_union, elem_of_singleton. split.
    + intros [[Hd | ->] | (j & Hj & ->)].
      * now left.
      * right. exists 0%nat. cbn [length take]. rewrite app_nil_r. split; [lia | reflexivity].
      * right. exists (S j). cbn [length take]. rewrite <- app_assoc. split; [lia | reflexivity].
    + intros [Hd | (j & Hj & ->)]; [now left; left|].
      destruct j as [|j].
      * left; right. cbn [take]. now rewrite app_nil_r.
      * right. exists j. cbn [length take] in *. rewrite <- app_assoc. split; [lia | reflexivity].
Qed.

Lemma directories_of_normalized (file_data : list file_info) (D : gset string) (d : string) :
  Forall (fun fi => normalized (relative_path fi) = true) file_data ->
  d ∈ fold_left add_levels file_data D <->
  d ∈ D \/ exists fi j, In fi file_data /\
                        (j < length (Str.split Posixpath.sep (relative_path fi)))%nat /\
                        d = path_of (take j (Str.split Posixpath.sep (relative_path fi))).
Proof.
  revert D. induction file_data as [|fi file_data IH]; intros D Hall.
  - cbn [fold_left]. split; [now left | intros [Hd | (fi & j & [] & _)]; exact Hd].
  - inversion Hall as [|? ? Hfi Hrest]; subst. cbn [fold_left].
    rewrite IH by exact Hrest. unfold add_levels at 1.
    rewrite (add_level_fold_segments _ [])
      by first [ now apply normalized_segments | constructor ].
    cbn [app]. split.
    + intros [[Hd | (j & Hj & ->)] | (fi' & j & Hin & Hj & ->)].
      * now left.
      * right. exists fi, j. split; [now left | auto].
      * right. exists fi', j. split; [now right | auto].
    + intros [Hd | (fi' & j & [<- | Hin] & Hj & ->)].
      * now left; left.
      * left; right. eauto.
      * right. eauto.
Qed.

Lemma in_proper_prefixes (rel_path d : string) :
  In d (proper_prefixes rel_path) <->
  exists k, (1 <= k < length (Str.split Posixpath.sep rel_path))%nat /\
            d = path_of (take k (Str.split Posixpath.sep rel_path)).
Proof.
  unfold proper_prefixes. rewrite in_map_iff. split.
  - intros (k & <- & Hk%in_seq). exists k. split; [lia | reflexivity].
  - intros (k & Hk & ->). exists k. split; [reflexivity | apply in_seq; lia].
Qed.

Lemma directory_paths (file_data : list file_info) :
  map directory_path (get_directory_structure file_data)
  = sort_on id (elements (fold_left add_levels file_data (∅ : gset string)
                          ∖ {[ EmptyString ]})).
Proof.
  unfold get_directory_structure. rewrite map_map. apply map_id.
Qed.

(** C4: on records whose relative paths are normalized, the paths of the
    directory records are, each once, the proper path-segment prefixes of
    the relative paths of the records; a directory that is a prefix of no
    record is not among them. *)
Theorem directory_paths_are_proper_prefixes (file_data : list file_info) :
  Forall (fun fi => normalized (relative_path fi) = true) file_data ->
  let paths := map directory_path (get_directory_structure file_data) in
  NoDup paths /\
  forall d, In d paths <->
            exists fi, In fi file_data /\ In d (proper_prefixes (relative_path fi)).
Proof.
  intros Hall paths. subst paths. rewrite directory_paths. split.
  - rewrite sort_on_Permutation. apply NoDup_elements.
  - intros d. rewrite <- list_elem_of_In, sort_on_Permutation.
    rewrite elem_of_elements, elem_of_difference, elem_of_singleton.
    rewrite directories_of_normalized by exact Hall. split.
    + intros [[Hd | (fi & j & Hin & Hj & ->)] Hne]; [now apply elem_of_empty in Hd|].
      exists fi. split; [exact Hin|]. apply in_proper_prefixes. exists j.
      split; [|reflexivity]. destruct j; [now contradiction Hne | lia].
    + intros (fi & Hin & (k & Hk & ->)%in_proper_prefixes). split.
      * right. exists fi, k. split; [exact Hin|]. split; [lia | reflexivity].
      * intros Hempty. apply path_of_empty in Hempty.
        -- apply (f_equal length) in Hempty. rewrite length_take in Hempty.
           cbn [length] in Hempty. lia.
        -- apply Forall_take, normalized_segments.
           rewrite List.Forall_forall in Hall. now apply Hall.
Qed.

End Prefixes.

(** C4 at two records below [a]. *)
Lemma directory_paths_are_proper_prefixes_witness :
  let file_data := [example_record "a/b/report.txt"; example_record "a/notes.txt"] in
  Forall (fun fi => normalized (relative_path fi) = true) file_data /\
  NoDup (map directory_path (get_directory_structure file_data)).
Proof.
  assert (Forall (fun fi => normalized (relative_path fi) = true)
            [example_record "a/b/report.txt"; example_record "a/notes.txt"]) as Hall
    by (repeat constructor).
  split; [exact Hall|].
  destruct (directory_paths_are_proper_prefixes _ Hall) as [Hnodup _].
  exact Hnodup.
Defined.

(** ** [os.path.relpath] below the root *)

Section Relpath.

Abbreviation sep := Posixpath.sep.

Lemma wf_name_segment (n : string) : wf_name n = true -> segment n = true.
Proof. unfold wf_name. now intros [[? _]%andb_true_iff _]%andb_true_iff. Qed.

Lemma wf_names_segments (ns : list string) :
  Forall (fun n => wf_name n = true) ns -> segments ns.
Proof. intros Hall. eapply Forall_impl; [exact Hall | apply wf_name_segment]. Qed.

Lemma startswith_sep_cons (a : ascii) (s : string) :
  Str.startswith (String a s) "/" = Ascii.eqb a sep.
Proof.
  unfold Str.startswith. cbn [String.prefix].
  destruct (ascii_dec "/" a) as [<-|Hne].
  - now destruct s.
  - symmetry. apply Ascii.eqb_neq. intros ->. now apply Hne.
Qed.

Lemma isabs_app (a b : string) :
  a <> EmptyString -> Posixpath.isabs (a +:+ b) = Posixpath.isabs a.
Proof.
  destruct a as [|c a]; [congruence|]. intros _. unfold Posixpath.isabs.
  now rewrite str_app_cons, !startswith_sep_cons.
Qed.

Lemma endswith_sep_inv (q : string) :
  Str.endswith q "/" = true -> exists q0, q = q0 +:+ String sep EmptyString.
Proof.
  induction q as [|a q IH]; [discriminate|].
  cbn [Str.endswith]. intros [Heq | Hq]%orb_true_iff.
  - apply String.eqb_eq in Heq. exists EmptyString. exact Heq.
  - destruct (IH Hq) as [q0 ->]. now exists (String a q0).
Qed.

(** [os.path.join] with a second part that holds no separator. *)
Lemma join_no_sep (a b : string) :
  no_sep b = true ->
  Posixpath.join a b
  = if Str.is_empty a || Str.endswith a "/" then a +:+ b else a +:+ String sep b.
Proof. intros Hb. unfold Posixpath.join. now rewrite startswith_sep_no_sep. Qed.

Lemma str_app_nonempty_r (a b : string) : b <> EmptyString -> a +:+ b <> EmptyString.
Proof. destruct a; [now rewrite str_app_empty_l | discriminate]. Qed.

Lemma join_nonempty (a b : string) :
  no_sep b = true -> b <> EmptyString -> Posixpath.join a b <> EmptyString.
Proof.
  intros Hb Hne. rewrite join_no_sep by exact Hb.
  destruct (Str.is_empty a || Str.endswith a "/").
  - now apply str_app_nonempty_r.
  - apply str_app_nonempty_r. discriminate.
Qed.

Lemma is_empty_app_r (a b : string) :
  b <> EmptyString -> Str.is_empty (a +:+ b) = false.
Proof.
  intros Hb. destruct (a +:+ b) eqn:Hab; [|reflexivity].
  now apply str_app_nonempty_r in Hab.
Qed.

(** [os.path.join] of three parts, the last two relative. *)
Lemma join_join (a b n : string) :
  b <> EmptyString -> Posixpath.isabs b = false -> no_sep n = true ->
  Posixpath.join a (Posixpath.join b n) = Posixpath.join (Posixpath.join a b) n.
Proof.
  intros Hb Habs Hn.
  set (t := if Str.endswith b "/" then n else String sep n).
  assert (Posixpath.join b n = b +:+ t) as Hbn.
  { rewrite join_no_sep by exact Hn. subst t.
    destruct b; [congruence|]. cbn [Str.is_empty orb].
    now destruct (Str.endswith _ "/"). }
  set (pre := if Str.is_empty a || Str.endswith a "/" then a
              else a +:+ String sep EmptyString).
  assert (forall u, Posixpath.join a (b +:+ u) = pre +:+ b +:+ u) as Hab.
  { intros u. unfold Posixpath.join. fold (Posixpath.isabs (b +:+ u)).
    rewrite isabs_app, Habs by exact Hb. subst pre.
    destruct (Str.is_empty a || Str.endswith a "/"); [reflexivity|].
    now rewrite str_app_assoc. }
  rewrite Hbn, Hab. pose proof (Hab EmptyString) as Hab0.
  rewrite str_app_empty_r in Hab0. rewrite Hab0.
  rewrite join_no_sep by exact Hn.
  rewrite is_empty_app_r, endswith_sep_app by exact Hb. cbn [orb].
  subst t. destruct (Str.endswith b "/"); now rewrite str_app_assoc.
Qed.

Section Cwd.
Variable cwd : string.
Hypothesis cwd_abs : Posixpath.isabs cwd = true.

Lemma cwd_nonempty : cwd <> EmptyString.
Proof. intros Hc. rewrite Hc in cwd_abs. discriminate. Qed.

Lemma abs_arg_isabs (p : string) : Posixpath.isabs (abs_arg cwd p) = true.
Proof.
  unfold abs_arg. destruct (Posixpath.isabs p) eqn:Hp; [exact Hp|].
  unfold Posixpath.join. fold (Posixpath.isabs p). rewrite Hp.
  destruct (Str.is_empty cwd || Str.endswith cwd "/");
    now rewrite isabs_app by apply cwd_nonempty.
Qed.

(** Going down by one name appends the name to what [normpath] is given,
    after a separator when there is none yet. *)
Lemma abs_arg_join (p n : string) :
  no_sep n = true -> n <> EmptyString ->
  (exists q0, abs_arg cwd p = q0 +:+ String sep EmptyString /\
              abs_arg cwd (Posixpath.join p n) = q0 +:+ String sep n) \/
  (Str.endswith (abs_arg cwd p) "/" = false /\
   abs_arg cwd (Posixpath.join p n) = abs_arg cwd p +:+ String sep n).
Proof.
  intros Hn Hne.
  assert (forall q, Str.endswith q "/" = true ->
            exists q0, q = q0 +:+ String sep EmptyString /\ q +:+ n = q0 +:+ String sep n)
    as Hends.
  { intros q [q0 ->]%endswith_sep_inv. exists q0. split; [reflexivity|].
    now rewrite str_app_assoc. }
  assert (Posixpath.isabs n = false) as Hnabs
    by (now apply startswith_sep_no_sep).
  destruct p as [|c p].
  - (* the root path is empty *)
    left. unfold abs_arg. rewrite (join_no_sep EmptyString n) by exact Hn.
    cbn [Str.is_empty orb]. rewrite str_app_empty_l, Hnabs.
    change (Posixpath.isabs "") with false. cbn iota.
    rewrite (join_no_sep cwd n) by exact Hn.
    rewrite (join_no_sep cwd EmptyString) by reflexivity.
    destruct cwd as [|c' cwd'] eqn:Hcwd; [discriminate|]. cbn [Str.is_empty orb].
    destruct (Str.endswith (String c' cwd') "/") eqn:He.
    + rewrite str_app_empty_r. now apply Hends.
    + exists (String c' cwd'). split; reflexivity.
  - assert (Posixpath.isabs (Posixpath.join (String c p) n) = Posixpath.isabs (String c p))
      as Habs.
    { rewrite join_no_sep by exact Hn.
      destruct (Str.is_empty (String c p) || Str.endswith (String c p) "/");
        now rewrite isabs_app by discriminate. }
    unfold abs_arg. rewrite Habs.
    destruct (Posixpath.isabs (String c p)) eqn:Hp.
    + rewrite join_no_sep by exact Hn. cbn [Str.is_empty orb].
      destruct (Str.endswith (String c p) "/") eqn:He.
      * left. now apply Hends.
      * right. split; reflexivity.
    + rewrite join_join by (discriminate || assumption).
      rewrite (join_no_sep (Posixpath.join cwd (String c p)) n) by exact Hn.
      assert (Str.is_empty (Posixpath.join cwd (String c p)) = false) as ->.
      { pose proof (abs_arg_isabs (String c p)) as Hq. unfold abs_arg in Hq.
        rewrite Hp in Hq. now destruct (Posixpath.join cwd (String c p)). }
      cbn [orb].
      destruct (Str.endswith (Posixpath.join cwd (String c p)) "/") eqn:He.
      * left. now apply Hends.
      * right. split; reflexivity.
Qed.

End Cwd.

Lemma normpath_step_abs (i : nat) (comps : list string) (c : string) :
  i <> 0%nat -> Posixpath.normpath_step i comps c = Posixpath.normpath_step 1 comps c.
Proof.
  intros Hi. unfold Posixpath.normpath_step.
  destruct i; [congruence | reflexivity].
Qed.

Lemma normpath_fold_abs (i : nat) (l comps : list string) :
  i <> 0%nat ->
  fold_left (Posixpath.normpath_step i) l comps
  = fold_left (Posixpath.normpath_step 1) l comps.
Proof.
  intros Hi. revert comps. induction l as [|c l IH]; intros comps; [reflexivity|].
  cbn [fold_left]. now rewrite IH, normpath_step_abs.
Qed.

Lemma normpath_step_name (i : nat) (comps : list string) (n : string) :
  wf_name n = true -> Posixpath.normpath_step i comps n = comps ++ [n].
Proof.
  unfold wf_name, segment, Posixpath.normpath_step, Posixpath.curdir, Posixpath.pardir.
  intros [[[Hne _]%andb_true_iff Hdot]%andb_true_iff Hdots]%andb_true_iff.
  apply negb_true_iff in Hdot, Hdots. rewrite Hdot, Hdots.
  destruct n; [discriminate | reflexivity].
Qed.

Lemma segments_removelast (ws : list string) : segments ws -> segments (removelast ws).
Proof.
  intros Hws. destruct ws as [|w ws _] using rev_ind; [constructor|].
  rewrite removelast_last. now apply segments_snoc_inv in Hws.
Qed.

Lemma normpath_step_segments (i : nat) (comps : list string) (c : string) :
  segments comps -> no_sep c = true -> segments (Posixpath.normpath_step i comps c).
Proof.
  intros Hcomps Hc. unfold Posixpath.normpath_step.
  destruct (String.eqb c "" || String.eqb c ".") eqn:Hskip; [exact Hcomps|].
  apply orb_false_iff in Hskip as [Hne%String.eqb_neq _].
  match goal with |- context [if ?b then _ else _] => destruct b end.
  - apply segments_snoc; [exact Hcomps | now apply no_sep_segment].
  - now apply segments_removelast.
Qed.

Lemma stack_segments (q : string) : segments (stack q).
Proof.
  unfold stack. pose proof (split_no_sep q) as Hparts.
  assert (segments []) as Hnil by constructor. revert Hnil.
  generalize (@nil string). induction Hparts as [|c l Hc Hl IH]; intros comps Hcomps.
  - exact Hcomps.
  - cbn [fold_left]. apply IH. now apply normpath_step_segments.
Qed.

(** Going down by one name pushes the name on the stack. *)
Lemma stack_join (cwd p n : string) :
  Posixpath.isabs cwd = true -> wf_name n = true ->
  stack (abs_arg cwd (Posixpath.join p n)) = stack (abs_arg cwd p) ++ [n].
Proof.
  intros Hcwd Hn. pose proof (wf_name_segment n Hn) as Hseg.
  pose proof (segment_no_sep n Hseg) as Hns.
  pose proof (segment_nonempty n Hseg) as Hne.
  unfold stack.
  destruct (abs_arg_join cwd Hcwd p n Hns Hne) as [(q0 & -> & ->) | (_ & ->)].
  - rewrite !split_app_sep, !fold_left_app, split_one by exact Hns.
    cbn [Str.split fold_left]. now rewrite normpath_step_name.
  - rewrite split_app_sep, fold_left_app, split_one by exact Hns.
    cbn [fold_left]. now rewrite normpath_step_name.
Qed.

Lemma stack_descend (cwd root_path : string) (chain : list string) :
  Posixpath.isabs cwd = true -> Forall (fun n => wf_name n = true) chain ->
  stack (abs_arg cwd (descend root_path chain))
  = stack (abs_arg cwd root_path) ++ chain.
Proof.
  intros Hcwd. induction chain as [|n chain IH] using rev_ind; intros Hall.
  - now rewrite app_nil_r.
  - apply Forall_app in Hall as [Hchain Hn]. inversion Hn; subst.
    rewrite <- descend_snoc, stack_join, IH by assumption.
    now rewrite <- List.app_assoc.
Qed.

Lemma initial_slashes_abs (q : string) :
  Posixpath.isabs q = true -> exists i, Posixpath.initial_slashes q = S i.
Proof.
  unfold Posixpath.isabs, Posixpath.initial_slashes. intros ->.
  destruct (_ && _); eauto.
Qed.

(** [normpath] of an absolute path: its leading separators and its stack. *)
Lemma normpath_abs (q : string) :
  Posixpath.isabs q = true ->
  exists i, Posixpath.normpath q = Str.repeat sep (S i) +:+ path_of (stack q).
Proof.
  intros Hq. destruct (initial_slashes_abs q Hq) as [i Hi]. exists i.
  unfold Posixpath.normpath. destruct q as [|a q]; [discriminate|].
  cbn [Str.is_empty]. rewrite Hi, normpath_fold_abs by discriminate. reflexivity.
Qed.

Abbreviation nonempty_parts l :=
  (filter (fun x : string => negb (Str.is_empty x) = true) l).

Lemma nonempty_parts_segments (ws : list string) :
  segments ws -> nonempty_parts ws = ws.
Proof.
  induction 1 as [|w ws Hw Hws IH]; [reflexivity|].
  rewrite filter_cons_True, IH; [reflexivity|].
  unfold segment in Hw. now apply andb_true_iff in Hw as [-> _].
Qed.

Lemma nonempty_parts_normpath (i : nat) (ws : list string) :
  segments ws ->
  nonempty_parts (Str.split sep (Str.repeat sep i +:+ path_of ws)) = ws.
Proof.
  intros Hws. induction i as [|i IH].
  - cbn [Str.repeat]. rewrite str_app_empty_l. destruct ws as [|w ws]; [reflexivity|].
    rewrite split_path_of by (discriminate || now apply segments_no_sep).
    now apply nonempty_parts_segments.
  - cbn [Str.repeat]. rewrite str_app_cons, split_cons_sep.
    rewrite filter_cons_False by (cbn; discriminate). exact IH.
Qed.

(** The components [relpath] compares are the stack. *)
Lemma abspath_parts (cwd p : string) :
  Posixpath.isabs cwd = true ->
  nonempty_parts (Str.split sep (Posixpath.abspath cwd p)) = stack (abs_arg cwd p).
Proof.
  intros Hcwd. unfold Posixpath.abspath. fold (abs_arg cwd p).
  destruct (normpath_abs (abs_arg cwd p) (abs_arg_isabs cwd Hcwd p)) as [i ->].
  apply nonempty_parts_normpath, stack_segments.
Qed.

Lemma commonprefix_app (l rest : list string) :
  Posixpath.commonprefix l (l ++ rest) = l.
Proof.
  induction l as [|c l IH]; [now destruct rest|].
  cbn [Posixpath.commonprefix app]. now rewrite String.eqb_refl, IH.
Qed.

Lemma fold_join_segments (pre l : list string) :
  segments pre -> segments l ->
  fold_left Posixpath.join l (path_of pre) = path_of (pre ++ l).
Proof.
  intros Hpre Hl. revert pre Hpre.
  induction Hl as [|w l Hw Hl IH]; intros pre Hpre.
  - now rewrite app_nil_r.
  - cbn [fold_left]. rewrite join_path_of by (assumption || now apply segment_no_sep).
    rewrite IH by now apply segments_snoc.
    now rewrite <- List.app_assoc.
Qed.

(** The path of a file below the root, relative to the root: the names of
    the directories on the way down and the name of the file, joined. *)
Lemma relpath_below (cwd root_path : string) (chain : list string) (name : string) :
  Posixpath.isabs cwd = true ->
  Forall (fun n => wf_name n = true) chain -> wf_name name = true ->
  Posixpath.relpath cwd (Posixpath.join (descend root_path chain) name) root_path
  = Some (path_of (chain ++ [name])).
Proof.
  intros Hcwd Hchain Hname. unfold Posixpath.relpath.
  pose proof (wf_name_segment name Hname) as Hseg.
  destruct (Str.is_empty (Posixpath.join (descend root_path chain) name)) eqn:Hemp.
  { exfalso. apply (join_nonempty (descend root_path chain) name).
    - now apply segment_no_sep.
    - now apply segment_nonempty.
    - now destruct (Posixpath.join (descend root_path chain) name). }
  rewrite !abspath_parts by exact Hcwd.
  rewrite stack_join, stack_descend by assumption.
  rewrite <- List.app_assoc, commonprefix_app.
  rewrite Nat.sub_diag, drop_app_length. cbn [List.repeat app].
  rewrite bool_decide_eq_false_2 by (now destruct chain).
  f_equal. assert (segments (chain ++ [name])) as Hall
    by (apply segments_snoc; [now apply wf_names_segments | exact Hseg]).
  destruct (chain ++ [name]) as [|w ws]; [reflexivity|].
  inversion Hall; subst. unfold Posixpath.join_all.
  apply (fold_join_segments [w] ws); [now repeat constructor | assumption].
Qed.

End Relpath.

(** ** The records of the walk *)

Section Records.
Context `{Runtime}.

Lemma visit_file_record root_path chain name f s :
  file_data (snd (visit_file root_path (descend root_path chain) name f s))
  = file_data s
    ++ option_list (record_for root_path {| v_chain := chain; v_name := name; v_file := f |}).
Proof.
  unfold visit_file, record_for. cbn [v_chain v_name v_file].
  destruct (should_clean_file name _).
  - destruct (getsize f), (os_remove_error f); cbn; now rewrite app_nil_r.
  - destruct (os_stat f) as [file_stats|e]; [|cbn; now rewrite app_nil_r].
    destruct (Posixpath.relpath getcwd _ root_path); [|cbn; now rewrite app_nil_r].
    destruct (strftime (st_mtime file_stats)); cbn; [reflexivity | now rewrite app_nil_r].
Qed.

Lemma visit_all_records root_path vs s :
  file_data (visit_all root_path vs s)
  = file_data s ++ omap (record_for root_path) vs.
Proof.
  revert s. induction vs as [|[chain name f] vs IH]; intros s.
  - cbn. now rewrite app_nil_r.
  - unfold visit_all in *. cbn [fold_left v_chain v_name v_file].
    rewrite IH, visit_file_record. cbn [omap list_omap].
    destruct (record_for root_path _); cbn [option_list];
      now rewrite <- ?List.app_assoc, ?app_nil_r.
Qed.

(** The relative path of the record of a visit is its key, joined. *)
Lemma record_for_relative_path root_path v r :
  Forall (fun n => wf_name n = true) (key v) ->
  record_for root_path v = Some r -> relative_path r = path_of (key v).
Proof.
  unfold key. intros [Hchain Hname]%Forall_app. inversion Hname; subst.
  unfold record_for. rewrite relpath_below by (assumption || apply getcwd_isabs).
  destruct (should_clean_file _ _); [discriminate|].
  destruct (os_stat (v_file v)) as [file_stats|]; [|discriminate].
  destruct (strftime _); [|discriminate].
  now intros [= <-].
Qed.

Lemma records_NoDup root_path vs :
  Forall (fun v => Forall (fun n => wf_name n = true) (key v)) vs ->
  NoDup (map key vs) ->
  NoDup (map relative_path (omap (record_for root_path) vs)).
Proof.
  induction vs as [|v vs IH]; intros Hwf Hnd; [constructor|].
  inversion Hwf as [|? ? Hv Hvs]; subst.
  cbn [map] in Hnd. apply NoDup_cons in Hnd as [Hnotin Hnd].
  cbn [omap list_omap]. fold (omap (record_for root_path) vs).
  destruct (record_for root_path v) as [r|] eqn:Hr; [|now apply IH].
  cbn [map]. apply NoDup_cons. split; [|now apply IH].
  intros Hin. apply Hnotin.
  apply list_elem_of_fmap in Hin as (r' & Heq & Hin).
  apply list_elem_of_omap in Hin as (v' & Hv' & Hr').
  apply list_elem_of_fmap. exists v'. split; [|exact Hv'].
  rewrite List.Forall_forall in Hvs.
  pose proof (Hvs v' (proj1 (list_elem_of_In _ _) Hv')) as Hwf'.
  apply record_for_relative_path in Hr, Hr'; [|assumption..].
  apply path_of_inj; [now apply wf_names_segments.. |]. congruence.
Qed.

End Records.

(** ** The keys of the visits of a well-formed tree *)

Section Keys.


Lemma wf_node_entries (entries : listing) :
  wf_node (Dir (Some entries)) = true ->
  NoDup (map fst entries) /\
  forall e, In e entries -> wf_name (fst e) = true /\ wf_node (snd e) = true.
Proof.
  cbn [wf_node]. intros [Hnd Hall]%andb_true_iff. split.
  - now apply bool_decide_eq_true in Hnd.
  - intros e He. rewrite forallb_forall in Hall.
    now apply andb_true_iff, Hall.
Qed.

Lemma NoDup_map_filter {A B} (f : A -> B) (P : A -> bool) (l : list A) :
  NoDup (map f l) -> NoDup (map f (List.filter P l)).
Proof.
  induction l as [|x l IH]; [trivial|]. cbn [map List.filter].
  intros [Hx Hl]%NoDup_cons. destruct (P x); [|now apply IH].
  cbn [map]. apply NoDup_cons. split; [|now apply IH].
  intros (y & Hy & Hin)%list_elem_of_fmap. apply Hx.
  apply list_elem_of_fmap. exists y. split; [exact Hy|].
  apply list_elem_of_In in Hin. apply filter_In in Hin as [Hin _].
  now apply list_elem_of_In.
Qed.

Lemma NoDup_names_nondirs (entries : listing) :
  NoDup (map fst entries) -> NoDup (map fst (nondirs entries)).
Proof.
  induction entries as [|[name [f|l]] entries IH]; [trivial| |];
    cbn [map fst]; intros [Hx Hl]%NoDup_cons.
  - change (nondirs ((name, File f) :: entries)) with ((name, f) :: nondirs entries).
    cbn [map fst]. apply NoDup_cons. split; [|now apply IH].
    intros ([name' f'] & Hy & Hin%list_elem_of_In%in_nondirs)%list_elem_of_fmap.
    cbn [fst] in Hy. subst name'. apply Hx. apply list_elem_of_fmap.
    exists (name, File f'). split; [reflexivity | now apply list_elem_of_In].
  - now apply IH.
Qed.

Lemma NoDup_names_dirs (entries : listing) :
  NoDup (map fst entries) -> NoDup (map fst (dirs entries)).
Proof.
  induction entries as [|[name [f|l]] entries IH]; [trivial| |];
    cbn [map fst]; intros [Hx Hl]%NoDup_cons.
  - now apply IH.
  - change (dirs ((name, Dir l) :: entries)) with ((name, l) :: dirs entries).
    cbn [map fst]. apply NoDup_cons. split; [|now apply IH].
    intros ([name' l'] & Hy & Hin%list_elem_of_In%in_dirs)%list_elem_of_fmap.
    cbn [fst] in Hy. subst name'. apply Hx. apply list_elem_of_fmap.
    exists (name, Dir l'). split; [reflexivity | now apply list_elem_of_In].
Qed.

Lemma NoDup_names_sort {A} (l : list (string * A)) :
  NoDup (map fst l) -> NoDup (map fst (sort_on fst l)).
Proof.
  intros Hnd.
  assert (Permutation (map fst (sort_on fst l)) (map fst l)) as ->
    by apply Permutation_map, sort_on_Permutation.
  exact Hnd.
Qed.


Lemma good_files (chain : list string) (files : list (string * file)) :
  wf_names chain -> wf_names (map fst files) -> NoDup (map fst files) ->
  let vs := map (fun e => {| v_chain := chain; v_name := fst e; v_file := snd e |}) files in
  Forall (fun v => wf_names (key v)) vs /\
  NoDup (map key vs) /\
  Forall (fun v => key v = chain ++ [v_name v] /\ v_chain v = chain) vs.
Proof.
  intros Hchain Hnames Hnd vs. subst vs.
  induction files as [|[name f] files IH]; [repeat constructor|].
  cbn [map fst] in *. inversion Hnames as [|? ? Hname Hrest]; subst.
  apply NoDup_cons in Hnd as [Hnotin Hnd].
  destruct (IH Hrest Hnd) as (IH1 & IH2 & IH3).
  split; [|split].
  - constructor; [|exact IH1]. unfold key. cbn. apply Forall_app. split; [exact Hchain|].
    now repeat constructor.
  - apply NoDup_cons. split; [|exact IH2].
    intros (v & Hv & Hin)%list_elem_of_fmap.
    apply list_elem_of_fmap in Hin as ([name' f'] & -> & Hin).
    unfold key in Hv. cbn in Hv. apply app_inv_head in Hv. injection Hv as ->.
    apply Hnotin, list_elem_of_fmap. now exists (name', f').
  - constructor; [now split | exact IH3].
Qed.

Lemma good_subdirs (visits : list string -> listing -> list visit)
    (chain : list string) (subdirs : list (string * option listing)) :
  (forall d sub, In (d, Some sub) subdirs -> good_visits (chain ++ [d]) (visits (chain ++ [d]) sub)) ->
  NoDup (map fst subdirs) ->
  let vs := flat_map (fun d => match snd d with
                               | Some sub => visits (chain ++ [fst d]) sub
                               | None => []
                               end) subdirs in
  Forall (fun v => wf_names (key v)) vs /\
  NoDup (map key vs) /\
  Forall (fun v => exists d rest, In d (map fst subdirs) /\ rest <> [] /\
                                  key v = chain ++ d :: rest) vs.
Proof.
  intros Hgood Hnd vs. subst vs.
  induction subdirs as [|[d [sub|]] subdirs IH]; [repeat constructor| |].
  - cbn [map fst] in Hnd. apply NoDup_cons in Hnd as [Hnotin Hnd].
    destruct IH as (IH1 & IH2 & IH3); [intros; apply Hgood; now right | exact Hnd |].
    destruct (Hgood d sub (or_introl eq_refl)) as (G1 & G2 & G3).
    cbn [flat_map snd fst]. split; [|split].
    + apply Forall_app. now split.
    + rewrite map_app. apply NoDup_app. split; [exact G2|]. split; [|exact IH2].
      intros k (v & -> & Hv)%list_elem_of_fmap (v' & Hk & Hv')%list_elem_of_fmap.
      rewrite List.Forall_forall in G3, IH3.
      destruct (G3 v (proj1 (list_elem_of_In _ _) Hv)) as (rest & _ & Hkey).
      destruct (IH3 v' (proj1 (list_elem_of_In _ _) Hv')) as (d' & rest' & Hd' & _ & Hkey').
      rewrite Hkey, Hkey', <- List.app_assoc in Hk. apply app_inv_head in Hk.
      injection Hk as -> _. apply Hnotin. now apply list_elem_of_In.
    + apply Forall_app. split.
      * eapply Forall_impl; [exact G3|]. intros v (rest & Hrest & Hkey).
        exists d, rest. split; [now left|]. split; [exact Hrest|].
        now rewrite Hkey, <- List.app_assoc.
      * eapply Forall_impl; [exact IH3|]. intros v (d' & rest & Hd' & Hrest & Hkey).
        exists d', rest. split; [now right | auto].
  - cbn [map fst] in Hnd. apply NoDup_cons in Hnd as [Hnotin Hnd].
    destruct IH as (IH1 & IH2 & IH3); [intros; apply Hgood; now right | exact Hnd |].
    cbn [flat_map snd fst app]. split; [exact IH1|]. split; [exact IH2|].
    eapply Forall_impl; [exact IH3|]. intros v (d' & rest & Hd' & Hrest & Hkey).
    exists d', rest. split; [now right | auto].
Qed.

Lemma visited_good (fuel : nat) (chain : list string) (entries : listing) :
  wf_names chain -> wf_node (Dir (Some entries)) = true ->
  good_visits chain (visited fuel chain entries).
Proof.
  revert chain entries. induction fuel as [|fuel IH]; intros chain entries Hchain Hwf.
  - repeat constructor.
  - destruct (wf_node_entries entries Hwf) as [Hnd Hall].
    cbn [visited].
    set (files := sort_on fst (nondirs entries)).
    set (subdirs := List.filter (fun d => negb (hidden d)) (sort_on fst (dirs entries))).
    assert (forall e, In e files -> In (file_entry e) entries) as Hfiles.
    { intros e He. apply in_nondirs.
      now apply (Permutation_in _ (sort_on_Permutation fst (nondirs entries))). }
    assert (forall d, In d subdirs -> In (dir_entry d) entries) as Hsubdirs.
    { intros d Hd. apply in_dirs. apply filter_In in Hd as [Hd _].
      now apply (Permutation_in _ (sort_on_Permutation fst (dirs entries))). }
    destruct (good_files chain files) as (F1 & F2 & F3).
    { exact Hchain. }
    { apply List.Forall_forall. intros n ([name f] & <- & Hin)%in_map_iff.
      now apply (Hall _ (Hfiles _ Hin)). }
    { now apply NoDup_names_sort, NoDup_names_nondirs. }
    destruct (good_subdirs (visited fuel) chain subdirs) as (S1 & S2 & S3).
    { intros d sub Hin. pose proof (Hall _ (Hsubdirs _ Hin)) as [Hd Hsub].
      apply IH; [|exact Hsub]. apply Forall_app. split; [exact Hchain|].
      now repeat constructor. }
    { now apply NoDup_map_filter, NoDup_names_sort, NoDup_names_dirs. }
    split; [|split].
    + apply Forall_app. now split.
    + rewrite map_app. apply NoDup_app. split; [exact F2|]. split; [|exact S2].
      intros k (v & -> & Hv)%list_elem_of_fmap (v' & Hk & Hv')%list_elem_of_fmap.
      rewrite List.Forall_forall in F3, S3.
      destruct (F3 v (proj1 (list_elem_of_In _ _) Hv)) as [Hkey _].
      destruct (S3 v' (proj1 (list_elem_of_In _ _) Hv')) as (d' & rest' & _ & Hrest & Hkey').
      rewrite Hkey, Hkey' in Hk. apply app_inv_head in Hk.
      injection Hk as _ Hk. now apply Hrest.
    + apply Forall_app. split.
      * eapply Forall_impl; [exact F3|]. intros v [Hkey _].
        exists [v_name v]. split; [discriminate | exact Hkey].
      * eapply Forall_impl; [exact S3|]. intros v (d & rest & _ & _ & Hkey).
        exists (d :: rest). split; [discriminate | exact Hkey].
Qed.

End Keys.

(** ** The list returned *)

Section Result.
Context `{Runtime}.

Lemma clean_directory_result root_path entries st :
  snd (fst (clean_directory root_path (Some (Dir (Some entries))) st))
  = sort_on relative_path
      (omap (record_for root_path) (visited (height (Dir (Some entries))) [] entries)).
Proof.
  unfold clean_directory.
  pose proof (walk_visits (height (Dir (Some entries))) root_path [] entries
                {| stats := st; file_data := [] |}) as Hw.
  change (descend root_path []) with root_path in Hw.
  destruct (walk _ root_path root_path entries _) as [entries' s'].
  cbn [snd fst] in *. now rewrite Hw, visit_all_records.
Qed.

(** C6: the list returned is sorted ascending by [relative_path], in the
    order of Python on [str], and on a tree as a file system has them, where
    no directory holds a name twice, no two of its records have the same
    [relative_path]. *)
Theorem result_sorted_without_duplicates (root_path : string) (root : option node)
    (st : FileStats) :
  wf_root root = true ->
  let result := snd (fst (clean_directory root_path root st)) in
  StronglySorted (fun a b => String.leb (relative_path a) (relative_path b) = true) result
  /\ NoDup (map relative_path result).
Proof.
  intros Hwf result. subst result.
  destruct root as [[f|[entries|]]|]; try (split; constructor).
  rewrite clean_directory_result. split; [apply sort_on_sorted|].
  match goal with |- NoDup (map _ (sort_on _ ?l)) =>
    assert (Permutation (map relative_path (sort_on relative_path l))
              (map relative_path l)) as ->
      by apply Permutation_map, sort_on_Permutation
  end.
  destruct (visited_good (height (Dir (Some entries))) [] entries) as (G1 & G2 & _);
    [constructor | exact Hwf |].
  now apply records_NoDup.
Qed.

End Result.

(** ** Sorting and filtering *)

Section SortFilter.
Context {A : Type} (key : A -> string).

Lemma insert_on_head (x : A) (l : list A) :
  Forall (key_le key x) l -> insert_on key x l = x :: l.
Proof.
  intros Hall. destruct l as [|y l]; [reflexivity|].
  inversion Hall as [|? ? Hxy _]; subst. cbn [insert_on].
  unfold key_le in Hxy. now rewrite Hxy.
Qed.

Lemma filter_insert_on (P : A -> bool) (x : A) (l : list A) :
  StronglySorted (key_le key) l ->
  List.filter P (insert_on key x l)
  = if P x then insert_on key x (List.filter P l) else List.filter P l.
Proof.
  induction 1 as [|y l Hl IH Hy]; [cbn; now destruct (P x)|].
  cbn [insert_on]. destruct (String.leb (key x) (key y)) eqn:Hxy.
  - cbn [List.filter]. destruct (P x); [|reflexivity].
    symmetry. apply insert_on_head.
    assert (Forall (key_le key x) (y :: l)) as Hall.
    { constructor; [exact Hxy|]. eapply Forall_impl; [exact Hy|].
      intros z Hz. eapply key_le_trans; [exact Hxy | exact Hz]. }
    rewrite List.Forall_forall in *. intros z Hz.
    apply Hall. cbn [List.filter] in Hz. destruct (P y).
    + destruct Hz as [<- | Hz]; [now left | right; now apply filter_In in Hz].
    + right. now apply filter_In in Hz.
  - cbn [List.filter]. rewrite IH. destruct (P y), (P x); cbn [insert_on];
      now rewrite ?Hxy.
Qed.

(** Filtering a sorted list and sorting the filtered list give the same. *)
Lemma filter_sort_on (P : A -> bool) (l : list A) :
  List.filter P (sort_on key l) = sort_on key (List.filter P l).
Proof.
  induction l as [|x l IH]; [reflexivity|].
  cbn [sort_on foldr List.filter]. fold (sort_on key l).
  rewrite filter_insert_on by apply sort_on_sorted. rewrite IH.
  now destruct (P x).
Qed.

Lemma filter_sorted (P : A -> bool) (l : list A) :
  StronglySorted (key_le key) l -> StronglySorted (key_le key) (List.filter P l).
Proof.
  intros Hl. rewrite <- (sort_on_sorted_id key l Hl), filter_sort_on.
  apply sort_on_sorted.
Qed.

End SortFilter.

(** A list is sorted on a key when the list of its keys is. *)
Lemma sorted_by_keys {A B} (key : A -> string) (key' : B -> string)
    (l : list A) (l' : list B) :
  map key l = map key' l' ->
  StronglySorted (key_le key) l -> StronglySorted (key_le key') l'.
Proof.
  revert l'. induction l as [|x l IH]; intros [|x' l'] Heq Hl;
    try discriminate; [constructor|].
  cbn [map] in Heq. injection Heq as Hx Heq.
  apply StronglySorted_inv in Hl as [Hl Hall].
  constructor; [now apply IH|].
  apply List.Forall_forall. intros y' Hy'.
  apply (in_map key') in Hy'. rewrite <- Heq in Hy'.
  apply in_map_iff in Hy' as (y & Hky & Hy).
  rewrite List.Forall_forall in Hall. specialize (Hall y Hy).
  unfold key_le in *. now rewrite <- Hx, <- Hky.
Qed.

Lemma insert_on_map {A B} (key : B -> string) (key' : A -> string) (g : A -> B)
    (x : A) (l : list A) :
  (forall y, key (g y) = key' y) ->
  insert_on key (g x) (map g l) = map g (insert_on key' x l).
Proof.
  intros Hk. induction l as [|y l IH]; [reflexivity|].
  cbn [map insert_on]. rewrite !Hk.
  destruct (String.leb (key' x) (key' y)); [reflexivity|].
  cbn [map]. now rewrite IH.
Qed.

(** Sorting commutes with a map that keeps the keys. *)
Lemma sort_on_map {A B} (key : B -> string) (key' : A -> string) (g : A -> B)
    (l : list A) :
  (forall y, key (g y) = key' y) ->
  sort_on key (map g l) = map g (sort_on key' l).
Proof.
  intros Hk. induction l as [|x l IH]; [reflexivity|].
  cbn [map sort_on foldr]. fold (sort_on key (map g l)). fold (sort_on key' l).
  rewrite IH. now apply insert_on_map.
Qed.

(** ** A second run *)

Section Again.
Context `{Runtime}.
Variable root_path : string.









Lemma nondirs_app (l1 l2 : listing) : nondirs (l1 ++ l2) = nondirs l1 ++ nondirs l2.
Proof. apply omap_app. Qed.

Lemma dirs_app (l1 l2 : listing) : dirs (l1 ++ l2) = dirs l1 ++ dirs l2.
Proof. apply omap_app. Qed.

Lemma nondirs_files (l : list (string * file)) : nondirs (map file_entry l) = l.
Proof. induction l as [|[name f] l IH]; [reflexivity|]. cbn. f_equal. exact IH. Qed.

Lemma nondirs_dirs (l : list (string * option listing)) : nondirs (map dir_entry l) = [].
Proof. induction l as [|[name d] l IH]; [reflexivity|]. exact IH. Qed.

Lemma dirs_files (l : list (string * file)) : dirs (map file_entry l) = [].
Proof. induction l as [|[name f] l IH]; [reflexivity|]. exact IH. Qed.

Lemma dirs_dirs (l : list (string * option listing)) : dirs (map dir_entry l) = l.
Proof. induction l as [|[name d] l IH]; [reflexivity|]. cbn. f_equal. exact IH. Qed.

Lemma filter_map_comm {A B} (P : B -> bool) (f : A -> B) (l : list A) :
  List.filter P (map f l) = map f (List.filter (fun x => P (f x)) l).
Proof.
  induction l as [|x l IH]; [reflexivity|]. cbn [map List.filter].
  rewrite IH. now destruct (P (f x)).
Qed.

Lemma filter_all {A} (P : A -> bool) (l : list A) :
  (forall x, In x l -> P x = true) -> List.filter P l = l.
Proof.
  induction l as [|x l IH]; intros Hall; [reflexivity|]. cbn [List.filter].
  rewrite (Hall x (or_introl eq_refl)), IH; [reflexivity|].
  intros y Hy. apply Hall. now right.
Qed.

Lemma filter_none {A} (P : A -> bool) (l : list A) :
  (forall x, In x l -> P x = false) -> List.filter P l = [].
Proof.
  induction l as [|x l IH]; intros Hall; [reflexivity|]. cbn [List.filter].
  rewrite (Hall x (or_introl eq_refl)), IH; [reflexivity|].
  intros y Hy. apply Hall. now right.
Qed.

Lemma hidden_by_name {A B} (l : list (string * A)) (l' : list (string * B)) :
  map fst l = map fst l' ->
  (forall x, In x l -> hidden x = false) -> forall x, In x l' -> hidden x = false.
Proof.
  intros Heq Hl x' Hx'. apply (in_map fst) in Hx'. rewrite <- Heq in Hx'.
  apply in_map_iff in Hx' as (x & Hfst & Hx). specialize (Hl x Hx).
  unfold hidden in *. now rewrite <- Hfst.
Qed.







Lemma visit_file_survivor dirpath name f s :
  should_clean_file name (Posixpath.join dirpath name) = false ->
  cleaned_files (stats (snd (visit_file root_path dirpath name f s)))
  = cleaned_files (stats s).
Proof.
  unfold visit_file. intros ->.
  repeat match goal with
         | |- context [match ?x with _ => _ end] => destruct x
         end; reflexivity.
Qed.

Lemma visit_all_survivors (vs : list visit) (s : state) :
  cleaned_files (stats (visit_all root_path
                          (List.filter (fun v => negb (junk root_path v)) vs) s))
  = cleaned_files (stats s).
Proof.
  revert s. induction vs as [|v vs IH]; intros s; [reflexivity|].
  cbn [List.filter]. destruct (junk root_path v) eqn:Hv; cbn [negb]; [apply IH|].
  unfold visit_all in *. cbn [fold_left]. rewrite IH.
  now apply visit_file_survivor.
Qed.

(** ** Symbolic links to files that are removed *)

Section Settle.
Variable gone : list string.



Lemma removed_settle (v : visit) :
  removed root_path (settle_visit gone root_path v) = removed root_path v.
Proof.
  unfold removed, settle_visit, settle_file, junk. cbn [v_file v_chain v_name].
  destruct (link_target (v_file v)) as [target|];
    [destruct (bool_decide (target ∈ gone))|]; reflexivity.
Qed.

Lemma height_settle (n : nat) :
  forall path t, (height t <= n)%nat -> height (settle gone path t) = height t.
Proof.
  induction n as [|n IH]; intros path [f|[entries|]] Hn; try reflexivity.
  - cbn [height] in Hn. lia.
  - cbn [settle height]. f_equal. rewrite map_map. cbn [snd]. f_equal.
    apply map_ext_in. intros e He. apply IH.
    pose proof (height_entry e entries He). lia.
Qed.

Lemma height_settle_entries path (entries : listing) :
  height (Dir (Some (settle_entries gone path entries))) = height (Dir (Some entries)).
Proof.
  change (Dir (Some (settle_entries gone path entries)))
    with (settle gone path (Dir (Some entries))).
  now apply (height_settle (height (Dir (Some entries)))).
Qed.

Lemma nondirs_settle path (entries : listing) :
  nondirs (settle_entries gone path entries)
  = map (fun e => (fst e, settle_file gone (Posixpath.join path (fst e)) (snd e)))
        (nondirs entries).
Proof.
  induction entries as [|[name [f|l]] entries IH]; [reflexivity| |].
  - cbn. f_equal. exact IH.
  - destruct l; exact IH.
Qed.

Lemma dirs_settle path (entries : listing) :
  dirs (settle_entries gone path entries)
  = map (fun d => (fst d,
                   option_map (settle_entries gone (Posixpath.join path (fst d))) (snd d)))
        (dirs entries).
Proof.
  induction entries as [|[name [f|l]] entries IH]; [reflexivity| |].
  - exact IH.
  - destruct l; cbn; f_equal; exact IH.
Qed.

(** The walk of a tree with its links settled comes to the same files, the
    links settled. *)
Lemma visited_settle (fuel : nat) :
  forall chain entries,
    visited fuel chain (settle_entries gone (descend root_path chain) entries)
    = map (settle_visit gone root_path) (visited fuel chain entries).
Proof.
  induction fuel as [|fuel IH]; intros chain entries; [reflexivity|].
  cbn [visited]. rewrite nondirs_settle, dirs_settle, map_app.
  rewrite (sort_on_map fst fst) by reflexivity.
  rewrite (sort_on_map fst fst) by reflexivity.
  rewrite !map_map. f_equal.
  rewrite filter_map_comm, flat_map_concat_map, map_map.
  rewrite flat_map_concat_map, concat_map, map_map. f_equal.
  apply map_ext. intros [d [sub|]]; cbn [fst snd option_map]; [|reflexivity].
  rewrite descend_snoc. apply IH.
Qed.

End Settle.

Lemma clean_directory_walk entries st :
  let w := walk (height (Dir (Some entries))) root_path root_path entries
             {| stats := st; file_data := [] |} in
  clean_directory root_path (Some (Dir (Some entries))) st
  = (Some (Dir (Some (settle_entries (removed_paths root_path entries) root_path (fst w)))),
     sort_on relative_path (file_data (snd w)), stats (snd w)).
Proof.
  intros w. subst w. unfold clean_directory.
  now destruct (walk _ root_path root_path entries _).
Qed.




End Again.

(** C6 at [example_tree]. *)
Lemma result_sorted_without_duplicates_witness :
  wf_root (Some example_tree) = true /\
  NoDup (map relative_path
           (snd (fst (clean_directory (H := example_runtime) "/data"
                        (Some example_tree) FileStats_init)))).
Proof.
  assert (wf_root (Some example_tree) = true) as Hwf by (vm_compute; reflexivity).
  split; [exact Hwf|].
  destruct (result_sorted_without_duplicates (H := example_runtime) "/data"
              (Some example_tree) FileStats_init Hwf) as [_ Hnodup].
  exact Hnodup.
Defined.



(** ** The fuel of the walk and the paths of its records *)

Section Adequacy.
Context `{Runtime}.

Lemma walk_subdirs_ext walk1 walk2 top subdirs s :
  (forall d sub t, In (d, Some sub) subdirs ->
     walk1 (Posixpath.join top d) sub t = walk2 (Posixpath.join top d) sub t) ->
  walk_subdirs walk1 top subdirs s = walk_subdirs walk2 top subdirs s.
Proof.
  revert s. induction subdirs as [|[d [sub|]] rest IH]; intros s Hext; [reflexivity| |].
  - cbn [walk_subdirs]. rewrite (Hext d sub s (or_introl eq_refl)).
    destruct (walk2 (Posixpath.join top d) sub s) as [sub' s1].
    rewrite IH by (intros; apply Hext; now right). reflexivity.
  - cbn [walk_subdirs]. rewrite IH by (intros; apply Hext; now right). reflexivity.
Qed.

(** Fuel beyond the height of the tree changes nothing: the walk that
    [clean_directory] runs is never cut short. *)
Lemma walk_fuel (fuel1 fuel2 : nat) root_path top entries s :
  (height (Dir (Some entries)) <= fuel1)%nat ->
  (height (Dir (Some entries)) <= fuel2)%nat ->
  walk fuel1 root_path top entries s = walk fuel2 root_path top entries s.
Proof.
  revert fuel2 top entries s.
  induction fuel1 as [|fuel1 IH]; intros fuel2 top entries s H1 H2.
  - cbn [height] in H1. lia.
  - destruct fuel2 as [|fuel2]; [cbn [height] in H2; lia|].
    cbn [walk].
    destruct (visit_files root_path top (sort_on fst (nondirs entries)) s) as [kept s1].
    rewrite (walk_subdirs_ext (walk fuel1 root_path) (walk fuel2 root_path)); [reflexivity|].
    intros d sub t Hin. apply filter_In in Hin as [Hin _].
    apply (Permutation_in _ (sort_on_Permutation fst (dirs entries))) in Hin.
    apply in_dirs, height_entry in Hin. cbn [dir_entry fst snd] in Hin.
    apply IH; lia.
Qed.

(** On a tree as a file system has them, the relative path of every record
    returned is normalized. *)
Lemma clean_directory_normalized root_path root st :
  wf_root root = true ->
  Forall (fun r => normalized (relative_path r) = true)
    (snd (fst (clean_directory root_path root st))).
Proof.
  intros Hwf. destruct root as [[f|[entries|]]|]; try constructor.
  rewrite clean_directory_result.
  rewrite (sort_on_Permutation relative_path).
  destruct (visited_good (height (Dir (Some entries))) [] entries) as (Hkeys & _ & _);
    [constructor | exact Hwf |].
  apply List.Forall_forall. intros r Hr.
  apply list_elem_of_In, list_elem_of_omap in Hr as (v & Hv & Hrec).
  rewrite List.Forall_forall in Hkeys.
  pose proof (Hkeys v (proj1 (list_elem_of_In _ _) Hv)) as Hkey.
  rewrite (record_for_relative_path root_path v r Hkey Hrec).
  pose proof (wf_names_segments _ Hkey) as Hsegs.
  unfold normalized. rewrite split_path_of;
    [| unfold key; now destruct (v_chain v) | now apply segments_no_sep].
  apply forallb_forall. intros w Hw.
  rewrite List.Forall_forall in Hsegs. specialize (Hsegs w Hw).
  unfold segment in Hsegs. now apply andb_true_iff in Hsegs as [-> _].
Qed.

End Adequacy.

(** ** The bytes counted as freed *)

Section Freed.
Context `{Runtime}.

Lemma visit_file_cleaned_size root_path chain name f s :
  cleaned_size (stats (snd (visit_file root_path (descend root_path chain) name f s)))
  = cleaned_size (stats s)
    + size_added root_path {| v_chain := chain; v_name := name; v_file := f |}.
Proof.
  unfold visit_file, size_added, junk. cbn [v_chain v_name v_file].
  destruct (should_clean_file name _).
  - destruct (getsize f), (os_remove_error f); cbn; lia.
  - repeat match goal with
           | |- context [match ?x with _ => _ end] => destruct x
           end; cbn; lia.
Qed.

(** What [cleaned_size] is after the walk: the sizes read of the junk files
    visited. It is the sum of the sizes of the files deleted when every
    removal tried succeeds, and more than it otherwise. *)
Lemma visit_all_cleaned_size root_path vs s :
  cleaned_size (stats (visit_all root_path vs s))
  = cleaned_size (stats s) + foldr (fun v n => size_added root_path v + n) 0 vs.
Proof.
  revert s. induction vs as [|[chain name f] vs IH]; intros s.
  - cbn. lia.
  - unfold visit_all in *. cbn [fold_left foldr v_chain v_name v_file].
    rewrite IH, visit_file_cleaned_size. lia.
Qed.

Lemma size_added_freed root_path vs :
  Forall (fun v => junk root_path v = true -> os_remove_error (v_file v) = None) vs ->
  foldr (fun v n => size_added root_path v + n) 0 vs
  = foldr (fun v n => size_freed root_path v + n) 0 vs.
Proof.
  induction 1 as [|v vs Hv Hvs IH]; [reflexivity|]. cbn [foldr]. rewrite IH. f_equal.
  unfold size_added, size_freed. destruct (junk root_path v); [|reflexivity].
  now rewrite Hv.
Qed.

End Freed.

(** ** The walk with the exceptions that leave it *)

Section RunFacts.
Context `{Runtime} `{C : Console}.

Lemma visit_file_removed root_path chain name f s :
  fst (visit_file root_path (descend root_path chain) name f s)
  = removed root_path {| v_chain := chain; v_name := name; v_file := f |}.
Proof.
  unfold visit_file, removed, junk. cbn [v_chain v_name v_file].
  destruct (should_clean_file name _); cbn [andb].
  - destruct (os_remove_error f); reflexivity.
  - repeat match goal with
           | |- context [match ?x with _ => _ end] => destruct x
           end; reflexivity.
Qed.

Lemma handler_returns full_path e s b s' :
  handler full_path e s = (b, s', None) ->
  (b, s') = (false, append_error (error_msg full_path e) s).
Proof.
  unfold handler. destruct (print _); [discriminate|]. now intros [= <- <-].
Qed.

(** When no exception leaves the body of the loop, it has done what
    [visit_file] does. *)
Lemma visit_file_run_returns root_path dirpath name f s b s' :
  visit_file_run root_path dirpath name f s = (b, s', None) ->
  visit_file root_path dirpath name f s = (b, s').
Proof.
  unfold visit_file_run, visit_file.
  destruct (should_clean_file name _).
  - destruct (os_remove_error f); [|now intros [= <- <-]].
    intros Hh. apply handler_returns in Hh. now rewrite Hh.
  - destruct (os_stat f) as [file_stats|e].
    2:{ intros Hh. apply handler_returns in Hh. now rewrite Hh. }
    destruct (Posixpath.relpath getcwd _ root_path).
    2:{ intros Hh. apply handler_returns in Hh. now rewrite Hh. }
    destruct (strftime (st_mtime file_stats)); [now intros [= <- <-]|].
    intros Hh. apply handler_returns in Hh. now rewrite Hh.
Qed.

Lemma visit_file_run_printed root_path chain name f s :
  blocked root_path {| v_chain := chain; v_name := name; v_file := f |} = false ->
  snd (visit_file_run root_path (descend root_path chain) name f s) = None.
Proof.
  unfold blocked, error_for, visit_file_run, handler. cbn [v_chain v_name v_file].
  destruct (should_clean_file name _).
  - destruct (os_remove_error f); [|reflexivity].
    now destruct (print _).
  - destruct (os_stat f) as [file_stats|e]; [|now destruct (print _)].
    destruct (Posixpath.relpath getcwd _ root_path); [|now destruct (print _)].
    destruct (strftime (st_mtime file_stats)); [reflexivity|].
    now destruct (print _).
Qed.

Lemma visit_files_run_stopped root_path dirpath files p :
  escaped p <> None -> visit_files_run root_path dirpath files p = (files, p).
Proof.
  intros Hp. destruct files as [|e rest]; [reflexivity|]. cbn [visit_files_run].
  now destruct (escaped p).
Qed.

Lemma walk_run_stopped fuel root_path top entries p :
  escaped p <> None -> walk_run fuel root_path top entries p = (entries, p).
Proof.
  intros Hp. destruct fuel as [|fuel]; [reflexivity|]. cbn [walk_run].
  now destruct (escaped p).
Qed.

Lemma walk_subdirs_run_stopped walk_into top subdirs p :
  (forall t entries, walk_into t entries p = (entries, p)) ->
  walk_subdirs_run walk_into top subdirs p = (subdirs, p).
Proof.
  intros Hinto. induction subdirs as [|[d [sub|]] rest IH]; [reflexivity| |];
    cbn [walk_subdirs_run]; now rewrite ?Hinto, IH.
Qed.

Lemma progress_same (p : progress) :
  escaped p = None ->
  p = {| loop_state := loop_state p;
         removed_so_far := removed_so_far p ++ [];
         escaped := None |}.
Proof. destruct p as [s l e]. cbn. intros ->. now rewrite app_nil_r. Qed.

Lemma visit_files_run_returns root_path chain files p :
  escaped p = None ->
  let r := visit_files_run root_path (descend root_path chain) files p in
  escaped (snd r) = None ->
  r = (fst (visit_files root_path (descend root_path chain) files (loop_state p)),
       {| loop_state :=
            snd (visit_files root_path (descend root_path chain) files (loop_state p));
          removed_so_far :=
            removed_so_far p
            ++ map (full_path_of root_path)
                 (List.filter (removed root_path)
                    (map (fun e => {| v_chain := chain; v_name := fst e;
                                      v_file := snd e |}) files));
          escaped := None |}).
Proof.
  revert p. induction files as [|e rest IH]; intros p Hp r; subst r.
  - intros _. cbn. f_equal. now apply progress_same.
  - cbn [visit_files_run visit_files map List.filter]. rewrite Hp.
    destruct (visit_file_run root_path (descend root_path chain) (fst e) (snd e)
                (loop_state p)) as [[b s1] raised] eqn:Hv.
    destruct raised as [x|].
    + rewrite visit_files_run_stopped by (cbn; discriminate). cbn. discriminate.
    + apply visit_file_run_returns in Hv.
      pose proof (visit_file_removed root_path chain (fst e) (snd e) (loop_state p))
        as Hb.
      rewrite Hv in Hb |- *. cbn [fst] in Hb. rewrite <- Hb.
      match goal with |- context [visit_files_run _ _ rest ?p1] =>
        specialize (IH p1 eq_refl); destruct (visit_files_run _ _ rest p1) as [kept p2]
      end.
      cbn [fst snd loop_state removed_so_far] in *. intros Hq.
      specialize (IH Hq). injection IH as -> ->.
      destruct (visit_files root_path (descend root_path chain) rest s1) as [kept' s2].
      cbn [fst snd]. destruct b; cbn [map app]; rewrite <- ?List.app_assoc; reflexivity.
Qed.

Lemma visit_files_run_printed root_path chain files p :
  escaped p = None ->
  (forall e, In e files ->
     blocked root_path {| v_chain := chain; v_name := fst e; v_file := snd e |} = false) ->
  escaped (snd (visit_files_run root_path (descend root_path chain) files p)) = None.
Proof.
  revert p. induction files as [|e rest IH]; intros p Hp Hall; [exact Hp|].
  cbn [visit_files_run]. rewrite Hp.
  pose proof (visit_file_run_printed root_path chain (fst e) (snd e) (loop_state p)
                (Hall e (or_introl eq_refl))) as Hv.
  destruct (visit_file_run root_path (descend root_path chain) (fst e) (snd e)
              (loop_state p)) as [[b s1] raised].
  cbn [snd] in Hv. subst raised.
  match goal with |- context [visit_files_run _ _ rest ?p1] =>
    specialize (IH p1 eq_refl (fun e' He' => Hall e' (or_intror He')));
    destruct (visit_files_run _ _ rest p1) as [kept p2]
  end.
  exact IH.
Qed.

Lemma walk_subdirs_run_returns root_path fuel chain subdirs p :
  returns_at root_path fuel ->
  escaped p = None ->
  let r := walk_subdirs_run (walk_run fuel root_path) (descend root_path chain)
             subdirs p in
  escaped (snd r) = None ->
  r = (fst (walk_subdirs (walk fuel root_path) (descend root_path chain) subdirs
              (loop_state p)),
       {| loop_state :=
            snd (walk_subdirs (walk fuel root_path) (descend root_path chain) subdirs
                   (loop_state p));
          removed_so_far :=
            removed_so_far p
            ++ map (full_path_of root_path)
                 (List.filter (removed root_path) (visits_below fuel chain subdirs));
          escaped := None |}).
Proof.
  intros Hret. revert p.
  induction subdirs as [|[d [sub|]] rest IH]; intros p Hp r; subst r.
  - intros _. cbn. f_equal. now apply progress_same.
  - cbn [walk_subdirs_run walk_subdirs]. rewrite descend_snoc.
    pose proof (Hret (chain ++ [d]) sub p Hp) as Hd. cbn zeta in Hd.
    destruct (walk_run fuel root_path (descend root_path (chain ++ [d])) sub p)
      as [sub' p1].
    cbn [snd] in Hd.
    destruct (escaped p1) as [x|] eqn:Hp1.
    + rewrite walk_subdirs_run_stopped
        by (intros; apply walk_run_stopped; rewrite Hp1; discriminate).
      cbn [snd]. rewrite Hp1. discriminate.
    + specialize (Hd eq_refl). injection Hd as -> ->.
      match goal with |- context [walk_subdirs_run _ _ rest ?p1] =>
        specialize (IH p1 eq_refl);
        destruct (walk_subdirs_run (walk_run fuel root_path) (descend root_path chain)
                    rest p1) as [rest' p2]
      end.
      cbn [fst snd loop_state removed_so_far] in *. intros Hq.
      specialize (IH Hq). injection IH as -> ->.
      destruct (walk fuel root_path (descend root_path (chain ++ [d])) sub
                  (loop_state p)) as [sub'' s1].
      cbn [fst snd].
      destruct (walk_subdirs (walk fuel root_path) (descend root_path chain) rest s1)
        as [rest'' s2].
      cbn [fst snd]. unfold visits_below. cbn [flat_map fst snd].
      now rewrite List.filter_app, map_app, <- List.app_assoc.
  - cbn [walk_subdirs_run walk_subdirs].
    specialize (IH p Hp).
    destruct (walk_subdirs_run (walk_run fuel root_path) (descend root_path chain)
                rest p) as [rest' p2].
    cbn [fst snd] in *. intros Hq. specialize (IH Hq). injection IH as -> ->.
    destruct (walk_subdirs (walk fuel root_path) (descend root_path chain) rest
                (loop_state p)) as [rest'' s2].
    reflexivity.
Qed.

(** When no exception has left the walk by its end, it has gone as [walk]
    goes. *)
Lemma walk_run_returns root_path fuel : returns_at root_path fuel.
Proof.
  induction fuel as [|fuel IH]; intros chain entries p Hp r; subst r.
  - intros _. cbn. f_equal. now apply progress_same.
  - cbn [walk_run walk visited]. rewrite Hp.
    pose proof (visit_files_run_returns root_path chain (sort_on fst (nondirs entries))
                  p Hp) as Hf. cbn zeta in Hf.
    destruct (visit_files_run root_path (descend root_path chain)
                (sort_on fst (nondirs entries)) p) as [kept p1].
    cbn [snd] in Hf.
    destruct (escaped p1) as [x|] eqn:Hp1.
    + rewrite walk_subdirs_run_stopped
        by (intros; apply walk_run_stopped; rewrite Hp1; discriminate).
      cbn [snd]. rewrite Hp1. discriminate.
    + specialize (Hf eq_refl). injection Hf as -> ->.
      match goal with |- context [walk_subdirs_run _ _ ?l ?p1] =>
        pose proof (walk_subdirs_run_returns root_path fuel chain l p1 IH eq_refl) as Hs;
        cbn zeta in Hs;
        destruct (walk_subdirs_run (walk_run fuel root_path) (descend root_path chain)
                    l p1) as [walked p2]
      end.
      cbn [fst snd loop_state removed_so_far] in *. intros Hq.
      specialize (Hs Hq). injection Hs as -> ->.
      destruct (visit_files root_path (descend root_path chain)
                  (sort_on fst (nondirs entries)) (loop_state p)) as [kept' s1].
      cbn [fst snd].
      destruct (walk_subdirs (walk fuel root_path) (descend root_path chain) _ s1)
        as [walked' s2].
      cbn [fst snd]. fold (visits_below fuel chain
                             (List.filter (fun d => negb (hidden d))
                                (sort_on fst (dirs entries)))).
      now rewrite List.filter_app, map_app, <- List.app_assoc.
Qed.

Lemma walk_subdirs_run_printed root_path fuel chain subdirs p :
  printed_at root_path fuel ->
  escaped p = None ->
  (forall v, In v (visits_below fuel chain subdirs) -> blocked root_path v = false) ->
  escaped (snd (walk_subdirs_run (walk_run fuel root_path) (descend root_path chain)
                  subdirs p)) = None.
Proof.
  intros Hpr. revert p.
  induction subdirs as [|[d [sub|]] rest IH]; intros p Hp Hall; [exact Hp| |].
  - cbn [walk_subdirs_run]. rewrite descend_snoc.
    unfold visits_below in Hall. cbn [flat_map fst snd] in Hall.
    pose proof (Hpr (chain ++ [d]) sub p Hp
                  (fun v Hv => Hall v (in_or_app _ _ _ (or_introl Hv)))) as Hd.
    destruct (walk_run fuel root_path (descend root_path (chain ++ [d])) sub p)
      as [sub' p1].
    cbn [snd] in Hd.
    specialize (IH p1 Hd (fun v Hv => Hall v (in_or_app _ _ _ (or_intror Hv)))).
    destruct (walk_subdirs_run (walk_run fuel root_path) (descend root_path chain)
                rest p1) as [rest' p2].
    exact IH.
  - cbn [walk_subdirs_run].
    specialize (IH p Hp Hall).
    destruct (walk_subdirs_run (walk_run fuel root_path) (descend root_path chain)
                rest p) as [rest' p2].
    exact IH.
Qed.

(** No exception leaves a walk whose error messages are all printed. *)
Lemma walk_run_printed root_path fuel : printed_at root_path fuel.
Proof.
  induction fuel as [|fuel IH]; intros chain entries p Hp Hall; [exact Hp|].
  cbn [walk_run]. rewrite Hp. cbn [visited] in Hall.
  pose proof (visit_files_run_printed root_path chain (sort_on fst (nondirs entries))
                p Hp) as Hf.
  destruct (visit_files_run root_path (descend root_path chain)
              (sort_on fst (nondirs entries)) p) as [kept p1].
  cbn [snd] in Hf.
  assert (escaped p1 = None) as Hp1.
  { apply Hf. intros e He. apply Hall, in_or_app. left.
    now apply (in_map (fun e => {| v_chain := chain; v_name := fst e;
                                   v_file := snd e |})). }
  match goal with |- context [walk_subdirs_run _ _ ?l ?p1] =>
    pose proof (walk_subdirs_run_printed root_path fuel chain l p1 IH Hp1) as Hs;
    destruct (walk_subdirs_run (walk_run fuel root_path) (descend root_path chain)
                l p1) as [walked p2]
  end.
  cbn [snd] in *. apply Hs. intros v Hv. apply Hall, in_or_app. now right.
Qed.

(** Whenever [clean_directory] returns, it returns what [clean_directory]
    above gives, and leaves the tree and the statistics that it gives. *)
Lemma clean_directory_run_returns root_path root st root' file_data st' :
  clean_directory_run root_path root st = Returned root' file_data st' ->
  clean_directory root_path root st = (root', file_data, st').
Proof.
  unfold clean_directory_run, clean_directory.
  destruct (print _); [discriminate|].
  destruct (has_nul root_path); [discriminate|].
  destruct root as [[f|[entries|]]|]; try (now intros [= <- <- <-]).
  unfold removed_paths.
  pose proof (walk_run_returns root_path (height (Dir (Some entries))) [] entries
                {| loop_state := {| stats := st; file_data := [] |};
                   removed_so_far := []; escaped := None |} eq_refl) as Hr.
  set (h := height (Dir (Some entries))) in *.
  change (descend root_path []) with root_path in Hr.
  destruct (walk_run h root_path root_path entries _) as [entries' p].
  cbv zeta in Hr. unfold snd at 1 in Hr.
  destruct (escaped p); [discriminate|].
  specialize (Hr eq_refl). apply pair_equal_spec in Hr as [-> ->].
  unfold loop_state, removed_so_far.
  destruct (walk h root_path root_path entries _) as [entries'' s'].
  now intros [= <- <- <-].
Qed.

(** [clean_directory] returns when the path holds no NUL and the messages
    are printed, whatever the calls on the files return or raise. *)
Lemma clean_directory_run_printed root_path root st :
  print (String newline "Scanning and cleaning directory...") = None ->
  has_nul root_path = false ->
  errors_printed root_path root = true ->
  clean_directory_run root_path root st
  = Returned (fst (fst (clean_directory root_path root st)))
      (snd (fst (clean_directory root_path root st)))
      (snd (clean_directory root_path root st)).
Proof.
  intros Hscan Hnul Hprinted.
  destruct (clean_directory_run root_path root st) as [root' file_data st'|e root' st']
    eqn:Hrun.
  - now rewrite (clean_directory_run_returns _ _ _ _ _ _ Hrun).
  - exfalso. revert Hrun. unfold clean_directory_run. rewrite Hscan, Hnul.
    destruct root as [[f|[entries|]]|]; try discriminate.
    cbn [errors_printed] in Hprinted. rewrite forallb_forall in Hprinted.
    pose proof (walk_run_printed root_path (height (Dir (Some entries))) [] entries
                  {| loop_state := {| stats := st; file_data := [] |};
                     removed_so_far := []; escaped := None |} eq_refl) as Hp.
    set (h := height (Dir (Some entries))) in *.
    change (descend root_path []) with root_path in Hp.
    destruct (walk_run h root_path root_path entries _) as [entries' p].
    unfold snd at 1 in Hp. rewrite Hp; [discriminate|].
    intros v Hv. apply negb_true_iff. now apply Hprinted.
Qed.

(** C1, amended: on a root that does not exist, is not a directory or
    cannot be listed, the walk comes to nothing, so that no file is counted,
    deleted or recorded and no error is logged; the run does not abort on
    it, and ends with status 0 once the inventories are written. On a root
    that is walked, what the calls on the files return or raise does not
    end the walk: [total_files] is the number of files in reach, which the
    shape of the tree alone gives. This for a path that holds no NUL and
    with the messages printed: those of the errors for the walk, all of
    them for the status. *)
Theorem unwalkable_root_comes_to_nothing (w : world) :
  has_nul (ROOT_DIRECTORY w) = false ->
  print (String newline "Scanning and cleaning directory...") = None ->
  (walkable (root w) = false ->
   clean_directory_run (ROOT_DIRECTORY w) (root w) FileStats_init
   = Returned (root w) [] FileStats_init /\
   ((forall m, print m = None) ->
    makedirs_error w = None -> files_csv_error w = None -> dirs_csv_error w = None ->
    main w = (root w, Finished [] [] FileStats_init) /\
    exit_status (snd (main w)) = 0)) /\
  (forall entries, root w = Some (Dir (Some entries)) ->
   errors_printed (ROOT_DIRECTORY w) (root w) = true ->
   exists root' file_data stats,
     clean_directory_run (ROOT_DIRECTORY w) (root w) FileStats_init
     = Returned root' file_data stats /\
     total_files stats = Z.of_nat (files_in_reach (Dir (Some entries)))).
Proof.
  intros Hnul Hscan. split.
  - intros Hw.
    assert (clean_directory_run (ROOT_DIRECTORY w) (root w) FileStats_init
            = Returned (root w) [] FileStats_init) as Hrun.
    { unfold clean_directory_run. rewrite Hscan, Hnul.
      destruct (root w) as [[f|[entries|]]|]; try discriminate; reflexivity. }
    split; [exact Hrun|].
    intros Hprint Hmk Hfiles Hdirs.
    assert (main w = (root w, Finished [] [] FileStats_init)) as Hmain.
    { unfold main. rewrite Hprint, Hrun.
      destruct (csv_paths _ _ _ _) as [files_csv dirs_csv].
      unfold save_to_csv, save_directory_structure.
      rewrite Hmk, !Hprint, Hfiles, Hdirs.
      assert (forall ms, print_all ms = None) as ->; [|reflexivity].
      induction ms as [|m ms IHms]; [reflexivity|]. cbn [print_all].
      now rewrite Hprint. }
    split; [exact Hmain|]. now rewrite Hmain.
  - intros entries Hroot Hprinted.
    rewrite (clean_directory_run_printed _ _ _ Hscan Hnul Hprinted).
    eexists _, _, _. split; [reflexivity|].
    rewrite Hroot, clean_directory_total. reflexivity.
Qed.

End RunFacts.

(** C1, as stated, fails twice. On a root that does not exist the run does
    not abort: it ends as on an empty directory, with status 0. And on a
    root that is walked, an error on a file ends the walk when its message
    cannot be printed: at [undecodable_tree] the walk ends at the first
    file, the second is never counted, and the process ends with status
    1. *)
Lemma missing_root_ends_with_status_0 :
  let missing := {| ROOT_DIRECTORY := "/no/such/dir"; OUTPUT_DIRECTORY := "/out";
                    root := None;
                    timestamps := ("20240101_120000", "20240101_120001");
                    makedirs_error := None; files_csv_error := None;
                    dirs_csv_error := None |} in
  let unprinted := example_world (Some undecodable_tree) in
  walkable (root missing) = false /\
  main (H := example_runtime) (C := accepting_console) missing
  = (None, Finished [] [] FileStats_init) /\
  exit_status (snd (main (H := example_runtime) (C := accepting_console) missing)) = 0 /\
  walkable (root unprinted) = true /\
  files_in_reach undecodable_tree = 2%nat /\
  clean_directory_run (H := example_runtime) (C := strict_console) "/data"
    (Some undecodable_tree) FileStats_init
  = Raised "'utf-8' codec can't encode character: surrogates not allowed"
      (Some undecodable_tree)
      {| total_files := 1; cleaned_files := 0; cleaned_size := 0; errors := [] |} /\
  exit_status (snd (main (H := example_runtime) (C := strict_console) unprinted)) = 1.
Proof. vm_compute. repeat split. Qed.

(** The amended C1 at a root that does not exist and at [locked_tree], on
    which two of the three files raise an error. *)
Lemma unwalkable_root_comes_to_nothing_witness :
  let missing := {| ROOT_DIRECTORY := "/no/such/dir"; OUTPUT_DIRECTORY := "/out";
                    root := None;
                    timestamps := ("20240101_120000", "20240101_120001");
                    makedirs_error := None; files_csv_error := None;
                    dirs_csv_error := None |} in
  let locked := example_world (Some locked_tree) in
  (has_nul (ROOT_DIRECTORY missing) = false /\
   walkable (root missing) = false /\
   clean_directory_run (H := example_runtime) (C := accepting_console)
     (ROOT_DIRECTORY missing) (root missing) FileStats_init
   = Returned None [] FileStats_init /\
   exit_status (snd (main (H := example_runtime) (C := accepting_console) missing)) = 0)
  /\
  (has_nul (ROOT_DIRECTORY locked) = false /\
   errors_printed (H := example_runtime) (C := accepting_console)
     (ROOT_DIRECTORY locked) (root locked) = true /\
   exists root' file_data stats,
     clean_directory_run (H := example_runtime) (C := accepting_console)
       (ROOT_DIRECTORY locked) (root locked) FileStats_init
     = Returned root' file_data stats /\
     total_files stats = Z.of_nat (files_in_reach locked_tree)).
Proof.
  cbv zeta. split.
  - destruct (unwalkable_root_comes_to_nothing (H := example_runtime)
                (C := accepting_console)
                {| ROOT_DIRECTORY := "/no/such/dir"; OUTPUT_DIRECTORY := "/out";
                   root := None;
                   timestamps := ("20240101_120000", "20240101_120001");
                   makedirs_error := None; files_csv_error := None;
                   dirs_csv_error := None |} eq_refl eq_refl) as [Hnone _].
    destruct (Hnone eq_refl) as [Hrun Hmain].
    destruct (Hmain (fun _ => eq_refl) eq_refl eq_refl eq_refl) as [_ Hstatus].
    split; [reflexivity|]. split; [reflexivity|].
    split; [exact Hrun | exact Hstatus].
  - assert (errors_printed (H := example_runtime) (C := accepting_console)
              "/data" (Some locked_tree) = true) as Hprinted
      by (vm_compute; reflexivity).
    destruct (unwalkable_root_comes_to_nothing (H := example_runtime)
                (C := accepting_console) (example_world (Some locked_tree))
                eq_refl eq_refl) as [_ Hwalked].
    split; [reflexivity|]. split; [exact Hprinted|].
    exact (Hwalked _ eq_refl Hprinted).
Defined.

(** * Further properties *)

(** ** The classifier, in full *)

Section ClassifierMore.

Lemma startswith_dot_underscore (s : string) :
  Str.startswith s "._" = true -> Str.startswith s "." = true.
Proof.
  unfold Str.startswith. rewrite !prefix_app. intros [post ->].
  exists (String "_" post). reflexivity.
Qed.

(** X1: a file is junk exactly when its name starts with a dot, or is
    [Thumbs.db], or its full path holds [.AppleDouble] somewhere. *)
Theorem should_clean_file_iff (filename filepath : string) :
  should_clean_file filename filepath = true <->
  Str.startswith filename "." = true \/
  filename = "Thumbs.db" \/
  exists pre post, filepath = pre +:+ ".AppleDouble" +:+ post.
Proof.
  unfold should_clean_file. rewrite <- contains_app.
  destruct (Str.startswith filename ".") eqn:Hdot; [intuition|].
  case_bool_decide as Hin.
  - split; [intros _ | reflexivity].
    destruct (CLEANUP_FILES_dot_or_thumbs _ Hin) as [Hd | ->]; [congruence | auto].
  - destruct (Str.startswith filename "._") eqn:Hfork.
    { apply startswith_dot_underscore in Hfork. congruence. }
    assert ("Thumbs.db" ∈ CLEANUP_FILES) as Hthumbs by (vm_compute; reflexivity).
    destruct (Str.contains filepath ".AppleDouble"); split.
    + intros _. auto.
    + reflexivity.
    + discriminate.
    + intros [Hd | [-> | Hc]]; [discriminate | contradiction | discriminate].
Qed.

(** X2: the rule on the names that start with [._] decides nothing: the
    rule on the dot comes first and catches every one of them. *)
Theorem resource_fork_rule_is_dead (filename filepath : string) :
  should_clean_file filename filepath
  = should_clean_file_without_resource_fork_rule filename filepath.
Proof.
  unfold should_clean_file, should_clean_file_without_resource_fork_rule.
  destruct (Str.startswith filename ".") eqn:Hdot; [reflexivity|].
  case_bool_decide; [reflexivity|].
  destruct (Str.startswith filename "._") eqn:Hfork; [|reflexivity].
  apply startswith_dot_underscore in Hfork. congruence.
Qed.

End ClassifierMore.

(** ** The directory structure, further *)

Section HierarchyMore.

Lemma sorted_NoDup_strict (l : list string) :
  StronglySorted (key_le id) l -> NoDup l ->
  StronglySorted (fun a b => String.ltb a b = true) l.
Proof.
  induction 1 as [|x l Hl IH Hx]; intros Hnd; [constructor|].
  apply NoDup_cons in Hnd as [Hnotin Hnd].
  constructor; [now apply IH|].
  apply List.Forall_forall. intros y Hy.
  rewrite List.Forall_forall in Hx. specialize (Hx y Hy).
  unfold key_le, id, String.leb in Hx. unfold String.ltb.
  destruct (String.compare x y) eqn:Hc; [|reflexivity|discriminate].
  apply String.compare_eq_iff in Hc. subst y.
  exfalso. apply Hnotin. now apply list_elem_of_In.
Qed.

(** X3: the directory records are sorted by [directory_path], strictly
    ascending in the order of Python on [str], whatever the records given. *)
Theorem directory_records_strictly_sorted (file_data : list file_info) :
  StronglySorted (fun a b => String.ltb a b = true)
    (map directory_path (get_directory_structure file_data)).
Proof.
  rewrite directory_paths. apply sorted_NoDup_strict.
  - apply sort_on_sorted.
  - rewrite sort_on_Permutation. apply NoDup_elements.
Qed.

(** One turn of the inner loop, with the segments it stands at. *)
Lemma add_level_eff (ne : list string) (w p : string) (D : gset string) :
  segments ne -> no_sep w = true -> no_sep p = true ->
  segments (eff ne w) /\
  add_level (path_of (ne ++ [w]), D) p
  = (path_of (eff ne w ++ [p]), D ∪ {[ path_of (eff ne w) ]}).
Proof.
  intros Hne Hw Hp. unfold eff, add_level.
  destruct w as [|a w]; cbn [Str.is_empty].
  - split; [exact Hne|]. destruct ne as [|v ne].
    + cbn [app Str.join Str.is_empty negb].
      assert (Posixpath.dirname p = EmptyString) as ->
        by (apply (dirname_path_of [] p); [constructor | exact Hp]).
      reflexivity.
    + rewrite (path_of_snoc (v :: ne) EmptyString) by discriminate.
      rewrite is_empty_app_r by discriminate. cbn [negb].
      unfold Posixpath.join. rewrite startswith_sep_no_sep by exact Hp.
      rewrite endswith_sep_snoc, orb_true_r.
      rewrite str_app_assoc, str_app_cons, str_app_empty_l.
      rewrite <- path_of_snoc by discriminate.
      now rewrite dirname_path_of.
  - assert (segments (ne ++ [String a w])) as Hall
      by (apply segments_snoc; [exact Hne | now apply no_sep_segment]).
    split; [exact Hall|].
    rewrite path_of_snoc_nonempty by (exact Hne || now apply no_sep_segment).
    cbn [negb]. rewrite join_path_of by assumption. now rewrite dirname_path_of.
Qed.

Lemma prefixes_in_snoc (e : list string) (p : string) (D : gset string) :
  prefixes_in e D -> prefixes_in (e ++ [p]) (D ∪ {[ path_of e ]}).
Proof.
  intros He pre rest Hpre Hrest Heq.
  destruct rest as [|y rest' _] using rev_ind; [congruence|].
  rewrite List.app_assoc in Heq. apply app_inj_tail in Heq as [-> _].
  apply elem_of_union. destruct rest' as [|z rest'].
  - right. rewrite app_nil_r. now apply elem_of_singleton.
  - left. apply (He pre (z :: rest')); [exact Hpre | discriminate | reflexivity].
Qed.

Lemma prefixes_in_mono (e : list string) (D D' : gset string) :
  prefixes_in e D -> D ⊆ D' -> prefixes_in e D'.
Proof. intros He Hsub pre rest H1 H2 H3. apply Hsub. eapply He; eassumption. Qed.

Lemma parent_closed_add (e : list string) (D : gset string) :
  segments e -> parent_closed D -> prefixes_in e D ->
  parent_closed (D ∪ {[ path_of e ]}).
Proof.
  intros Hseg HD He ws w Hws Hall [Hin | Heq%elem_of_singleton]%elem_of_union;
    apply elem_of_union; left.
  - now apply (HD ws w).
  - apply path_of_inj in Heq; [|assumption..]. subst e.
    apply (He ws [w]); [exact Hws | discriminate | reflexivity].
Qed.

Lemma add_level_fold_closed (parts ne : list string) (w : string) (D : gset string) :
  Forall (fun p => no_sep p = true) parts -> segments ne -> no_sep w = true ->
  parent_closed D -> prefixes_in (eff ne w) D ->
  parent_closed (snd (fold_left add_level parts (path_of (ne ++ [w]), D))).
Proof.
  revert ne w D.
  induction parts as [|p parts IH]; intros ne w D Hparts Hne Hw HD He; [exact HD|].
  inversion Hparts as [|? ? Hp Hrest]; subst. cbn [fold_left].
  destruct (add_level_eff ne w p D Hne Hw Hp) as [Heff ->].
  apply IH; try assumption.
  - now apply parent_closed_add.
  - unfold eff at 1. destruct (Str.is_empty p).
    + eapply prefixes_in_mono; [exact He|]. apply union_subseteq_l.
    + now apply prefixes_in_snoc.
Qed.

Lemma directories_closed (file_data : list file_info) (D : gset string) :
  parent_closed D -> parent_closed (fold_left add_levels file_data D).
Proof.
  revert D. induction file_data as [|fi file_data IH]; intros D HD; [exact HD|].
  cbn [fold_left]. apply IH. unfold add_levels.
  apply (add_level_fold_closed _ [] EmptyString);
    [apply split_no_sep | constructor | reflexivity | exact HD |].
  intros pre rest Hpre _ Heq. cbn in Heq. symmetry in Heq.
  now apply app_eq_nil in Heq as [-> _].
Qed.

(** X4: the parent of a directory record, when it is not the root, has a
    record of its own, one level up: the chain of ancestors is there in
    full, whatever the records given. *)
Theorem directory_record_parent_present (file_data : list file_info) (r : dir_info) :
  In r (get_directory_structure file_data) ->
  parent_directory r <> EmptyString ->
  exists r', In r' (get_directory_structure file_data) /\
             directory_path r' = parent_directory r /\
             depth r' = depth r - 1.
Proof.
  intros (p & -> & Hne & Hin)%in_get_directory_structure Hparent.
  pose proof Hin as Hclean.
  apply directories_clean in Hclean as (l & Hl & ->);
    [|intros d Hd; now apply elem_of_empty in Hd].
  destruct l as [|w ws _] using rev_ind; [now contradiction Hne|].
  pose proof (segments_snoc_inv _ _ Hl) as [Hws Hw].
  unfold make_dir_info in Hparent. rewrite path_of_snoc_nonempty in Hparent by assumption.
  cbn [negb parent_directory] in Hparent.
  rewrite dirname_path_of in Hparent by (exact Hws || now apply segment_no_sep).
  assert (ws <> []) as Hnonempty by (intros ->; now apply Hparent).
  exists (make_dir_info (path_of ws)). split.
  - apply in_get_directory_structure. exists (path_of ws).
    split; [reflexivity|]. split; [exact Hparent|].
    apply (directories_closed file_data ∅) with (w := w); try assumption.
    intros ws' w' _ _ Hempty. now apply elem_of_empty in Hempty.
  - assert (Str.is_empty (path_of ws) = false) as Hws_nonempty
      by (destruct (path_of ws); [now contradiction Hparent | reflexivity]).
    unfold make_dir_info. rewrite path_of_snoc_nonempty, Hws_nonempty by assumption.
    cbn [negb parent_directory directory_path depth].
    rewrite dirname_path_of by (exact Hws || now apply segment_no_sep).
    split; [reflexivity|].
    rewrite !split_path_of;
      try first [ assumption | now apply segments_no_sep | now destruct ws ].
    rewrite length_app. cbn [length]. lia.
Qed.

End HierarchyMore.

(** X4 at the record of [a/b], whose parent [a] has a record. *)
Lemma directory_record_parent_present_witness :
  let r := {| directory_path := "a/b"; depth := 2;
              parent_directory := "a"; directory_name := "b" |} in
  In r (get_directory_structure [example_record "a/b/report.txt"]) /\
  parent_directory r <> EmptyString /\
  exists r', In r' (get_directory_structure [example_record "a/b/report.txt"]) /\
             directory_path r' = "a" /\ depth r' = 2 - 1.
Proof.
  assert (In {| directory_path := "a/b"; depth := 2;
                parent_directory := "a"; directory_name := "b" |}
            (get_directory_structure [example_record "a/b/report.txt"])) as Hin
    by (vm_compute; right; left; reflexivity).
  split; [exact Hin|]. split; [discriminate|].
  exact (directory_record_parent_present _ _ Hin ltac:(discriminate)).
Defined.

Section HierarchyInputs.

(** Joining what [split] gives returns the string. *)
Lemma path_of_split (s : string) : path_of (Str.split Posixpath.sep s) = s.
Proof.
  induction s as [|a s IH]; [reflexivity|].
  destruct (Ascii.eqb a Posixpath.sep) eqn:Ha.
  - apply Ascii.eqb_eq in Ha as ->. rewrite split_cons_sep.
    rewrite path_of_cons by apply split_nonempty. now rewrite IH.
  - destruct (split_cons_other a s Ha) as (w & ws & Hs & ->).
    rewrite Hs in IH. destruct ws as [|v ws].
    + cbn in *. now subst.
    + rewrite path_of_cons in * by discriminate.
      rewrite str_app_cons. now rewrite IH.
Qed.

Lemma dirname_in_directory_paths (file_data : list file_info) (fi : file_info) :
  Forall (fun fi => normalized (relative_path fi) = true) file_data ->
  In fi file_data ->
  Posixpath.dirname (relative_path fi) <> EmptyString ->
  In (Posixpath.dirname (relative_path fi))
     (map directory_path (get_directory_structure file_data)).
Proof.
  intros Hall Hin Hdir.
  assert (segments (Str.split Posixpath.sep (relative_path fi))) as Hsegs.
  { apply normalized_segments. rewrite List.Forall_forall in Hall. now apply Hall. }
  pose proof (path_of_split (relative_path fi)) as Hjoin.
  pose proof (split_nonempty (relative_path fi)) as Hne.
  destruct (Str.split Posixpath.sep (relative_path fi)) as [|w ws _] eqn:Hsplit
    using rev_ind; [congruence|].
  apply segments_snoc_inv in Hsegs as [Hws Hw].
  rewrite <- Hjoin in Hdir |- *.
  rewrite dirname_path_of in * by (exact Hws || now apply segment_no_sep).
  rewrite directory_paths.
  apply (Permutation_in _ (Permutation_sym (sort_on_Permutation id _))).
  apply list_elem_of_In, elem_of_elements, elem_of_difference. split.
  - apply directories_of_normalized; [exact Hall|]. right.
    exists fi, (length ws). split; [exact Hin|]. rewrite Hsplit. split.
    + rewrite length_app. cbn [length]. lia.
    + now rewrite take_app_length.
  - intros Hempty%elem_of_singleton. now apply Hdir.
Qed.

(** X5: the directory that holds a file, when it is not the root, has a
    directory record, for records with normalized relative paths. *)
Theorem file_directory_has_record (file_data : list file_info) (fi : file_info) :
  Forall (fun fi => normalized (relative_path fi) = true) file_data ->
  In fi file_data ->
  Posixpath.dirname (relative_path fi) <> EmptyString ->
  In (Posixpath.dirname (relative_path fi))
     (map directory_path (get_directory_structure file_data)).
Proof. apply dirname_in_directory_paths. Qed.

(** The directories collected do not depend on those collected before. *)
Lemma add_level_fold_frame (parts : list string) (cur : string) (D : gset string)
    (d : string) :
  d ∈ snd (fold_left add_level parts (cur, D)) <->
  d ∈ D \/ d ∈ snd (fold_left add_level parts (cur, ∅)).
Proof.
  revert cur D. induction parts as [|p parts IH]; intros cur D.
  - cbn [fold_left snd]. pose proof (not_elem_of_empty (C := gset string) d). tauto.
  - cbn [fold_left]. unfold add_level at 2 4.
    rewrite IH. rewrite (IH _ (∅ ∪ _)). rewrite !elem_of_union.
    pose proof (not_elem_of_empty (C := gset string) d). tauto.
Qed.

Lemma add_levels_frame (D : gset string) (fi : file_info) (d : string) :
  d ∈ add_levels D fi <-> d ∈ D \/ d ∈ add_levels ∅ fi.
Proof. apply add_level_fold_frame. Qed.

Lemma directories_frame (file_data : list file_info) (D : gset string) (d : string) :
  d ∈ fold_left add_levels file_data D <->
  d ∈ D \/ exists fi, In fi file_data /\ d ∈ add_levels ∅ fi.
Proof.
  revert D. induction file_data as [|fi file_data IH]; intros D.
  - cbn [fold_left]. split; [now left | intros [Hd | (fi & [] & _)]; exact Hd].
  - cbn [fold_left]. rewrite IH, add_levels_frame. split.
    + intros [[Hd | Hd] | (fi' & Hin & Hd)].
      * now left.
      * right. exists fi. split; [now left | exact Hd].
      * right. exists fi'. split; [now right | exact Hd].
    + intros [Hd | (fi' & [<- | Hin] & Hd)].
      * now left; left.
      * now left; right.
      * right. eauto.
Qed.

Lemma add_levels_by_path (fi fi' : file_info) :
  relative_path fi = relative_path fi' -> add_levels ∅ fi = add_levels ∅ fi'.
Proof. unfold add_levels. now intros ->. Qed.

(** X6: the directory records depend on the set of the relative paths
    alone: records in another order, or given twice, or that differ in
    their other fields, give the same list. *)
Theorem directory_structure_by_paths (file_data file_data' : list file_info) :
  (forall p, In p (map relative_path file_data) <-> In p (map relative_path file_data')) ->
  get_directory_structure file_data = get_directory_structure file_data'.
Proof.
  intros Hsame. unfold get_directory_structure. do 3 f_equal.
  assert (forall l l' : list file_info,
            (forall p, In p (map relative_path l) -> In p (map relative_path l')) ->
            forall d, d ∈ fold_left add_levels l (∅ : gset string) ->
                      d ∈ fold_left add_levels l' (∅ : gset string)) as Hincl.
  { intros l l' Hsub d [Hd | (fi & Hin & Hd)]%directories_frame;
      [now apply elem_of_empty in Hd|].
    apply (in_map relative_path), Hsub, in_map_iff in Hin as (fi' & Hpath & Hin').
    apply directories_frame. right. exists fi'. split; [exact Hin'|].
    now rewrite (add_levels_by_path fi' fi Hpath). }
  apply set_eq. intros d. rewrite !elem_of_difference.
  split; intros [Hd Hne]; (split; [|exact Hne]);
    eapply Hincl; try exact Hd; intros p; apply Hsame.
Qed.

End HierarchyInputs.

(** X5 at [a/b/report.txt], whose directory is [a/b]. *)
Lemma file_directory_has_record_witness :
  let file_data := [example_record "a/b/report.txt"; example_record "notes.txt"] in
  Forall (fun fi => normalized (relative_path fi) = true) file_data /\
  In "a/b" (map directory_path (get_directory_structure file_data)).
Proof.
  assert (Forall (fun fi => normalized (relative_path fi) = true)
            [example_record "a/b/report.txt"; example_record "notes.txt"]) as Hall
    by (repeat constructor).
  split; [exact Hall|].
  exact (file_directory_has_record _ (example_record "a/b/report.txt") Hall
           (or_introl eq_refl) ltac:(discriminate)).
Defined.

(** X6 at two records given in the two orders. *)
Lemma directory_structure_by_paths_witness :
  get_directory_structure [example_record "a/b/report.txt"; example_record "c/d.txt"]
  = get_directory_structure [example_record "c/d.txt"; example_record "a/b/report.txt"].
Proof.
  apply directory_structure_by_paths. intros p. cbn. tauto.
Defined.

(** ** The walk, visit by visit *)

Section VisitMore.
Context `{Runtime}.

Lemma visit_file_error root_path chain name f s :
  errors (stats (snd (visit_file root_path (descend root_path chain) name f s)))
  = errors (stats s)
    ++ option_list (error_for root_path {| v_chain := chain; v_name := name; v_file := f |}).
Proof.
  unfold visit_file, error_for. cbn [v_chain v_name v_file].
  destruct (should_clean_file name _).
  - destruct (getsize f), (os_remove_error f); cbn; now rewrite ?app_nil_r.
  - destruct (os_stat f) as [file_stats|e]; [|reflexivity].
    destruct (Posixpath.relpath getcwd _ root_path); [|reflexivity].
    destruct (strftime (st_mtime file_stats)); cbn; now rewrite ?app_nil_r.
Qed.

Lemma visit_all_errors root_path vs s :
  errors (stats (visit_all root_path vs s))
  = errors (stats s) ++ omap (error_for root_path) vs.
Proof.
  revert s. induction vs as [|[chain name f] vs IH]; intros s.
  - cbn. now rewrite app_nil_r.
  - unfold visit_all in *. cbn [fold_left v_chain v_name v_file].
    rewrite IH, visit_file_error. cbn [omap list_omap].
    destruct (error_for root_path _); cbn [option_list];
      now rewrite <- ?List.app_assoc, ?app_nil_r.
Qed.

Lemma visit_file_cleaned root_path chain name f s :
  cleaned_files (stats (snd (visit_file root_path (descend root_path chain) name f s)))
  = cleaned_files (stats s)
    + (if removed root_path {| v_chain := chain; v_name := name; v_file := f |}
       then 1 else 0).
Proof.
  unfold visit_file, removed, junk. cbn [v_chain v_name v_file].
  destruct (should_clean_file name _); cbn [andb].
  - destruct (getsize f), (os_remove_error f); cbn; lia.
  - repeat match goal with
           | |- context [match ?x with _ => _ end] => destruct x
           end; cbn; lia.
Qed.

Lemma visit_all_cleaned root_path vs s :
  cleaned_files (stats (visit_all root_path vs s))
  = cleaned_files (stats s) + Z.of_nat (length (List.filter (removed root_path) vs)).
Proof.
  revert s. induction vs as [|[chain name f] vs IH]; intros s.
  - cbn. lia.
  - unfold visit_all in *. cbn [fold_left List.filter v_chain v_name v_file].
    rewrite IH, visit_file_cleaned.
    destruct (removed root_path _); cbn [length]; lia.
Qed.

(** A visit ends in one way: the file removed, or a record, or an error. *)
Lemma visit_outcome root_path v :
  (removed root_path v = true /\ record_for root_path v = None
   /\ error_for root_path v = None) \/
  (removed root_path v = false /\ (exists r, record_for root_path v = Some r)
   /\ error_for root_path v = None) \/
  (removed root_path v = false /\ record_for root_path v = None
   /\ exists e, error_for root_path v = Some e).
Proof.
  unfold removed, junk, record_for, error_for.
  destruct (should_clean_file _ _); cbn [andb].
  - destruct (os_remove_error (v_file v)); [right; right | left]; eauto.
  - right. destruct (os_stat (v_file v)) as [file_stats|e]; [|right; eauto].
    destruct (Posixpath.relpath getcwd _ root_path); [|right; eauto].
    destruct (strftime _); [left | right]; eauto.
Qed.

Lemma removed_junk root_path v : removed root_path v = true -> junk root_path v = true.
Proof. unfold removed. now intros [? _]%andb_true_iff. Qed.

Lemma record_for_not_junk root_path v r :
  record_for root_path v = Some r -> junk root_path v = false.
Proof.
  unfold record_for, junk. now destruct (should_clean_file _ _).
Qed.

Lemma record_for_fields root_path v r :
  record_for root_path v = Some r ->
  filename r = v_name v /\ directory r = Posixpath.dirname (relative_path r).
Proof.
  unfold record_for. destruct (should_clean_file _ _); [discriminate|].
  destruct (os_stat (v_file v)) as [file_stats|]; [|discriminate].
  destruct (Posixpath.relpath getcwd _ root_path); [|discriminate].
  destruct (strftime _); [|discriminate].
  intros [= <-]. split; reflexivity.
Qed.

End VisitMore.

(** ** What a walk leaves on disk *)

Section Leaves.
Context `{Runtime}.
Variable root_path : string.

Lemma visit_files_kept chain files s :
  fst (visit_files root_path (descend root_path chain) files s)
  = List.filter
      (fun e => negb (removed root_path
                        {| v_chain := chain; v_name := fst e; v_file := snd e |}))
      files.
Proof.
  revert s. induction files as [|e rest IH]; intros s; [reflexivity|].
  cbn [visit_files List.filter].
  pose proof (visit_file_removed root_path chain (fst e) (snd e) s) as Hr.
  destruct (visit_file root_path (descend root_path chain) (fst e) (snd e) s)
    as [gone s1].
  specialize (IH s1).
  destruct (visit_files root_path (descend root_path chain) rest s1) as [kept s2].
  cbn [fst] in *. rewrite <- Hr, IH. now destruct gone.
Qed.

Lemma walk_subdirs_leaves (fuel fuel2 : nat) (chain : list string)
    (subdirs : list (string * option listing)) (s : state) :
  leaves_at root_path fuel fuel2 ->
  (forall d sub, In (d, Some sub) subdirs -> (height (Dir (Some sub)) <= fuel)%nat) ->
  let r := walk_subdirs (walk fuel root_path) (descend root_path chain) subdirs s in
  (forall d sub, In (d, Some sub) (fst r) -> (height (Dir (Some sub)) <= fuel2)%nat) ->
  map fst (fst r) = map fst subdirs /\
  visits_below fuel2 chain (fst r)
  = List.filter (fun v => negb (removed root_path v)) (visits_below fuel chain subdirs).
Proof.
  intros Hleaves. revert s.
  induction subdirs as [|[d [sub|]] rest IH]; intros s Hfuel r; subst r.
  - intros _. split; reflexivity.
  - cbn [walk_subdirs]. rewrite descend_snoc.
    pose proof (Hleaves (chain ++ [d]) sub s (Hfuel d sub (or_introl eq_refl))) as Hd.
    destruct (walk fuel root_path (descend root_path (chain ++ [d])) sub s)
      as [sub' s1].
    specialize (IH s1 (fun d' sub' Hin => Hfuel d' sub' (or_intror Hin))).
    destruct (walk_subdirs (walk fuel root_path) (descend root_path chain) rest s1)
      as [rest' s2].
    cbn [fst snd] in *. intros Hfuel2.
    destruct (IH (fun d' sub'' Hin => Hfuel2 d' sub'' (or_intror Hin)))
      as [IHnames IHvisits].
    split; [cbn [map fst]; now rewrite IHnames|].
    unfold visits_below in *. cbn [flat_map fst snd].
    rewrite List.filter_app, <- IHvisits.
    rewrite (Hd (Hfuel2 d sub' (or_introl eq_refl))). reflexivity.
  - cbn [walk_subdirs].
    specialize (IH s (fun d' sub' Hin => Hfuel d' sub' (or_intror Hin))).
    destruct (walk_subdirs (walk fuel root_path) (descend root_path chain) rest s)
      as [rest' s2].
    cbn [fst snd] in *. intros Hfuel2.
    destruct IH as [IHnames IHvisits].
    { intros d' sub' Hin. apply (Hfuel2 d' sub'). right. exact Hin. }
    split; [cbn [map fst]; now rewrite IHnames|].
    unfold visits_below in *. cbn [flat_map fst snd app]. exact IHvisits.
Qed.

Lemma walk_leaves (fuel : nat) : forall fuel2, leaves_at root_path fuel fuel2.
Proof.
  induction fuel as [|fuel IH]; intros fuel2 chain entries s Hh.
  - cbn [height] in Hh. lia.
  - destruct fuel2 as [|fuel2]; [intros r Hh2; cbn [height] in Hh2; lia|].
    cbn zeta. cbn [walk visited].
    pose proof (sort_on_sorted fst (nondirs entries)) as Hfiles_sorted.
    pose proof (sort_on_sorted fst (dirs entries)) as Hdirs_sorted.
    pose proof (sort_on_Permutation fst (dirs entries)) as Hdirs_perm.
    set (files := sort_on fst (nondirs entries)) in *.
    set (sorted := sort_on fst (dirs entries)) in *.
    set (dirnames := List.filter (fun d => negb (hidden d)) sorted).
    set (pruned := List.filter hidden sorted).
    pose proof (visit_files_kept chain files s) as Hkept.
    destruct (visit_files root_path (descend root_path chain) files s) as [kept s1].
    pose proof (walk_subdirs_leaves fuel fuel2 chain dirnames s1 (IH fuel2)) as Hsub.
    destruct (walk_subdirs (walk fuel root_path) (descend root_path chain) dirnames s1)
      as [walked s2].
    cbn [fst snd] in *. intros Hh2. subst kept.
    destruct Hsub as [Hnames Hvisits].
    { intros d sub Hin. apply filter_In in Hin as [Hin _].
      apply (Permutation_in _ Hdirs_perm), in_dirs, height_entry in Hin.
      cbn [dir_entry fst snd] in Hin. lia. }
    { intros d sub' Hin.
      match type of Hh2 with (height (Dir (Some ?l)) <= _)%nat =>
        assert (In (dir_entry (d, Some sub')) l) as Hin'
      end.
      { apply in_or_app. right. apply in_or_app. left.
        now apply (in_map dir_entry) in Hin. }
      apply height_entry in Hin'. cbn [dir_entry fst snd] in Hin'. lia. }
    rewrite !nondirs_app, nondirs_files, !nondirs_dirs, !app_nil_r.
    rewrite !dirs_app, dirs_files, !dirs_dirs. cbn [app].
    rewrite List.filter_app. f_equal.
    + rewrite sort_on_sorted_id by (now apply filter_sorted).
      rewrite filter_map_comm. reflexivity.
    + fold (visits_below fuel2 chain
              (List.filter (fun d => negb (hidden d)) (sort_on fst (walked ++ pruned)))).
      fold (visits_below fuel chain dirnames). rewrite <- Hvisits. f_equal.
      rewrite filter_sort_on, List.filter_app.
      assert (forall x, In x dirnames -> hidden x = false) as Hshown.
      { intros x Hx. apply filter_In in Hx as [_ Hx]. now apply negb_true_iff in Hx. }
      rewrite (filter_all _ walked).
      2:{ intros x Hx. apply negb_true_iff.
          now apply (hidden_by_name dirnames walked (eq_sym Hnames) Hshown). }
      rewrite (filter_none _ pruned).
      2:{ intros x Hx. apply filter_In in Hx as [_ Hx]. now rewrite Hx. }
      rewrite app_nil_r. apply sort_on_sorted_id.
      apply (sorted_by_keys fst fst dirnames walked (eq_sym Hnames)).
      now apply filter_sorted.
Qed.

(** The visits of the tree that [clean_directory] leaves: those that did
    not remove their file, the links among them settled. *)
Lemma clean_directory_leaves entries st :
  let run := clean_directory root_path (Some (Dir (Some entries))) st in
  exists entries',
    fst (fst run) = Some (Dir (Some entries')) /\
    visited (height (Dir (Some entries'))) [] entries'
    = map (settle_visit (removed_paths root_path entries) root_path)
        (List.filter (fun v => negb (removed root_path v))
           (visited (height (Dir (Some entries))) [] entries)).
Proof.
  intros run. subst run. rewrite clean_directory_walk. cbn [fst].
  set (s0 := {| stats := st; file_data := [] |}).
  set (w := walk (height (Dir (Some entries))) root_path root_path entries s0).
  eexists. split; [reflexivity|].
  pose proof (walk_leaves (height (Dir (Some entries))) (height (Dir (Some (fst w))))
                [] entries s0 (le_n _)) as Hl.
  cbn zeta in Hl. change (descend root_path []) with root_path in Hl.
  fold w in Hl. specialize (Hl (le_n _)).
  rewrite height_settle_entries.
  pose proof (visited_settle root_path (removed_paths root_path entries)
                (height (Dir (Some (fst w)))) [] (fst w)) as Hs.
  change (descend root_path []) with root_path in Hs.
  now rewrite Hs, Hl.
Qed.

End Leaves.

(** ** The records, further *)

Section RecordsMore.
Context `{Runtime}.

Lemma visited_shown (fuel : nat) (chain : list string) (entries : listing) :
  Forall (fun n => Str.startswith n "." = false) chain ->
  Forall (fun v => Forall (fun n => Str.startswith n "." = false) (v_chain v))
    (visited fuel chain entries).
Proof.
  revert chain entries. induction fuel as [|fuel IH]; intros chain entries Hchain;
    [constructor|].
  cbn [visited]. apply Forall_app. split.
  - apply List.Forall_forall. intros v (e & <- & _)%in_map_iff. exact Hchain.
  - apply List.Forall_forall. intros v (d & Hd & Hv)%in_flat_map.
    apply filter_In in Hd as [_ Hshown]. apply negb_true_iff in Hshown.
    destruct d as [name [sub|]]; cbn [snd fst] in Hv; [|destruct Hv].
    assert (Forall (fun n => Str.startswith n "." = false) (chain ++ [name])) as Hc
      by (apply Forall_app; split; [exact Hchain | now repeat constructor]).
    specialize (IH (chain ++ [name]) sub Hc).
    rewrite List.Forall_forall in IH. now apply IH.
Qed.

Lemma junk_dot root_path v :
  junk root_path v = false -> Str.startswith (v_name v) "." = false.
Proof.
  unfold junk, should_clean_file. now destruct (Str.startswith (v_name v) ".").
Qed.

(** Going down a chain of names, one [os.path.join] at a time, is one
    [os.path.join] with the names joined. *)
Lemma descend_path_of (root_path : string) (names : list string) :
  names <> [] -> segments names ->
  descend root_path names = Posixpath.join root_path (path_of names).
Proof.
  induction names as [|n names IH] using rev_ind; [congruence|].
  intros _ [Hnames Hn]%segments_snoc_inv. rewrite <- descend_snoc.
  destruct names as [|m names]; [reflexivity|].
  rewrite IH by (discriminate || assumption).
  rewrite <- join_path_of by (exact Hnames || now apply segment_no_sep).
  symmetry. apply join_join.
  - intros Hempty. now apply path_of_empty in Hempty.
  - destruct (path_of_head (m :: names)) as (a & s & -> & Ha);
      [discriminate | exact Hnames |].
    unfold Posixpath.isabs. now rewrite startswith_sep_cons.
  - now apply segment_no_sep.
Qed.

(** What holds of every record, read off the visit it is the record of. *)
Lemma record_for_facts root_path v r :
  wf_names (key v) ->
  Forall (fun n => Str.startswith n "." = false) (v_chain v) ->
  record_for root_path v = Some r ->
  Forall (fun w => Str.startswith w "." = false)
    (Str.split Posixpath.sep (relative_path r)) /\
  filename r = Posixpath.basename (relative_path r) /\
  directory r = Posixpath.dirname (relative_path r) /\
  Posixpath.join (directory r) (filename r) = relative_path r /\
  should_clean_file (filename r) (Posixpath.join root_path (relative_path r)) = false.
Proof.
  intros Hkey Hshown Hrec.
  pose proof (record_for_relative_path root_path v r Hkey Hrec) as Hpath.
  pose proof (record_for_fields root_path v r Hrec) as [Hname Hdir].
  pose proof (record_for_not_junk root_path v r Hrec) as Hjunk.
  pose proof (wf_names_segments _ Hkey) as Hsegs.
  unfold key in *. pose proof (segments_snoc_inv _ _ Hsegs) as [Hchain Hseg].
  pose proof (segment_no_sep _ Hseg) as Hns.
  rewrite Hdir, Hname, Hpath.
  rewrite dirname_path_of, basename_path_of by assumption.
  split; [|split; [|split; [|split]]]; try reflexivity.
  - rewrite split_path_of;
      [| now destruct (v_chain v) | now apply segments_no_sep].
    apply Forall_app. split; [exact Hshown|].
    constructor; [now apply (junk_dot root_path) | constructor].
  - now apply join_path_of.
  - unfold junk in Hjunk. rewrite descend_snoc in Hjunk.
    rewrite descend_path_of in Hjunk; [exact Hjunk | now destruct (v_chain v) | exact Hsegs].
Qed.

(** The facts of [record_for_facts] for every record returned. *)
Lemma clean_directory_record_facts (root_path : string) (root : option node)
    (st : FileStats) :
  wf_root root = true ->
  Forall (fun r =>
            Forall (fun w => Str.startswith w "." = false)
              (Str.split Posixpath.sep (relative_path r)) /\
            filename r = Posixpath.basename (relative_path r) /\
            directory r = Posixpath.dirname (relative_path r) /\
            Posixpath.join (directory r) (filename r) = relative_path r /\
            should_clean_file (filename r)
              (Posixpath.join root_path (relative_path r)) = false)
    (snd (fst (clean_directory root_path root st))).
Proof.
  intros Hwf. destruct root as [[f|[entries|]]|]; try constructor.
  rewrite clean_directory_result.
  rewrite (sort_on_Permutation relative_path).
  destruct (visited_good (height (Dir (Some entries))) [] entries) as (Hkeys & _ & _);
    [constructor | exact Hwf |].
  pose proof (visited_shown (height (Dir (Some entries))) [] entries
                ltac:(constructor)) as Hshown.
  apply List.Forall_forall. intros r Hr.
  apply list_elem_of_In, list_elem_of_omap in Hr as (v & Hv%list_elem_of_In & Hrec).
  rewrite List.Forall_forall in Hkeys, Hshown.
  now apply (record_for_facts root_path v r (Hkeys v Hv) (Hshown v Hv)).
Qed.

(** X7: on a tree as a file system has them, no segment of the relative
    path of a record starts with a dot: no record is of a file in a hidden
    directory, at any depth, nor of a hidden file. *)
Theorem record_paths_have_no_hidden_segment (root_path : string) (root : option node)
    (st : FileStats) :
  wf_root root = true ->
  Forall (fun r => Forall (fun w => Str.startswith w "." = false)
                     (Str.split Posixpath.sep (relative_path r)))
    (snd (fst (clean_directory root_path root st))).
Proof.
  intros Hwf. eapply Forall_impl; [now apply clean_directory_record_facts|].
  now intros r (Hshown & _).
Qed.

(** X8: on a tree as a file system has them, the [filename] of a record is
    the base name of its relative path and its [directory] the directory
    name, so that [os.path.join] of the two is the relative path. *)
Theorem record_fields_agree (root_path : string) (root : option node) (st : FileStats) :
  wf_root root = true ->
  Forall (fun r => filename r = Posixpath.basename (relative_path r) /\
                   directory r = Posixpath.dirname (relative_path r) /\
                   Posixpath.join (directory r) (filename r) = relative_path r)
    (snd (fst (clean_directory root_path root st))).
Proof.
  intros Hwf. eapply Forall_impl; [now apply clean_directory_record_facts|].
  now intros r (_ & Hname & Hdir & Hjoin & _).
Qed.

(** X9: on a tree as a file system has them, the classifier rejects the
    file of every record, at [os.path.join] of the root and the relative
    path: no record is one of a junk file. *)
Theorem records_are_not_junk (root_path : string) (root : option node) (st : FileStats) :
  wf_root root = true ->
  Forall (fun r => should_clean_file (filename r)
                     (Posixpath.join root_path (relative_path r)) = false)
    (snd (fst (clean_directory root_path root st))).
Proof.
  intros Hwf. eapply Forall_impl; [now apply clean_directory_record_facts|].
  now intros r (_ & _ & _ & _ & Hjunk).
Qed.

End RecordsMore.

(** X7 at [example_tree]. *)
Lemma record_paths_have_no_hidden_segment_witness :
  wf_root (Some example_tree) = true /\
  Forall (fun r => Forall (fun w => Str.startswith w "." = false)
                     (Str.split Posixpath.sep (relative_path r)))
    (snd (fst (clean_directory (H := example_runtime) "/data" (Some example_tree)
                 FileStats_init))).
Proof.
  assert (wf_root (Some example_tree) = true) as Hwf by (vm_compute; reflexivity).
  split; [exact Hwf|].
  exact (record_paths_have_no_hidden_segment (H := example_runtime) "/data"
           (Some example_tree) FileStats_init Hwf).
Defined.

(** X8 at [example_tree]. *)
Lemma record_fields_agree_witness :
  wf_root (Some example_tree) = true /\
  Forall (fun r => filename r = Posixpath.basename (relative_path r) /\
                   directory r = Posixpath.dirname (relative_path r) /\
                   Posixpath.join (directory r) (filename r) = relative_path r)
    (snd (fst (clean_directory (H := example_runtime) "/data" (Some example_tree)
                 FileStats_init))).
Proof.
  assert (wf_root (Some example_tree) = true) as Hwf by (vm_compute; reflexivity).
  split; [exact Hwf|].
  exact (record_fields_agree (H := example_runtime) "/data"
           (Some example_tree) FileStats_init Hwf).
Defined.

(** X9 at [example_tree]. *)
Lemma records_are_not_junk_witness :
  wf_root (Some example_tree) = true /\
  Forall (fun r => should_clean_file (filename r)
                     (Posixpath.join "/data" (relative_path r)) = false)
    (snd (fst (clean_directory (H := example_runtime) "/data" (Some example_tree)
                 FileStats_init))).
Proof.
  assert (wf_root (Some example_tree) = true) as Hwf by (vm_compute; reflexivity).
  split; [exact Hwf|].
  exact (records_are_not_junk (H := example_runtime) "/data"
           (Some example_tree) FileStats_init Hwf).
Defined.

(** ** What a run leaves and counts *)

Section Counts.
Context `{Runtime}.
Variable root_path : string.

Lemma clean_directory_stats entries st :
  snd (clean_directory root_path (Some (Dir (Some entries))) st)
  = stats (visit_all root_path (visited (height (Dir (Some entries))) [] entries)
             {| stats := st; file_data := [] |}).
Proof.
  rewrite clean_directory_walk. cbn [snd].
  pose proof (walk_visits (height (Dir (Some entries))) root_path [] entries
                {| stats := st; file_data := [] |}) as Hw.
  change (descend root_path []) with root_path in Hw. now rewrite Hw.
Qed.

Lemma outcome_count (vs : list visit) :
  length (List.filter (fun v => negb (removed root_path v)) vs)
  = (length (omap (record_for root_path) vs)
     + length (omap (error_for root_path) vs))%nat.
Proof.
  induction vs as [|v vs IH]; [reflexivity|].
  cbn [List.filter omap list_omap].
  fold (omap (record_for root_path) vs). fold (omap (error_for root_path) vs).
  destruct (visit_outcome root_path v)
    as [(-> & -> & ->) | [(-> & [r ->] & ->) | (-> & -> & [e ->])]];
    cbn [negb length]; lia.
Qed.

Lemma removed_count (vs : list visit) :
  (length (List.filter (removed root_path) vs)
   + length (List.filter (fun v => negb (removed root_path v)) vs))%nat
  = length vs.
Proof.
  induction vs as [|v vs IH]; [reflexivity|]. cbn [List.filter].
  destruct (removed root_path v); cbn [negb length]; lia.
Qed.

(** X10: the files in reach after a run are those in reach before it less
    the files counted as cleaned, and they are as many as the records
    returned and the errors logged together. *)
Theorem files_left_in_reach (root : option node) :
  let run := clean_directory root_path root FileStats_init in
  Z.of_nat (from_option files_in_reach 0%nat (fst (fst run)))
  = Z.of_nat (from_option files_in_reach 0%nat root) - cleaned_files (snd run)
  /\ Z.of_nat (from_option files_in_reach 0%nat (fst (fst run)))
     = Z.of_nat (length (snd (fst run))) + Z.of_nat (length (errors (snd run))).
Proof.
  destruct root as [[f|[entries|]]|]; try (split; reflexivity).
  intros run. subst run.
  destruct (clean_directory_leaves root_path entries FileStats_init)
    as (entries' & Hroot & Hvisits).
  rewrite Hroot, clean_directory_stats, clean_directory_result.
  cbn [from_option]. rewrite sort_on_length.
  rewrite <- (visited_length (height (Dir (Some entries'))) [] entries') by apply le_n.
  rewrite <- (visited_length (height (Dir (Some entries))) [] entries) by apply le_n.
  rewrite Hvisits, length_map, visit_all_cleaned, visit_all_errors. cbn [stats].
  change (cleaned_files FileStats_init) with 0.
  change (errors FileStats_init) with (@nil string). cbn [app].
  pose proof (removed_count (visited (height (Dir (Some entries))) [] entries)).
  pose proof (outcome_count (visited (height (Dir (Some entries))) [] entries)).
  split; lia.
Qed.


Lemma omap_nil_inv {A B} (f : A -> option B) (l : list A) :
  omap f l = [] -> forall x, In x l -> f x = None.
Proof.
  induction l as [|y l IH]; intros Hnil x Hx; [destruct Hx|].
  cbn [omap list_omap] in Hnil. fold (omap f l) in Hnil.
  destruct (f y) eqn:Hy; [discriminate|].
  destruct Hx as [<- | Hx]; [exact Hy | now apply IH].
Qed.



End Counts.


(** ** Statistics handed in *)

Section Frame.
Context `{Runtime}.

Lemma visit_file_fst_indep root_path dirpath name f s s' :
  fst (visit_file root_path dirpath name f s)
  = fst (visit_file root_path dirpath name f s').
Proof.
  unfold visit_file.
  repeat match goal with
         | |- context [if ?b then _ else _] => destruct b
         | |- context [match ?x with _ => _ end] => destruct x
         end; reflexivity.
Qed.

Lemma visit_files_fst_indep root_path dirpath files s s' :
  fst (visit_files root_path dirpath files s)
  = fst (visit_files root_path dirpath files s').
Proof.
  revert s s'. induction files as [|e rest IH]; intros s s'; [reflexivity|].
  cbn [visit_files].
  pose proof (visit_file_fst_indep root_path dirpath (fst e) (snd e) s s') as He.
  destruct (visit_file root_path dirpath (fst e) (snd e) s) as [gone s1].
  destruct (visit_file root_path dirpath (fst e) (snd e) s') as [gone' s1'].
  specialize (IH s1 s1').
  destruct (visit_files root_path dirpath rest s1) as [kept s2].
  destruct (visit_files root_path dirpath rest s1') as [kept' s2'].
  cbn [fst] in *. now subst.
Qed.

Lemma walk_subdirs_fst_indep walk_into top subdirs s s' :
  (forall p entries t t', fst (walk_into p entries t) = fst (walk_into p entries t')) ->
  fst (walk_subdirs walk_into top subdirs s) = fst (walk_subdirs walk_into top subdirs s').
Proof.
  intros Hinto. revert s s'.
  induction subdirs as [|[d [sub|]] rest IH]; intros s s'; [reflexivity| |].
  - cbn [walk_subdirs].
    pose proof (Hinto (Posixpath.join top d) sub s s') as Hd.
    destruct (walk_into (Posixpath.join top d) sub s) as [sub1 s1].
    destruct (walk_into (Posixpath.join top d) sub s') as [sub1' s1'].
    specialize (IH s1 s1').
    destruct (walk_subdirs walk_into top rest s1) as [rest1 s2].
    destruct (walk_subdirs walk_into top rest s1') as [rest1' s2'].
    cbn [fst] in *. now subst.
  - cbn [walk_subdirs]. specialize (IH s s').
    destruct (walk_subdirs walk_into top rest s) as [rest1 s2].
    destruct (walk_subdirs walk_into top rest s') as [rest1' s2'].
    cbn [fst] in *. now subst.
Qed.

(** The entries that a walk leaves do not depend on the state it starts
    from. *)
Lemma walk_fst_indep fuel root_path top entries s s' :
  fst (walk fuel root_path top entries s) = fst (walk fuel root_path top entries s').
Proof.
  revert top entries s s'. induction fuel as [|fuel IH]; intros top entries s s';
    [reflexivity|].
  cbn [walk].
  pose proof (visit_files_fst_indep root_path top (sort_on fst (nondirs entries)) s s')
    as Hf.
  destruct (visit_files root_path top (sort_on fst (nondirs entries)) s) as [kept s1].
  destruct (visit_files root_path top (sort_on fst (nondirs entries)) s') as [kept' s1'].
  match goal with |- context [walk_subdirs ?w ?t ?l s1] =>
    pose proof (walk_subdirs_fst_indep w t l s1 s1' (IH)) as Hd;
    destruct (walk_subdirs w t l s1) as [walked s2];
    destruct (walk_subdirs w t l s1') as [walked' s2']
  end.
  cbn [fst] in *. now subst.
Qed.

Lemma FileStats_add_init (st : FileStats) : FileStats_add st FileStats_init = st.
Proof.
  destruct st as [t c z e]. unfold FileStats_add. cbn.
  rewrite !Z.add_0_r, app_nil_r. reflexivity.
Qed.

Lemma visit_all_stats_add root_path vs st :
  stats (visit_all root_path vs {| stats := st; file_data := [] |})
  = FileStats_add st
      (stats (visit_all root_path vs {| stats := FileStats_init; file_data := [] |})).
Proof.
  pose proof (visit_all_total root_path vs {| stats := st; file_data := [] |}) as T1.
  pose proof (visit_all_total root_path vs {| stats := FileStats_init; file_data := [] |}) as T0.
  pose proof (visit_all_cleaned root_path vs {| stats := st; file_data := [] |}) as C1.
  pose proof (visit_all_cleaned root_path vs {| stats := FileStats_init; file_data := [] |}) as C0.
  pose proof (visit_all_cleaned_size root_path vs {| stats := st; file_data := [] |}) as Z1.
  pose proof (visit_all_cleaned_size root_path vs {| stats := FileStats_init; file_data := [] |}) as Z0.
  pose proof (visit_all_errors root_path vs {| stats := st; file_data := [] |}) as E1.
  pose proof (visit_all_errors root_path vs {| stats := FileStats_init; file_data := [] |}) as E0.
  cbn [stats] in *.
  destruct (stats (visit_all root_path vs {| stats := st; file_data := [] |}))
    as [t c z e].
  destruct (stats (visit_all root_path vs {| stats := FileStats_init; file_data := [] |}))
    as [t0 c0 z0 e0].
  unfold FileStats_add. cbn in *. subst. f_equal; lia.
Qed.

(** X13: statistics handed in are added to, never reset: a run on
    statistics [st] returns the tree and the records of a run on fresh
    statistics, and [st] with the counts of that run added and its errors
    appended. *)
Theorem clean_directory_adds_to_statistics (root_path : string) (root : option node)
    (st : FileStats) :
  let fresh := clean_directory root_path root FileStats_init in
  clean_directory root_path root st
  = (fst (fst fresh), snd (fst fresh), FileStats_add st (snd fresh)).
Proof.
  destruct root as [[f|[entries|]]|]; intros fresh; subst fresh;
    try (unfold clean_directory; cbn [fst snd stats file_data sort_on foldr];
         now rewrite FileStats_add_init).
  rewrite !clean_directory_walk. cbn [fst snd].
  set (h := height (Dir (Some entries))).
  pose proof (walk_visits h root_path [] entries {| stats := st; file_data := [] |}) as W1.
  pose proof (walk_visits h root_path [] entries
                {| stats := FileStats_init; file_data := [] |}) as W0.
  change (descend root_path []) with root_path in W1, W0.
  rewrite W1, W0, !visit_all_records. cbn [file_data app].
  rewrite (walk_fst_indep h root_path root_path entries _
             {| stats := FileStats_init; file_data := [] |}).
  now rewrite visit_all_stats_add.
Qed.

End Frame.

(** ** The names of the inventories *)

Section Filenames.

Lemma lower_plain (a : ascii) :
  is_digit a || is_upper a || is_lower a = true ->
  plain_char (if is_upper a then ascii_of_nat (nat_of_ascii a + 32) else a) = true.
Proof.
  destruct a as [[] [] [] [] [] [] [] []]; vm_compute; intros Ha;
    first [reflexivity | discriminate].
Qed.

Lemma plain_not_sep (a : ascii) : plain_char a = true -> Ascii.eqb a Posixpath.sep = false.
Proof.
  destruct a as [[] [] [] [] [] [] [] []]; vm_compute; intros Ha;
    first [reflexivity | discriminate].
Qed.

Lemma normalized_plain (s : string) :
  all_chars plain_char (lower (sub_non_alnum s)) = true.
Proof.
  induction s as [|a s IH]; [reflexivity|]. cbn [sub_non_alnum].
  destruct (is_digit a || is_upper a || is_lower a) eqn:Ha.
  - cbn [lower all_chars]. now rewrite lower_plain, IH.
  - destruct (is_continuation a); [exact IH|].
    cbn [lower all_chars]. now rewrite IH.
Qed.

Lemma plain_no_sep (s : string) : all_chars plain_char s = true -> no_sep s = true.
Proof.
  induction s as [|a s IH]; [reflexivity|]. cbn [all_chars no_sep].
  intros [Ha Hs]%andb_true_iff. now rewrite (plain_not_sep a Ha), IH.
Qed.

Lemma no_sep_app (s t : string) :
  no_sep (s +:+ t) = no_sep s && no_sep t.
Proof.
  induction s as [|a s IH]; [reflexivity|].
  rewrite str_app_cons. cbn [no_sep]. now rewrite IH, andb_assoc.
Qed.

(** X14: the name of an inventory is the prefix, an underscore, a part made
    of lower-case letters, digits and underscores alone, an underscore, the
    timestamp and [.csv]; with no separator in the prefix and the timestamp
    there is none in the name, so that the file is in the output directory
    itself. *)
Theorem inventory_name_is_plain (timestamp path prefix : string) :
  exists normalized,
    normalize_path_to_filename timestamp path prefix
    = prefix +:+ "_" +:+ normalized +:+ "_" +:+ timestamp +:+ ".csv" /\
    all_chars plain_char normalized = true /\
    (no_sep prefix = true -> no_sep timestamp = true ->
     no_sep (normalize_path_to_filename timestamp path prefix) = true).
Proof.
  exists (lower (sub_non_alnum (Posixpath.basename (Str.rstrip Posixpath.sep path)))).
  split; [reflexivity|]. split; [apply normalized_plain|].
  intros Hprefix Hts. unfold normalize_path_to_filename.
  rewrite !no_sep_app, Hprefix, Hts.
  now rewrite (plain_no_sep _ (normalized_plain _)).
Qed.

Lemma rstrip_app_seps (s : string) (n : nat) :
  Str.rstrip Posixpath.sep (s +:+ Str.repeat Posixpath.sep n) = Str.rstrip Posixpath.sep s.
Proof.
  induction n as [|n IH]; [now rewrite str_app_empty_r|].
  assert (Str.repeat Posixpath.sep (S n)
          = Str.repeat Posixpath.sep n +:+ String Posixpath.sep EmptyString) as ->.
  { clear IH. induction n as [|n IHn]; [reflexivity|].
    cbn [Str.repeat] in *. now rewrite str_app_cons, <- IHn. }
  now rewrite <- str_app_assoc, rstrip_snoc_sep.
Qed.

(** X15: the name of an inventory depends on the last segment of the path
    alone: separators at the end of the path and the directories before its
    last segment change nothing. *)
Theorem inventory_name_of_last_segment (timestamp dir name prefix : string) (n : nat) :
  segment name = true ->
  normalize_path_to_filename timestamp
    (dir +:+ String Posixpath.sep name +:+ Str.repeat Posixpath.sep n) prefix
  = normalize_path_to_filename timestamp name prefix.
Proof.
  intros Hname. unfold normalize_path_to_filename.
  pose proof (segment_no_sep name Hname) as Hns.
  rewrite <- (str_app_assoc dir (String Posixpath.sep name) (Str.repeat Posixpath.sep n)).
  rewrite rstrip_app_seps.
  assert (Str.rstrip Posixpath.sep name = name) as ->
    by (apply rstrip_id, endswith_sep_no_sep, Hns).
  assert (Str.rstrip Posixpath.sep (dir +:+ String Posixpath.sep name)
          = dir +:+ String Posixpath.sep name) as ->.
  { apply rstrip_id.
    change (String Posixpath.sep name) with (String Posixpath.sep EmptyString +:+ name).
    rewrite <- str_app_assoc, endswith_sep_app by (now apply segment_nonempty).
    now apply endswith_sep_no_sep. }
  unfold Posixpath.basename.
  now rewrite rpartition_app_sep, rpartition_no_sep.
Qed.

(** X16: the two inventories of a run never have the same path, whatever the
    root, the output directory and the two timestamps: the second is never
    written over the first. *)
Theorem inventory_paths_differ (output_directory root_directory : string)
    (timestamp1 timestamp2 : string) :
  fst (csv_paths output_directory root_directory timestamp1 timestamp2)
  <> snd (csv_paths output_directory root_directory timestamp1 timestamp2).
Proof.
  unfold csv_paths, normalize_path_to_filename. cbn [fst snd].
  set (n := lower _).
  unfold Posixpath.join.
  assert (forall t, Str.startswith ("inventory_files" +:+ t) "/" = false) as Hf
    by reflexivity.
  assert (forall t, Str.startswith ("inventory_dirs" +:+ t) "/" = false) as Hd
    by reflexivity.
  rewrite Hf, Hd.
  destruct (Str.is_empty output_directory || Str.endswith output_directory "/");
    intros Heq; apply String.app_inj in Heq;
    cbv beta iota delta [String.append] in Heq; discriminate.
Qed.

End Filenames.

(** X15 at [/home/user/My Photos/]. *)
Lemma inventory_name_of_last_segment_witness :
  segment "My Photos" = true /\
  normalize_path_to_filename "20240101_120000" "/home/user/My Photos/" "inventory_files"
  = normalize_path_to_filename "20240101_120000" "My Photos" "inventory_files".
Proof.
  split; [reflexivity|].
  exact (inventory_name_of_last_segment "20240101_120000" "/home/user" "My Photos"
           "inventory_files" 1 eq_refl).
Defined.

(** ** The order of [scandir] does not matter *)

Section ListingOrder.

Lemma key_inj_of_NoDup {A} (key : A -> string) (l : list A) (x y : A) :
  NoDup (map key l) -> In x l -> In y l -> key x = key y -> x = y.
Proof.
  induction l as [|z l IH]; intros Hnd Hx Hy Hkey; [destruct Hx|].
  cbn [map] in Hnd. apply NoDup_cons in Hnd as [Hz Hnd].
  destruct Hx as [<- | Hx], Hy as [<- | Hy]; [reflexivity | | |now apply IH].
  - exfalso. apply Hz. rewrite Hkey. now apply list_elem_of_In, in_map.
  - exfalso. apply Hz. rewrite <- Hkey. now apply list_elem_of_In, in_map.
Qed.

(** Lists with the same elements, no key twice, are sorted to the same
    list. *)
Lemma sort_on_perm_unique {A} (key : A -> string) (l l' : list A) :
  Permutation l l' -> NoDup (map key l) -> sort_on key l = sort_on key l'.
Proof.
  intros Hperm Hnd.
  apply (StronglySorted_unique_strong (key_le key)); try apply sort_on_sorted.
  - intros x1 x2 Hx1%list_elem_of_In Hx2%list_elem_of_In H12 H21.
    apply (Permutation_in _ (sort_on_Permutation key l)) in Hx1.
    apply (Permutation_in _ (sort_on_Permutation key l')) in Hx2.
    apply (Permutation_in _ (Permutation_sym Hperm)) in Hx2.
    apply (key_inj_of_NoDup key l); try assumption.
    now apply String.leb_antisym.
  - now rewrite !sort_on_Permutation.
Qed.

Lemma insert_on_Forall2 {A B} (key : A -> string) (key' : B -> string)
    (R : A -> B -> Prop) (x : A) (x' : B) (l : list A) (l' : list B) :
  (forall a b, R a b -> key a = key' b) ->
  R x x' -> Forall2 R l l' ->
  Forall2 R (insert_on key x l) (insert_on key' x' l').
Proof.
  intros Hkey Hx. induction 1 as [|y y' l l' Hy Hl IH]; cbn [insert_on].
  - now repeat constructor.
  - rewrite (Hkey _ _ Hx), (Hkey _ _ Hy).
    destruct (String.leb (key' x') (key' y')); now repeat constructor.
Qed.

Lemma sort_on_Forall2 {A B} (key : A -> string) (key' : B -> string)
    (R : A -> B -> Prop) (l : list A) (l' : list B) :
  (forall a b, R a b -> key a = key' b) ->
  Forall2 R l l' -> Forall2 R (sort_on key l) (sort_on key' l').
Proof.
  intros Hkey. induction 1 as [|x x' l l' Hx Hl IH]; [constructor|].
  cbn [sort_on foldr]. now apply insert_on_Forall2.
Qed.

Lemma filter_Forall2 {A B} (P : A -> bool) (P' : B -> bool) (R : A -> B -> Prop)
    (l : list A) (l' : list B) :
  (forall a b, R a b -> P a = P' b) ->
  Forall2 R l l' -> Forall2 R (List.filter P l) (List.filter P' l').
Proof.
  intros HP. induction 1 as [|x x' l l' Hx Hl IH]; [constructor|].
  cbn [List.filter]. rewrite (HP _ _ Hx). destruct (P' x'); now repeat constructor.
Qed.

Lemma same_entries_split (entries l : listing) :
  Forall2 same_entry entries l ->
  nondirs entries = nondirs l /\ Forall2 same_dir (dirs entries) (dirs l).
Proof.
  induction 1 as [|[n t] [n' t'] entries l [Hn Ht] Hl [IH1 IH2]];
    [split; [reflexivity | constructor]|].
  cbn [fst snd] in Hn, Ht. subst n'.
  inversion Ht; subst.
  - change (nondirs ((n, File f) :: entries)) with ((n, f) :: nondirs entries).
    change (nondirs ((n, File f) :: l)) with ((n, f) :: nondirs l).
    change (dirs ((n, File f) :: entries)) with (dirs entries).
    change (dirs ((n, File f) :: l)) with (dirs l).
    split; [now rewrite IH1 | exact IH2].
  - change (nondirs ((n, Dir None) :: entries)) with (nondirs entries).
    change (nondirs ((n, Dir None) :: l)) with (nondirs l).
    change (dirs ((n, Dir None) :: entries)) with ((n, None) :: dirs entries).
    change (dirs ((n, Dir None) :: l)) with ((n, None) :: dirs l).
    split; [exact IH1|]. constructor; [|exact IH2]. split; [reflexivity | exact Ht].
  - match goal with |- nondirs ((n, Dir (Some ?a)) :: _) = nondirs ((n, Dir (Some ?b)) :: _) /\ _ =>
      change (nondirs ((n, Dir (Some a)) :: entries)) with (nondirs entries);
      change (nondirs ((n, Dir (Some b)) :: l)) with (nondirs l);
      change (dirs ((n, Dir (Some a)) :: entries)) with ((n, Some a) :: dirs entries);
      change (dirs ((n, Dir (Some b)) :: l)) with ((n, Some b) :: dirs l)
    end.
    split; [exact IH1|]. constructor; [|exact IH2]. split; [reflexivity | exact Ht].
Qed.

Lemma same_entries_names (entries l : listing) :
  Forall2 same_entry entries l -> map fst entries = map fst l.
Proof.
  induction 1 as [|e e' entries l [Hn _] Hl IH]; [reflexivity|].
  cbn [map]. now rewrite Hn, IH.
Qed.

Lemma same_dirs_visits (fuel fuel' : nat) (chain : list string)
    (subdirs subdirs' : list (string * option listing)) :
  Forall2 same_dir subdirs subdirs' ->
  (forall d sub d' sub', In (d, Some sub) subdirs -> In (d', Some sub') subdirs' ->
     same_tree (Dir (Some sub)) (Dir (Some sub')) ->
     visited fuel (chain ++ [d]) sub = visited fuel' (chain ++ [d]) sub') ->
  visits_below fuel chain subdirs = visits_below fuel' chain subdirs'.
Proof.
  induction 1 as [|[d o] [d' o'] subdirs subdirs' [Hd Ht] Hrest IH]; intros Hsub;
    [reflexivity|].
  cbn [fst snd] in Hd, Ht. subst d'.
  unfold visits_below in *. cbn [flat_map fst snd].
  rewrite IH
    by (intros d1 s1 d2 s2 H1 H2 H3;
        apply (Hsub d1 s1 d2 s2); [now right | now right | exact H3]).
  f_equal. inversion Ht; subst; [reflexivity|].
  apply (Hsub d _ d _ (or_introl eq_refl) (or_introl eq_refl)). exact Ht.
Qed.

Lemma same_tree_visits (fuel : nat) : forall fuel', same_visits_at fuel fuel'.
Proof.
  induction fuel as [|fuel IH];
    intros fuel' chain entries entries' Hsame Hwf Hh Hh'.
  - cbn [height] in Hh. lia.
  - destruct fuel' as [|fuel']; [cbn [height] in Hh'; lia|].
    inversion Hsame as [| |? ? l Hl Hperm]; subst.
    fold same_entry in Hl.
    destruct (wf_node_entries entries Hwf) as [Hnd Hall].
    destruct (same_entries_split entries l Hl) as [Hfiles Hdirs].
    pose proof (same_entries_names entries l Hl) as Hnames.
    assert (NoDup (map fst l)) as Hnd_l by now rewrite <- Hnames.
    cbn [visited]. f_equal.
    + f_equal. rewrite Hfiles. apply sort_on_perm_unique.
      * unfold nondirs. now rewrite Hperm.
      * now apply NoDup_names_nondirs.
    + fold (visits_below fuel chain
              (List.filter (fun d => negb (hidden d)) (sort_on fst (dirs entries)))).
      fold (visits_below fuel' chain
              (List.filter (fun d => negb (hidden d)) (sort_on fst (dirs entries')))).
      assert (sort_on fst (dirs entries') = sort_on fst (dirs l)) as ->.
      { symmetry. apply sort_on_perm_unique.
        - unfold dirs. now rewrite Hperm.
        - now apply NoDup_names_dirs. }
      apply same_dirs_visits.
      * apply filter_Forall2.
        -- intros a b [Hab _]. unfold hidden. now rewrite Hab.
        -- apply sort_on_Forall2; [now intros a b [Hab _] | exact Hdirs].
      * intros d sub d' sub' Hin Hin' Htree.
        apply filter_In in Hin as [Hin _]. apply filter_In in Hin' as [Hin' _].
        apply (Permutation_in _ (sort_on_Permutation fst (dirs entries))) in Hin.
        apply (Permutation_in _ (sort_on_Permutation fst (dirs l))) in Hin'.
        apply in_dirs in Hin, Hin'.
        pose proof (Hall _ Hin) as [_ Hwf_sub].
        apply (Permutation_in _ Hperm) in Hin'.
        apply height_entry in Hin, Hin'. cbn [dir_entry fst snd] in *.
        apply IH; try assumption; lia.
Qed.

End ListingOrder.

Section ListingOrderRun.
Context `{Runtime} `{C : Console}.

(** X17: the records returned and the statistics do not depend on the order
    in which [scandir] gives the entries of a directory, at any depth: the
    sorts of the walk make the run the same on two listings of one tree
    where no directory holds a name twice. *)
Theorem listing_order_does_not_matter (root_path : string) (root root' : node)
    (st : FileStats) :
  same_tree root root' ->
  wf_node root = true ->
  snd (fst (clean_directory root_path (Some root) st))
  = snd (fst (clean_directory root_path (Some root') st))
  /\ snd (clean_directory root_path (Some root) st)
     = snd (clean_directory root_path (Some root') st).
Proof.
  intros Hsame Hwf. pose proof Hsame as Hsame'.
  inversion Hsame as [| |entries entries' l Hl Hperm]; subst;
    try (split; reflexivity).
  rewrite !clean_directory_result, !clean_directory_stats.
  now rewrite (same_tree_visits (height (Dir (Some entries)))
                 (height (Dir (Some entries'))) [] entries entries'
                 Hsame' Hwf (le_n _) (le_n _)).
Qed.

(** X18: in the two inventories that [main] writes for a tree as a file
    system has them, the [directory] of every row of files is empty, for a
    file at the root, or the [directory_path] of a row of directories. *)
Theorem main_directory_column_has_row (w : world) :
  wf_root (root w) = true ->
  match snd (main w) with
  | Finished files_csv dirs_csv _ =>
      Forall (fun fi => directory fi = EmptyString \/
                        In (directory fi) (map directory_path dirs_csv)) files_csv
  | Uncaught _ => True
  end.
Proof.
  intros Hwf. unfold main.
  destruct (print _); [exact I|].
  pose proof (clean_directory_normalized (ROOT_DIRECTORY w) (root w) FileStats_init Hwf)
    as Hnorm.
  pose proof (clean_directory_record_facts (ROOT_DIRECTORY w) (root w) FileStats_init Hwf)
    as Hfacts.
  destruct (clean_directory_run (ROOT_DIRECTORY w) (root w) FileStats_init)
    as [root' result st|e root' st] eqn:Hrun; [|exact I].
  apply clean_directory_run_returns in Hrun. rewrite Hrun in Hnorm, Hfacts.
  cbn [fst snd] in *.
  destruct (csv_paths _ _ _ _) as [files_csv dirs_csv]. cbn [snd].
  destruct (save_to_csv w); [exact I|].
  destruct (save_directory_structure w); [exact I|].
  destruct (print_all _); [exact I|].
  apply List.Forall_forall. intros fi Hfi.
  rewrite List.Forall_forall in Hfacts.
  destruct (Hfacts fi Hfi) as (_ & _ & Hdir & _). rewrite Hdir.
  destruct (Posixpath.dirname (relative_path fi)) eqn:Hd; [now left|].
  right. rewrite <- Hd. apply dirname_in_directory_paths; [exact Hnorm | exact Hfi |].
  now rewrite Hd.
Qed.

End ListingOrderRun.

(** X17 at a directory of two files, listed in the two orders. *)
Lemma listing_order_does_not_matter_witness :
  let listed := Dir (Some [("b.txt", example_file 2); ("a.txt", example_file 1)]) in
  let listed' := Dir (Some [("a.txt", example_file 1); ("b.txt", example_file 2)]) in
  same_tree listed listed' /\ wf_node listed = true /\
  snd (fst (clean_directory (H := example_runtime) "/data" (Some listed) FileStats_init))
  = snd (fst (clean_directory (H := example_runtime) "/data" (Some listed') FileStats_init)).
Proof.
  assert (same_tree
            (Dir (Some [("b.txt", example_file 2); ("a.txt", example_file 1)]))
            (Dir (Some [("a.txt", example_file 1); ("b.txt", example_file 2)]))) as Hsame.
  { eapply same_listed; [|apply perm_swap].
    repeat constructor. }
  assert (wf_node (Dir (Some [("b.txt", example_file 2); ("a.txt", example_file 1)]))
          = true) as Hwf by (vm_compute; reflexivity).
  split; [exact Hsame|]. split; [exact Hwf|].
  destruct (listing_order_does_not_matter (H := example_runtime) "/data" _ _
              FileStats_init Hsame Hwf) as [Hrecords _].
  exact Hrecords.
Defined.

(** X18 at [example_tree], on a console that takes every message. *)
Lemma main_directory_column_has_row_witness :
  let w := example_world (Some example_tree) in
  wf_root (root w) = true /\
  match snd (main (H := example_runtime) (C := accepting_console) w) with
  | Finished files_csv dirs_csv _ =>
      Forall (fun fi => directory fi = EmptyString \/
                        In (directory fi) (map directory_path dirs_csv)) files_csv
  | Uncaught _ => True
  end.
Proof.
  assert (wf_root (Some example_tree) = true) as Hwf by (vm_compute; reflexivity).
  split; [exact Hwf|].
  exact (main_directory_column_has_row (H := example_runtime) (C := accepting_console)
           (example_world (Some example_tree)) Hwf).
Defined.

Section FreedWhenQuiet.
Context `{Runtime}.

Lemma error_for_junk root_path v :
  junk root_path v = true -> error_for root_path v = None ->
  os_remove_error (v_file v) = None.
Proof.
  unfold junk, error_for. intros ->. now destruct (os_remove_error (v_file v)).
Qed.

(** X19: on a tree as a file system has them, the relative path of every
    record returned is normalized: none of its segments is empty, so that
    it neither starts nor ends with a separator. *)
Theorem record_paths_are_normalized (root_path : string) (root : option node)
    (st : FileStats) :
  wf_root root = true ->
  Forall (fun r => normalized (relative_path r) = true)
    (snd (fst (clean_directory root_path root st))).
Proof. apply clean_directory_normalized. Qed.

(** X20: when a run logs no error, [cleaned_size] is the sum of the sizes of
    the files removed, a file whose size cannot be read counting for 0. *)
Theorem cleaned_size_when_no_error (root_path : string) (entries : listing) :
  let run := clean_directory root_path (Some (Dir (Some entries))) FileStats_init in
  errors (snd run) = [] ->
  cleaned_size (snd run)
  = foldr (fun v n => size_freed root_path v + n) 0
      (visited (height (Dir (Some entries))) [] entries).
Proof.
  intros run Hquiet. subst run.
  rewrite clean_directory_stats in Hquiet |- *.
  rewrite visit_all_errors in Hquiet. cbn [stats] in Hquiet.
  change (errors FileStats_init) with (@nil string) in Hquiet. cbn [app] in Hquiet.
  rewrite visit_all_cleaned_size. cbn [stats].
  change (cleaned_size FileStats_init) with 0. rewrite Z.add_0_l.
  apply size_added_freed. apply List.Forall_forall. intros v Hv Hjunk.
  apply (error_for_junk root_path v Hjunk).
  now apply (omap_nil_inv _ _ Hquiet).
Qed.

End FreedWhenQuiet.

(** X19 at [example_tree]. *)
Lemma record_paths_are_normalized_witness :
  wf_root (Some example_tree) = true /\
  Forall (fun r => normalized (relative_path r) = true)
    (snd (fst (clean_directory (H := example_runtime) "/data" (Some example_tree)
                 FileStats_init))).
Proof.
  assert (wf_root (Some example_tree) = true) as Hwf by (vm_compute; reflexivity).
  split; [exact Hwf|].
  exact (record_paths_are_normalized (H := example_runtime) "/data"
           (Some example_tree) FileStats_init Hwf).
Defined.

(** X20 at a directory of two junk files and a file that stays. *)
Lemma cleaned_size_when_no_error_witness :
  let entries := [(".DS_Store", example_file 7); ("Thumbs.db", example_file 4);
                  ("notes.txt", example_file 1)] in
  let run := clean_directory (H := example_runtime) "/data" (Some (Dir (Some entries)))
               FileStats_init in
  errors (snd run) = [] /\ cleaned_size (snd run) = 11.
Proof.
  assert (errors (snd (clean_directory (H := example_runtime) "/data"
                         (Some (Dir (Some [(".DS_Store", example_file 7);
                                           ("Thumbs.db", example_file 4);
                                           ("notes.txt", example_file 1)])))
                         FileStats_init)) = []) as Hquiet
    by (vm_compute; reflexivity).
  split; [exact Hquiet|].
  rewrite (cleaned_size_when_no_error (H := example_runtime) "/data" _ Hquiet).
  vm_compute. reflexivity.
Defined.
